(** * PlanDefinition to BPMN: the conversion engine

    A shallow embedding of [src/lib/BpmnFactory.ts] (the graph builder with its
    layout) and of [src/lib/plandefinition-to-bpmn.ts] (the action walker, the
    documentation composer and the XML serializer), followed by the properties
    of the conversion.

    Conventions of the embedding:
    - an optional field [f?: T] is an [option T]; [undefined] is [None];
    - a JavaScript string is a [string]; the empty string is falsy;
    - the input follows the interfaces [FhirPlanDefinition] and [FhirAction]
      of the source; the argument of the converter, an [any], is an optional
      document whose [resourceType] is optional too;
    - the field [type] of an element is one of the six tags the factory
      writes, an enumerated type;
    - the counters are [nat], the layout numbers are [Z]: every number the
      factory stores is an integer, and the three sizes it halves (36, 50, 80)
      are even, so [/ 2] is exact;
    - the private state of a [BpmnFactory] instance is a record that every
      method takes and returns; [find] followed by a mutation of the element
      found is an update of the first match of the list;
    - a call of the converter takes the console as it is and returns how it
      ended, the console after it, and the factory it created, if any;
    - the walker and the call are first written for an engine whose call
      stack is never full, which gives what the call returns when it returns;
      [processActionsWithin] and [convertPlanDefinitionToBpmnWithin] then count
      the stack, in activations of [processActions], the one function that
      calls itself, and throw the [RangeError] of the engine when the nesting
      of the actions takes more room than there is. *)

From Stdlib Require Import List String Ascii ZArith Lia Bool Arith PeanoNat.
From Stdlib Require Import DecimalString DecimalNat.
Import ListNotations.
Open Scope list_scope.
Open Scope string_scope.

(** ** JavaScript primitives used by the two source files *)

Module Js.

(** The double quote, which the templates of the serializer use around
    every attribute value. *)
Definition dq : string := String "034"%char EmptyString.

(** The line feed of [join('\n')]. *)
Definition nl : string := String "010"%char EmptyString.

(** Truthiness of a [string | undefined]. *)
Definition truthy (o : option string) : bool :=
  match o with
  | Some (String _ _) => true
  | _ => false
  end.

(** [a || b] where both sides are [string | undefined]. *)
Definition or (a b : option string) : option string :=
  if truthy a then a else b.

(** [a || 'literal']. *)
Definition orStr (a : option string) (d : string) : string :=
  match a with
  | Some (String c s) => String c s
  | _ => d
  end.

(** [l.filter(Boolean)] on a list of [string | undefined]. *)
Fixpoint filterBoolean (l : list (option string)) : list string :=
  match l with
  | [] => []
  | Some (String c s) :: r => String c s :: filterBoolean r
  | _ :: r => filterBoolean r
  end.

(** [l.join(sep)]. *)
Fixpoint join (sep : string) (l : list string) : string :=
  match l with
  | [] => EmptyString
  | [x] => x
  | x :: r => x ++ sep ++ join sep r
  end.

(** A counter inside a template literal. *)
Definition ofNat (n : nat) : string :=
  NilEmpty.string_of_uint (Nat.to_uint n).

(** An integer number inside a template literal. *)
Definition ofZ (z : Z) : string :=
  NilEmpty.string_of_int (Z.to_int z).

(** A [number | undefined] inside a template literal. *)
Definition ofNumber (o : option Z) : string :=
  match o with
  | Some z => ofZ z
  | None => "undefined"
  end.

(** [n || 0] on a [number | undefined]. *)
Definition orZero (o : option Z) : Z :=
  match o with
  | Some z => z
  | None => 0%Z
  end.

(** [arr.find(p)] followed by a mutation [g] of the element found, when
    there is one: the first match is replaced in place. *)
Fixpoint updateFirst {A : Type} (p : A -> bool) (g : A -> A) (l : list A)
  : list A :=
  match l with
  | [] => []
  | x :: r => if p x then g x :: r else x :: updateFirst p g r
  end.

(** [s.replace(/c/g, by)] for a one-character pattern. *)
Fixpoint replaceAll (c : ascii) (by_ : string) (s : string) : string :=
  match s with
  | EmptyString => EmptyString
  | String a r =>
      if Ascii.eqb a c then by_ ++ replaceAll c by_ r
      else String a (replaceAll c by_ r)
  end.

End Js.

(** ** The elements of [BpmnFactory.ts] *)

(** The values the field [type] of a [BpmnElement] takes in this program. *)
Inductive ElementType : Type :=
| startEvent
| endEvent
| intermediateEvent
| task
| exclusiveGateway
| sequenceFlow.

Definition ElementType_eqb (a b : ElementType) : bool :=
  match a, b with
  | startEvent, startEvent
  | endEvent, endEvent
  | intermediateEvent, intermediateEvent
  | task, task
  | exclusiveGateway, exclusiveGateway
  | sequenceFlow, sequenceFlow => true
  | _, _ => false
  end.

Module BpmnElement.
Record t : Type := mk {
  id : string;
  type : ElementType;
  name : option string;
  documentation : option string;
  incoming : option (list string);
  outgoing : option (list string);
  sourceRef : option string;
  targetRef : option string;
  conditionExpression : option string;
  default : option string
}.

(** [if (!e.outgoing) e.outgoing = []; e.outgoing.push(flowId)] *)
Definition pushOutgoing (flowId : string) (e : t) : t :=
  mk (id e) (type e) (name e) (documentation e) (incoming e)
     (Some (match outgoing e with Some l => l | None => [] end ++ [flowId])%list)
     (sourceRef e) (targetRef e) (conditionExpression e) (default e).

(** [if (!e.incoming) e.incoming = []; e.incoming.push(flowId)] *)
Definition pushIncoming (flowId : string) (e : t) : t :=
  mk (id e) (type e) (name e) (documentation e)
     (Some (match incoming e with Some l => l | None => [] end ++ [flowId])%list)
     (outgoing e)
     (sourceRef e) (targetRef e) (conditionExpression e) (default e).

(** The predicate [e => e.id === i]. *)
Definition hasId (i : string) (e : t) : bool := String.eqb (id e) i.
End BpmnElement.

Module Waypoint.
Record t : Type := mk { x : Z; y : Z }.
End Waypoint.

Module BpmnDiElement.
Record t : Type := mk {
  id : string;
  bpmnElement : string;
  x : option Z;
  y : option Z;
  width : option Z;
  height : option Z;
  waypoints : option (list Waypoint.t)
}.

(** The predicate [di => di.bpmnElement === i]. *)
Definition isFor (i : string) (d : t) : bool := String.eqb (bpmnElement d) i.
End BpmnDiElement.

(** ** The factory *)

Module BpmnFactory.

Record t : Type := mk {
  elements : list BpmnElement.t;
  diElements : list BpmnDiElement.t;
  elementCounter : nat;
  flowCounter : nat;
  currentX : Z;
  currentY : Z
}.

Definition HORIZONTAL_SPACING : Z := 180.
Definition TASK_WIDTH : Z := 120.
Definition TASK_HEIGHT : Z := 80.
Definition GATEWAY_SIZE : Z := 50.
Definition EVENT_SIZE : Z := 36.

(** [new BpmnFactory()]: the field initialisers of the class. *)
Definition new : t := mk [] [] 0 0 100 150.

(** [generateId]: the counter is incremented first. *)
Definition generateId (prefix : string) (f : t) : string * t :=
  let n := S (elementCounter f) in
  (prefix ++ "_" ++ Js.ofNat n,
   mk (elements f) (diElements f) n (flowCounter f) (currentX f) (currentY f)).

Definition generateFlowId (f : t) : string * t :=
  let n := S (flowCounter f) in
  ("Flow_" ++ Js.ofNat n,
   mk (elements f) (diElements f) (elementCounter f) n (currentX f) (currentY f)).

Definition getCenterY (elementHeight : Z) (f : t) : Z :=
  (currentY f - elementHeight / 2)%Z.

Definition advanceX (elementWidth : Z) (f : t) : t :=
  mk (elements f) (diElements f) (elementCounter f) (flowCounter f)
     (currentX f + (elementWidth + HORIZONTAL_SPACING))%Z (currentY f).

(** [this.elements.push(e)] *)
Definition pushElement (e : BpmnElement.t) (f : t) : t :=
  mk (elements f ++ [e])%list (diElements f) (elementCounter f) (flowCounter f)
     (currentX f) (currentY f).

(** [this.diElements.push(d)] *)
Definition pushDi (d : BpmnDiElement.t) (f : t) : t :=
  mk (elements f) (diElements f ++ [d])%list (elementCounter f) (flowCounter f)
     (currentX f) (currentY f).

(** The shape every node creator registers: at the cursor, centred on the
    line [currentY]. *)
Definition shapeAt (id : string) (w h : Z) (f : t) : BpmnDiElement.t :=
  BpmnDiElement.mk (id ++ "_di") id
    (Some (currentX f)) (Some (getCenterY h f)) (Some w) (Some h) None.

Definition createStartEvent (f : t) : string * t :=
  let '(id, f) := generateId "StartEvent" f in
  let f := pushElement
    (BpmnElement.mk id startEvent (Some "Start") None None (Some []) None None None None) f in
  let f := pushDi (shapeAt id EVENT_SIZE EVENT_SIZE f) f in
  let f := advanceX EVENT_SIZE f in
  (id, f).

Definition createEndEvent (incomingFlowId : string) (f : t) : string * t :=
  let '(id, f) := generateId "EndEvent" f in
  let f := pushElement
    (BpmnElement.mk id endEvent (Some "End") None (Some [incomingFlowId]) None
       None None None None) f in
  let f := pushDi (shapeAt id EVENT_SIZE EVENT_SIZE f) f in
  let f := advanceX EVENT_SIZE f in
  (id, f).

Definition createTask (name incomingFlowId : string) (documentation : option string)
    (f : t) : string * t :=
  let '(id, f) := generateId "Task" f in
  let f := pushElement
    (BpmnElement.mk id task (Some name) documentation (Some [incomingFlowId]) (Some [])
       None None None None) f in
  let f := pushDi (shapeAt id TASK_WIDTH TASK_HEIGHT f) f in
  let f := advanceX TASK_WIDTH f in
  (id, f).

Definition createExclusiveGateway (name incomingFlowId : string) (f : t) : string * t :=
  let '(id, f) := generateId "Gateway" f in
  let f := pushElement
    (BpmnElement.mk id exclusiveGateway (Some name) None (Some [incomingFlowId]) (Some [])
       None None None None) f in
  let f := pushDi (shapeAt id GATEWAY_SIZE GATEWAY_SIZE f) f in
  let f := advanceX GATEWAY_SIZE f in
  (id, f).

Definition createIntermediateEvent (name incomingFlowId : string)
    (documentation : option string) (f : t) : string * t :=
  let '(id, f) := generateId "IntermediateEvent" f in
  let f := pushElement
    (BpmnElement.mk id intermediateEvent (Some name) documentation
       (Some [incomingFlowId]) (Some []) None None None None) f in
  let f := pushDi (shapeAt id EVENT_SIZE EVENT_SIZE f) f in
  let f := advanceX EVENT_SIZE f in
  (id, f).

(** [getElementById] and [getDiElement]: the first match. *)
Definition getElementById (id : string) (f : t) : option BpmnElement.t :=
  find (BpmnElement.hasId id) (elements f).

Definition getDiElement (bpmnElementId : string) (f : t) : option BpmnDiElement.t :=
  find (BpmnDiElement.isFor bpmnElementId) (diElements f).

Definition getElementsByType (ty : ElementType) (f : t) : list BpmnElement.t :=
  filter (fun e => ElementType_eqb (BpmnElement.type e) ty) (elements f).

(** The two waypoints of an edge between two registered shapes. *)
Definition edgeWaypoints (sourceShape targetShape : BpmnDiElement.t)
  : list Waypoint.t :=
  let sourceX := (Js.orZero (BpmnDiElement.x sourceShape)
                  + Js.orZero (BpmnDiElement.width sourceShape))%Z in
  let sourceY := (Js.orZero (BpmnDiElement.y sourceShape)
                  + Js.orZero (BpmnDiElement.height sourceShape) / 2)%Z in
  let targetX := Js.orZero (BpmnDiElement.x targetShape) in
  let targetY := (Js.orZero (BpmnDiElement.y targetShape)
                  + Js.orZero (BpmnDiElement.height targetShape) / 2)%Z in
  [Waypoint.mk sourceX sourceY; Waypoint.mk targetX targetY].

Definition createSequenceFlow (sourceId targetId : string)
    (conditionExpression name : option string) (f : t) : string * t :=
  let '(id, f) := generateFlowId f in
  let flow := BpmnElement.mk id sequenceFlow
    (if Js.truthy name then name else None) None None None
    (Some sourceId) (Some targetId)
    (if Js.truthy conditionExpression then conditionExpression else None) None in
  let f := pushElement flow f in
  (* Update source element's outgoing *)
  let f := mk (Js.updateFirst (BpmnElement.hasId sourceId)
                 (BpmnElement.pushOutgoing id) (elements f))
              (diElements f) (elementCounter f) (flowCounter f)
              (currentX f) (currentY f) in
  (* Update target element's incoming *)
  let f := mk (Js.updateFirst (BpmnElement.hasId targetId)
                 (BpmnElement.pushIncoming id) (elements f))
              (diElements f) (elementCounter f) (flowCounter f)
              (currentX f) (currentY f) in
  (* Add DI for the flow *)
  let f :=
    match getDiElement sourceId f, getDiElement targetId f with
    | Some sourceShape, Some targetShape =>
        pushDi (BpmnDiElement.mk (id ++ "_di") id None None None None
                  (Some (edgeWaypoints sourceShape targetShape))) f
    | _, _ => f
    end in
  (id, f).

(** [getCurrentX], [setCurrentX], [getCurrentY], [setCurrentY] *)
Definition getCurrentX (f : t) : Z := currentX f.

Definition setCurrentX (x : Z) (f : t) : t :=
  mk (elements f) (diElements f) (elementCounter f) (flowCounter f) x (currentY f).

Definition getCurrentY (f : t) : Z := currentY f.

Definition setCurrentY (y : Z) (f : t) : t :=
  mk (elements f) (diElements f) (elementCounter f) (flowCounter f) (currentX f) y.

(** [getBpmnJson]: the two arrays of the instance. *)
Definition getBpmnJson (f : t) : list BpmnElement.t * list BpmnDiElement.t :=
  (elements f, diElements f).

End BpmnFactory.

(** ** The input: the interfaces of [plandefinition-to-bpmn.ts] *)

Module FhirExpression.
Record t : Type := mk {
  language : option string;
  expression : option string
}.
End FhirExpression.

Module FhirDocumentation.
Record t : Type := mk { type : option string; display : option string }.
End FhirDocumentation.

Module FhirTrigger.
Record t : Type := mk { type : option string; name : option string }.
End FhirTrigger.

Module FhirCondition.
Record t : Type := mk {
  kind : option string;
  expression : option FhirExpression.t
}.
End FhirCondition.

Module FhirRelatedAction.
Record t : Type := mk { actionId : option string; relationship : option string }.
End FhirRelatedAction.

Module FhirCoding.
Record t : Type := mk {
  system : option string;
  code : option string;
  display : option string
}.
End FhirCoding.

Module FhirType.
Record t : Type := mk { coding : option (list FhirCoding.t) }.
End FhirType.

Module FhirDynamicValue.
Record t : Type := mk {
  path : option string;
  expression : option FhirExpression.t
}.
End FhirDynamicValue.

Module FhirAction.
#[local] Set Warnings "-register-all".
Inductive t : Type := mk {
  id : option string;
  title : option string;
  description : option string;
  textEquivalent : option string;
  documentation : option (list FhirDocumentation.t);
  trigger : option (list FhirTrigger.t);
  condition : option (list FhirCondition.t);
  relatedAction : option (list FhirRelatedAction.t);
  type : option FhirType.t;
  dynamicValue : option (list FhirDynamicValue.t);
  action : option (list t)
}.

(** An action with no field at all, [{}]. *)
Definition empty : t :=
  mk None None None None None None None None None None None.
End FhirAction.

Module FhirPlanDefinition.
(** [resourceType] is optional here: the converter takes an [any] and is
    the one that checks the field. *)
Record t : Type := mk {
  resourceType : option string;
  id : option string;
  title : option string;
  description : option string;
  action : option (list FhirAction.t)
}.
End FhirPlanDefinition.

(** [e?.expression] and [e?.language] on an optional expression object. *)
Definition expressionOf (e : option FhirExpression.t) : option string :=
  match e with
  | Some x => FhirExpression.expression x
  | None => None
  end.

Definition languageOf (e : option FhirExpression.t) : option string :=
  match e with
  | Some x => FhirExpression.language x
  | None => None
  end.

(** [arr && arr.length > 0], returning the array when the test holds. *)
Definition nonEmpty {A : Type} (o : option (list A)) : option (list A) :=
  match o with
  | Some (x :: r) => Some (x :: r)
  | _ => None
  end.

(** ** The documentation composer *)

(** The suffix [lang ? ` (${lang})` : ''] *)
Definition languageSuffix (e : option FhirExpression.t) : string :=
  match languageOf e with
  | Some (String c s) => " (" ++ String c s ++ ")"
  | _ => EmptyString
  end.

Definition conditionLine (idx : nat) (cond : FhirCondition.t) : string :=
  let condText := Js.orStr (expressionOf (FhirCondition.expression cond)) "condition" in
  let condLang := languageSuffix (FhirCondition.expression cond) in
  "Condition " ++ Js.ofNat (idx + 1) ++ ": " ++ condText ++ condLang.

Definition dynamicValueLine (idx : nat) (dv : FhirDynamicValue.t) : string :=
  let expr := Js.orStr (expressionOf (FhirDynamicValue.expression dv)) "expression" in
  let path := Js.orStr (FhirDynamicValue.path dv) "path" in
  let lang := languageSuffix (FhirDynamicValue.expression dv) in
  "Dynamic Value " ++ Js.ofNat (idx + 1) ++ ": " ++ path ++ " = " ++ expr ++ lang.

(** What one round of the [forEach] over [action.documentation] pushes. *)
Definition documentationLine (idx : nat) (doc : FhirDocumentation.t) : list string :=
  match FhirDocumentation.display doc with
  | Some (String c s) => ["Documentation " ++ Js.ofNat (idx + 1) ++ ": " ++ String c s]
  | _ => []
  end.

(** [arr.forEach((x, idx) => docParts.push(...))]: the lines pushed, from
    index [idx] on. *)
Fixpoint forEachIdx {A : Type} (k : nat -> A -> list string) (idx : nat) (l : list A)
  : list string :=
  match l with
  | [] => []
  | x :: r => (k idx x ++ forEachIdx k (S idx) r)%list
  end.

Definition triggerPair (t : FhirTrigger.t) : string :=
  Js.orStr (FhirTrigger.type t) "event" ++ ": " ++ Js.orStr (FhirTrigger.name t) "unnamed".

Definition codingLabel (c : FhirCoding.t) : option string :=
  Js.or (FhirCoding.display c) (FhirCoding.code c).

Definition codingsOf (ty : option FhirType.t) : option (list FhirCoding.t) :=
  match ty with
  | Some x => FhirType.coding x
  | None => None
  end.

(** The array [docParts] at the end of [buildActionDocumentation]. *)
Definition docParts (action : FhirAction.t) : list string :=
  List.concat
    [ if Js.truthy (FhirAction.description action)
      then [("Description: " ++ Js.orStr (FhirAction.description action) EmptyString)%string]
      else [];
      if Js.truthy (FhirAction.textEquivalent action)
      then [("Text: " ++ Js.orStr (FhirAction.textEquivalent action) EmptyString)%string]
      else [];
      match nonEmpty (codingsOf (FhirAction.type action)) with
      | Some coding =>
          [("Type: " ++ Js.join ", " (Js.filterBoolean (map codingLabel coding)))%string]
      | None => []
      end;
      match nonEmpty (FhirAction.trigger action) with
      | Some trigger => [("Triggers: " ++ Js.join "; " (map triggerPair trigger))%string]
      | None => []
      end;
      match nonEmpty (FhirAction.condition action) with
      | Some condition => forEachIdx (fun idx c => [conditionLine idx c]) 0 condition
      | None => []
      end;
      match nonEmpty (FhirAction.dynamicValue action) with
      | Some dynamicValue =>
          forEachIdx (fun idx dv => [dynamicValueLine idx dv]) 0 dynamicValue
      | None => []
      end;
      match nonEmpty (FhirAction.documentation action) with
      | Some documentation => forEachIdx documentationLine 0 documentation
      | None => []
      end ].

Definition buildActionDocumentation (action : FhirAction.t) : string :=
  Js.join Js.nl (docParts action).

(** ** The action walker *)

(** The walker threads the factory it mutates and its local variable
    [lastElementId]. *)
Definition Walk : Type := (BpmnFactory.t * string)%type.

Definition triggerName (t : FhirTrigger.t) : option string :=
  Js.or (FhirTrigger.name t) (FhirTrigger.type t).

(** Lines 114 to 123: the intermediate event of an action with triggers. *)
Definition triggerStep (action : FhirAction.t) (w : Walk) : Walk :=
  let '(factory, lastElementId) := w in
  match nonEmpty (FhirAction.trigger action) with
  | Some trigger =>
      let triggerNames := Js.join ", " (Js.filterBoolean (map triggerName trigger)) in
      let '(eventId, factory) :=
        BpmnFactory.createIntermediateEvent ("Trigger: " ++ triggerNames) "temp_incoming"
          (Some (buildActionDocumentation action)) factory in
      let '(_, factory) :=
        BpmnFactory.createSequenceFlow lastElementId eventId None None factory in
      (factory, eventId)
  | None => w
  end.

(** Lines 126 to 150 and 157 to 163: the gateway and the task of an action
    with conditions, or its task alone. *)
Definition taskStep (action : FhirAction.t) (i : nat) (w : Walk) : Walk :=
  let '(factory, lastElementId) := w in
  let actionName :=
    Js.orStr (Js.or (FhirAction.title action) (FhirAction.description action))
      ("Action " ++ Js.ofNat (i + 1)) in
  let documentation := buildActionDocumentation action in
  match nonEmpty (FhirAction.condition action) with
  | Some condition =>
      let condition0 := hd (FhirCondition.mk None None) condition in
      let conditionText :=
        Js.orStr (expressionOf (FhirCondition.expression condition0)) "Check Condition" in
      let '(gatewayId, factory) :=
        BpmnFactory.createExclusiveGateway ("Decision: " ++ conditionText) "temp_incoming"
          factory in
      let '(_, factory) :=
        BpmnFactory.createSequenceFlow lastElementId gatewayId None None factory in
      let '(taskId, factory) :=
        BpmnFactory.createTask actionName "temp_incoming" (Some documentation) factory in
      let '(_, factory) :=
        BpmnFactory.createSequenceFlow gatewayId taskId
          (expressionOf (FhirCondition.expression condition0)) (Some "Yes") factory in
      (factory, taskId)
  | None =>
      let '(taskId, factory) :=
        BpmnFactory.createTask actionName "temp_incoming" (Some documentation) factory in
      let '(_, factory) :=
        BpmnFactory.createSequenceFlow lastElementId taskId None None factory in
      (factory, taskId)
  end.

(** One round of the loop of [processActions], on the action at index [i].
    The recursive call on the nested actions is the same in both branches of
    the source (lines 153 and 166); the inner [fix] is the loop of the
    recursive call. *)
Fixpoint processAction (action : FhirAction.t) (i : nat) (w : Walk) {struct action}
  : Walk :=
  let w := triggerStep action w in
  let w := taskStep action i w in
  match FhirAction.action action with
  | Some (a :: rest) =>
      (fix loop (actions : list FhirAction.t) (i : nat) (w : Walk) {struct actions}
         : Walk :=
         match actions with
         | [] => w
         | action :: actions => loop actions (S i) (processAction action i w)
         end) (a :: rest) 0 w
  | _ => w
  end.

(** The loop [for (let i = ...; i < actions.length; i++)], from index [i]. *)
Fixpoint processActionsFrom (actions : list FhirAction.t) (i : nat) (w : Walk) : Walk :=
  match actions with
  | [] => w
  | action :: actions => processActionsFrom actions (S i) (processAction action i w)
  end.

Definition processActions (factory : BpmnFactory.t) (actions : list FhirAction.t)
    (previousElementId : string) : BpmnFactory.t * string :=
  processActionsFrom actions 0 (factory, previousElementId).

(** ** The XML serializer *)

(** [escapeXml]: five global replacements, the ampersand first. *)
Definition escapeXml (text : string) : string :=
  match text with
  | EmptyString => EmptyString
  | _ =>
      Js.replaceAll "'"%char "&apos;"
        (Js.replaceAll "034"%char "&quot;"
           (Js.replaceAll ">"%char "&gt;"
              (Js.replaceAll "<"%char "&lt;"
                 (Js.replaceAll "&"%char "&amp;" text))))
  end.

(** [key="value"] with the value already escaped. *)
Definition attr (key value : string) : string :=
  key ++ "=" ++ Js.dq ++ value ++ Js.dq.

(** The opening line of a node:
    [<bpmn:TAG id="${escapeXml(element.id)}" name="${escapeXml(element.name || '')}">] *)
Definition openLine (indent tag : string) (element : BpmnElement.t) : string :=
  indent ++ "<bpmn:" ++ tag ++ " "
    ++ attr "id" (escapeXml (BpmnElement.id element)) ++ " "
    ++ attr "name" (escapeXml (Js.orStr (BpmnElement.name element) EmptyString)) ++ ">".

(** [if (element.documentation) lines.push(...)] *)
Definition documentationLines (indent : string) (element : BpmnElement.t) : list string :=
  match BpmnElement.documentation element with
  | Some (String c s) =>
      [(indent ++ "  <bpmn:documentation>" ++ escapeXml (String c s)
          ++ "</bpmn:documentation>")%string]
  | _ => []
  end.

(** [if (element.incoming && element.incoming.length > 0) element.incoming.forEach(...)] *)
Definition incomingLines (indent : string) (element : BpmnElement.t) : list string :=
  match BpmnElement.incoming element with
  | Some l =>
      map (fun inc => (indent ++ "  <bpmn:incoming>" ++ escapeXml inc
                         ++ "</bpmn:incoming>")%string) l
  | None => []
  end.

Definition outgoingLines (indent : string) (element : BpmnElement.t) : list string :=
  match BpmnElement.outgoing element with
  | Some l =>
      map (fun out => (indent ++ "  <bpmn:outgoing>" ++ escapeXml out
                         ++ "</bpmn:outgoing>")%string) l
  | None => []
  end.

Definition closeLine (indent tag : string) : string :=
  indent ++ "</bpmn:" ++ tag ++ ">".

(** The attributes of a sequence flow, joined with a space. *)
Definition flowAttrs (element : BpmnElement.t) : string :=
  Js.join " "
    ([attr "id" (escapeXml (BpmnElement.id element));
      attr "sourceRef" (escapeXml (Js.orStr (BpmnElement.sourceRef element) EmptyString));
      attr "targetRef" (escapeXml (Js.orStr (BpmnElement.targetRef element) EmptyString))]
     ++ match BpmnElement.name element with
        | Some (String c s) => [attr "name" (escapeXml (String c s))]
        | _ => []
        end)%list.

Definition conditionExpressionOpen : string :=
  "<bpmn:conditionExpression " ++ attr "xsi:type" "bpmn:tFormalExpression" ++ " "
    ++ attr "xmlns:xsi" "http://www.w3.org/2001/XMLSchema-instance" ++ ">".

(** The array [lines] of [generateElementXml], one case of the [switch] per
    element type. *)
Definition elementLines (element : BpmnElement.t) (indent : string) : list string :=
  match BpmnElement.type element with
  | startEvent =>
      ([openLine indent "startEvent" element]
       ++ documentationLines indent element
       ++ outgoingLines indent element
       ++ [closeLine indent "startEvent"])%list
  | endEvent =>
      ([openLine indent "endEvent" element]
       ++ documentationLines indent element
       ++ incomingLines indent element
       ++ [closeLine indent "endEvent"])%list
  | intermediateEvent =>
      ([openLine indent "intermediateCatchEvent" element]
       ++ documentationLines indent element
       ++ incomingLines indent element
       ++ outgoingLines indent element
       ++ [closeLine indent "intermediateCatchEvent"])%list
  | task =>
      ([openLine indent "task" element]
       ++ documentationLines indent element
       ++ incomingLines indent element
       ++ outgoingLines indent element
       ++ [closeLine indent "task"])%list
  | exclusiveGateway =>
      ([openLine indent "exclusiveGateway" element]
       ++ documentationLines indent element
       ++ incomingLines indent element
       ++ outgoingLines indent element
       ++ [closeLine indent "exclusiveGateway"])%list
  | sequenceFlow =>
      match BpmnElement.conditionExpression element with
      | Some (String c s) =>
          [(indent ++ "<bpmn:sequenceFlow " ++ flowAttrs element ++ ">")%string;
           (indent ++ "  " ++ conditionExpressionOpen ++ escapeXml (String c s)
              ++ "</bpmn:conditionExpression>")%string;
           (indent ++ "</bpmn:sequenceFlow>")%string]
      | _ => [(indent ++ "<bpmn:sequenceFlow " ++ flowAttrs element ++ " />")%string]
      end
  end.

Definition generateElementXml (element : BpmnElement.t) (indent : string) : string :=
  Js.join Js.nl (elementLines element indent).

Definition waypointLine (indent : string) (wp : Waypoint.t) : string :=
  indent ++ "  <di:waypoint " ++ attr "x" (Js.ofZ (Waypoint.x wp)) ++ " "
    ++ attr "y" (Js.ofZ (Waypoint.y wp)) ++ " />".

Definition diLines (diElement : BpmnDiElement.t) (indent : string) : list string :=
  match BpmnDiElement.waypoints diElement with
  | Some waypoints =>
      ([(indent ++ "<bpmndi:BPMNEdge "
           ++ attr "id" (escapeXml (BpmnDiElement.id diElement)) ++ " "
           ++ attr "bpmnElement" (escapeXml (BpmnDiElement.bpmnElement diElement))
           ++ ">")%string]
       ++ map (waypointLine indent) waypoints
       ++ [(indent ++ "</bpmndi:BPMNEdge>")%string])%list
  | None =>
      [(indent ++ "<bpmndi:BPMNShape "
          ++ attr "id" (escapeXml (BpmnDiElement.id diElement)) ++ " "
          ++ attr "bpmnElement" (escapeXml (BpmnDiElement.bpmnElement diElement))
          ++ ">")%string;
       (indent ++ "  <dc:Bounds "
          ++ attr "x" (Js.ofNumber (BpmnDiElement.x diElement)) ++ " "
          ++ attr "y" (Js.ofNumber (BpmnDiElement.y diElement)) ++ " "
          ++ attr "width" (Js.ofNumber (BpmnDiElement.width diElement)) ++ " "
          ++ attr "height" (Js.ofNumber (BpmnDiElement.height diElement))
          ++ " />")%string;
       (indent ++ "</bpmndi:BPMNShape>")%string]
  end.

Definition generateDiXml (diElement : BpmnDiElement.t) (indent : string) : string :=
  Js.join Js.nl (diLines diElement indent).

(** The array [xml] of [generateBpmnXml]. *)
Definition xmlLines (processId processName : string) (processDescription : option string)
    (elements : list BpmnElement.t) (diElements : list BpmnDiElement.t) : list string :=
  ([("<?xml " ++ attr "version" "1.0" ++ " " ++ attr "encoding" "UTF-8" ++ "?>")%string;
    ("<bpmn:definitions "
       ++ attr "xmlns:bpmn" "http://www.omg.org/spec/BPMN/20100524/MODEL" ++ " "
       ++ attr "xmlns:bpmndi" "http://www.omg.org/spec/BPMN/20100524/DI" ++ " "
       ++ attr "xmlns:dc" "http://www.omg.org/spec/DD/20100524/DC" ++ " "
       ++ attr "xmlns:di" "http://www.omg.org/spec/DD/20100524/DI" ++ " "
       ++ attr "id" "Definitions_1" ++ " "
       ++ attr "targetNamespace" "http://bpmn.io/schema/bpmn" ++ ">")%string;
    ("  <bpmn:process " ++ attr "id" (escapeXml processId) ++ " "
       ++ attr "name" (escapeXml processName) ++ " "
       ++ attr "isExecutable" "true" ++ ">")%string]
   ++ match processDescription with
      | Some (String c s) =>
          [("    <bpmn:documentation>" ++ escapeXml (String c s)
              ++ "</bpmn:documentation>")%string]
      | _ => []
      end
   ++ map (fun element => generateElementXml element "    ") elements
   ++ [ "  </bpmn:process>";
        ("  <bpmndi:BPMNDiagram " ++ attr "id" "BPMNDiagram_1" ++ ">")%string;
        ("    <bpmndi:BPMNPlane " ++ attr "id" "BPMNPlane_1" ++ " "
           ++ attr "bpmnElement" (escapeXml processId) ++ ">")%string ]
   ++ map (fun diElement => generateDiXml diElement "      ") diElements
   ++ [ "    </bpmndi:BPMNPlane>";
        "  </bpmndi:BPMNDiagram>";
        "</bpmn:definitions>" ])%list.

Definition generateBpmnXml (processId processName : string)
    (processDescription : option string)
    (elements : list BpmnElement.t) (diElements : list BpmnDiElement.t) : string :=
  Js.join Js.nl (xmlLines processId processName processDescription elements diElements).

(** ** The entry point *)

Inductive JsError : Type :=
| Error (message : string)
| RangeError (message : string).

(** What a call wrote on the console. *)
Inductive ConsoleEntry : Type :=
| console_warn (message : string)
| console_error (message : string) (error : JsError).

(** How a call ended: with a returned string or with a thrown error. *)
Inductive Completion : Type :=
| Return (xml : string)
| Throw (error : JsError).

Definition invalidPlanDefinition : JsError :=
  Error ("Invalid PlanDefinition: resourceType must be " ++ Js.dq ++ "PlanDefinition" ++ Js.dq).

(** The test of line 63: [planDefinition] is an object whose [resourceType]
    is the string [PlanDefinition]. The argument is an [any]: [None] stands
    for a value with no fields ([null], [undefined], a primitive). *)
Definition validRoot (planDefinition : option FhirPlanDefinition.t)
  : option FhirPlanDefinition.t :=
  match planDefinition with
  | Some pd =>
      match FhirPlanDefinition.resourceType pd with
      | Some ty => if String.eqb ty "PlanDefinition" then Some pd else None
      | None => None
      end
  | None => None
  end.

(** Lines 67 to 85: the graph of a valid document, in the factory the call
    creates, with what the call writes on the console. *)
Definition buildGraph (planDefinition : FhirPlanDefinition.t)
  : BpmnFactory.t * list ConsoleEntry :=
  let factory := BpmnFactory.new in
  let '(startEventId, factory) := BpmnFactory.createStartEvent factory in
  let lastElementId := startEventId in
  let '(factory, lastElementId, log) :=
    match nonEmpty (FhirPlanDefinition.action planDefinition) with
    | Some action =>
        let '(factory, lastElementId) := processActions factory action lastElementId in
        (factory, lastElementId, [])
    | None => (factory, lastElementId, [console_warn "PlanDefinition has no actions"])
    end in
  let '(endEventId, factory) := BpmnFactory.createEndEvent "temp_incoming" factory in
  let '(_, factory) :=
    BpmnFactory.createSequenceFlow lastElementId endEventId None None factory in
  (factory, log).

(** The outcome of one call: how it ended, the console after it, and the
    factory the call created, if it reached line 67. *)
Record Run : Type := mkRun {
  completion : Completion;
  console : list ConsoleEntry;
  factory : option BpmnFactory.t
}.

Definition convertPlanDefinitionToBpmn (planDefinition : option FhirPlanDefinition.t)
    (console0 : list ConsoleEntry) : Run :=
  match validRoot planDefinition with
  | None =>
      (* thrown at line 64, logged and thrown again by the catch clause *)
      mkRun (Throw invalidPlanDefinition)
        (console0
           ++ [console_error "Error converting PlanDefinition to BPMN:"
                 invalidPlanDefinition])%list
        None
  | Some pd =>
      let processId := Js.orStr (FhirPlanDefinition.id pd) "Process_1" in
      let processName := Js.orStr (FhirPlanDefinition.title pd) "PlanDefinition Process" in
      let processDescription := FhirPlanDefinition.description pd in
      let '(factory, log) := buildGraph pd in
      mkRun
        (Return (generateBpmnXml processId processName processDescription
                   (BpmnFactory.elements factory) (BpmnFactory.diElements factory)))
        (console0 ++ log)%list
        (Some factory)
  end.

(** ** The call stack *)

(** [processActions] is the one function of the source that calls itself:
    once for each level of nesting of the actions (lines 153 and 166). The
    engine holds a bounded number of activations and throws a [RangeError] at
    the call that does not fit; nothing catches it before the catch clause of
    [convertPlanDefinitionToBpmn], which logs it and throws it again. The
    definitions above are those of an engine whose stack is never full, and
    give what the call returns when it returns. The definitions below count
    the stack: [stack] is the number of activations of [processActions] that
    still fit when the function is called. *)
Definition stackOverflow : JsError := RangeError "Maximum call stack size exceeded".

(** How a call of [processActions] ends. *)
Inductive Walked : Type :=
| Returned (w : Walk)
| Thrown (error : JsError).

(** The loop of [processActions]; [call] is the call of [processActions] on
    the nested actions, with the stack that is left for it. *)
Fixpoint forActions (call : BpmnFactory.t -> list FhirAction.t -> string -> Walked)
    (actions : list FhirAction.t) (i : nat) (w : Walk) : Walked :=
  match actions with
  | [] => Returned w
  | action :: actions =>
      let w := triggerStep action w in
      let '(factory, lastElementId) := taskStep action i w in
      match nonEmpty (FhirAction.action action) with
      | Some nested =>
          match call factory nested lastElementId with
          | Returned w => forActions call actions (S i) w
          | Thrown error => Thrown error
          end
      | None => forActions call actions (S i) (factory, lastElementId)
      end
  end.

Fixpoint processActionsWithin (stack : nat) (factory : BpmnFactory.t)
    (actions : list FhirAction.t) (previousElementId : string) {struct stack} : Walked :=
  match stack with
  | 0 => Thrown stackOverflow
  | S stack =>
      forActions (processActionsWithin stack) actions 0 (factory, previousElementId)
  end.

(** The call, on a stack with room for [stack] activations of
    [processActions]: how it ends and the console after it. *)
Definition convertPlanDefinitionToBpmnWithin (stack : nat)
    (planDefinition : option FhirPlanDefinition.t) (console0 : list ConsoleEntry)
  : Completion * list ConsoleEntry :=
  match validRoot planDefinition with
  | None =>
      (Throw invalidPlanDefinition,
       (console0
          ++ [console_error "Error converting PlanDefinition to BPMN:"
                invalidPlanDefinition])%list)
  | Some pd =>
      let factory := BpmnFactory.new in
      let processId := Js.orStr (FhirPlanDefinition.id pd) "Process_1" in
      let processName := Js.orStr (FhirPlanDefinition.title pd) "PlanDefinition Process" in
      let processDescription := FhirPlanDefinition.description pd in
      let '(startEventId, factory) := BpmnFactory.createStartEvent factory in
      let walked :=
        match nonEmpty (FhirPlanDefinition.action pd) with
        | Some action =>
            match processActionsWithin stack factory action startEventId with
            | Returned (factory, lastElementId) => inl (factory, lastElementId, [])
            | Thrown error => inr error
            end
        | None =>
            inl (factory, startEventId, [console_warn "PlanDefinition has no actions"])
        end in
      match walked with
      | inl (factory, lastElementId, log) =>
          let '(endEventId, factory) :=
            BpmnFactory.createEndEvent "temp_incoming" factory in
          let '(_, factory) :=
            BpmnFactory.createSequenceFlow lastElementId endEventId None None factory in
          (Return (generateBpmnXml processId processName processDescription
                     (BpmnFactory.elements factory) (BpmnFactory.diElements factory)),
           (console0 ++ log)%list)
      | inr error =>
          (* caught at line 90, logged and thrown again *)
          (Throw error,
           (console0 ++ [console_error "Error converting PlanDefinition to BPMN:" error])%list)
      end
  end.

(** ** Sample documents *)

(** The document of [testConverter]. *)
Definition samplePlanDefinition : FhirPlanDefinition.t :=
  let act id title description condition action :=
    FhirAction.mk (Some id) (Some title) description None None None condition None None
      None action in
  FhirPlanDefinition.mk (Some "PlanDefinition") (Some "example-plan")
    (Some "Patient Care Pathway") None
    (Some
       [ act "action-1" "Initial Assessment" (Some "Perform initial patient assessment")
           None None;
         act "action-2" "Check Eligibility" None
           (Some [FhirCondition.mk (Some "applicability")
                    (Some (FhirExpression.mk None (Some "patient.age >= 18")))])
           (Some [act "action-2-1" "Adult Treatment Protocol" None None None]);
         act "action-3" "Follow-up Appointment" (Some "Schedule follow-up") None None ]).

(** The document [{ resourceType: 'Patient' }]. *)
Definition patientDocument : FhirPlanDefinition.t :=
  FhirPlanDefinition.mk (Some "Patient") None None None None.

(** The document [{ resourceType: 'PlanDefinition', action: [] }]. *)
Definition emptyPlanDefinition : FhirPlanDefinition.t :=
  FhirPlanDefinition.mk (Some "PlanDefinition") None None None (Some []).

(** ** Vocabulary of the statements *)

(** The root of the input is invalid: the value is not an object, or its
    [resourceType] is missing or is not [PlanDefinition]. *)
Definition invalidRoot (planDefinition : option FhirPlanDefinition.t) : Prop :=
  match planDefinition with
  | Some pd => FhirPlanDefinition.resourceType pd <> Some "PlanDefinition"
  | None => True
  end.

(** The action list of the document is absent or empty. *)
Definition noActions (pd : FhirPlanDefinition.t) : Prop :=
  FhirPlanDefinition.action pd = None \/ FhirPlanDefinition.action pd = Some [].

(** Two elements that differ at most by their [incoming] and [outgoing]
    lists, the only fields [createSequenceFlow] mutates. *)
Definition sameCore (e e' : BpmnElement.t) : Prop :=
  BpmnElement.id e' = BpmnElement.id e
  /\ BpmnElement.type e' = BpmnElement.type e
  /\ BpmnElement.name e' = BpmnElement.name e
  /\ BpmnElement.documentation e' = BpmnElement.documentation e
  /\ BpmnElement.sourceRef e' = BpmnElement.sourceRef e
  /\ BpmnElement.targetRef e' = BpmnElement.targetRef e
  /\ BpmnElement.conditionExpression e' = BpmnElement.conditionExpression e
  /\ BpmnElement.default e' = BpmnElement.default e.

(** The number of elements of a type in the factory. *)
Definition countType (ty : ElementType) (f : BpmnFactory.t) : nat :=
  List.length (BpmnFactory.getElementsByType ty f).

(** ** The objects the factory pushes *)

(** The flow object [createSequenceFlow] pushes, before the two updates. *)
Definition flowElement (id sourceId targetId : string)
    (conditionExpression name : option string) : BpmnElement.t :=
  BpmnElement.mk id sequenceFlow (if Js.truthy name then name else None) None None None
    (Some sourceId) (Some targetId)
    (if Js.truthy conditionExpression then conditionExpression else None) None.

(** The edge [createSequenceFlow] registers when both shapes are found. *)
Definition edgeElement (id : string) (sourceShape targetShape : BpmnDiElement.t)
  : BpmnDiElement.t :=
  BpmnDiElement.mk (id ++ "_di") id None None None None
    (Some (BpmnFactory.edgeWaypoints sourceShape targetShape)).

Definition nextFlowId (f : BpmnFactory.t) : string :=
  "Flow_" ++ Js.ofNat (S (BpmnFactory.flowCounter f)).

Definition nextId (prefix : string) (f : BpmnFactory.t) : string :=
  prefix ++ "_" ++ Js.ofNat (S (BpmnFactory.elementCounter f)).

(** The node object and the shape a creator pushes. *)
Definition nodeElement (id : string) (ty : ElementType) (name : string)
    (documentation : option string) (incoming outgoing : option (list string))
  : BpmnElement.t :=
  BpmnElement.mk id ty (Some name) documentation incoming outgoing None None None None.

(** The state of the factory after a creator pushed the node [e] with a shape
    of width [w] and height [h]. *)
Definition afterNode (e : BpmnElement.t) (w h : Z) (f : BpmnFactory.t) : BpmnFactory.t :=
  BpmnFactory.mk (BpmnFactory.elements f ++ [e])%list
    (BpmnFactory.diElements f
     ++ [BpmnDiElement.mk (BpmnElement.id e ++ "_di") (BpmnElement.id e)
           (Some (BpmnFactory.currentX f))
           (Some (BpmnFactory.currentY f - h / 2)%Z) (Some w) (Some h) None])%list
    (S (BpmnFactory.elementCounter f)) (BpmnFactory.flowCounter f)
    (BpmnFactory.currentX f + (w + BpmnFactory.HORIZONTAL_SPACING))%Z
    (BpmnFactory.currentY f).

(** The elements of [f'] are those of [f] followed by [created], up to the
    [incoming] and [outgoing] lists. *)
Definition grownBy (f : BpmnFactory.t) (created : list BpmnElement.t)
    (f' : BpmnFactory.t) : Prop :=
  Forall2 sameCore (BpmnFactory.elements f ++ created)%list (BpmnFactory.elements f').

(** The name of the event of a trigger list, and the names of the gateway
    and of the task of an action. *)
Definition triggerEventName (trigger : list FhirTrigger.t) : string :=
  "Trigger: " ++ Js.join ", " (Js.filterBoolean (map triggerName trigger)).

Definition decisionName (condition : FhirCondition.t) : string :=
  "Decision: "
    ++ Js.orStr (expressionOf (FhirCondition.expression condition)) "Check Condition".

Definition actionName (action : FhirAction.t) (i : nat) : string :=
  Js.orStr (Js.or (FhirAction.title action) (FhirAction.description action))
    ("Action " ++ Js.ofNat (i + 1)).

(** The factory in which the walker meets the first action of a document. *)
Definition afterStart : BpmnFactory.t := snd (BpmnFactory.createStartEvent BpmnFactory.new).

(** The second action of the sample document, with its condition. *)
Definition adultCondition : FhirCondition.t :=
  FhirCondition.mk (Some "applicability")
    (Some (FhirExpression.mk None (Some "patient.age >= 18"))).

Definition eligibilityAction : FhirAction.t :=
  FhirAction.mk (Some "action-2") (Some "Check Eligibility") None None None None
    (Some [adultCondition]) None None None None.

(** *** Escaping, as the specification words it *)

(** The entity of a reserved character; any other character stands for
    itself. *)
Definition entity (c : ascii) : string :=
  if Ascii.eqb c "&" then "&amp;"
  else if Ascii.eqb c "<" then "&lt;"
  else if Ascii.eqb c ">" then "&gt;"
  else if Ascii.eqb c "034" then "&quot;"
  else if Ascii.eqb c "'" then "&apos;"
  else String c EmptyString.

(** Every character replaced by its entity, in one pass. *)
Fixpoint escapeChars (s : string) : string :=
  match s with
  | EmptyString => EmptyString
  | String c r => entity c ++ escapeChars r
  end.

(** The characters that delimit tags and attribute values. *)
Definition isMarkup (c : ascii) : bool :=
  Ascii.eqb c "<" || Ascii.eqb c ">" || Ascii.eqb c "034" || Ascii.eqb c "'".

(** The markup characters of a text, in order. *)
Fixpoint markupOf (s : string) : string :=
  match s with
  | EmptyString => EmptyString
  | String c r => if isMarkup c then String c (markupOf r) else markupOf r
  end.

Definition lengthOpt {A : Type} (o : option (list A)) : option nat :=
  match o with
  | Some l => Some (List.length l)
  | None => None
  end.

(** Two elements of the same shape: the same type, the same number of
    references, and the same optional parts present; their strings are
    unrelated. *)
Definition sameShape (e e' : BpmnElement.t) : Prop :=
  BpmnElement.type e = BpmnElement.type e'
  /\ Js.truthy (BpmnElement.name e) = Js.truthy (BpmnElement.name e')
  /\ Js.truthy (BpmnElement.documentation e) = Js.truthy (BpmnElement.documentation e')
  /\ Js.truthy (BpmnElement.conditionExpression e)
     = Js.truthy (BpmnElement.conditionExpression e')
  /\ lengthOpt (BpmnElement.incoming e) = lengthOpt (BpmnElement.incoming e')
  /\ lengthOpt (BpmnElement.outgoing e) = lengthOpt (BpmnElement.outgoing e').

Definition sameDiShape (d d' : BpmnDiElement.t) : Prop :=
  lengthOpt (BpmnDiElement.waypoints d) = lengthOpt (BpmnDiElement.waypoints d').

(** The document whose only action is titled [A & B <test>]. *)
Definition ampersandPlan : FhirPlanDefinition.t :=
  FhirPlanDefinition.mk (Some "PlanDefinition") None None None
    (Some [FhirAction.mk None (Some "A & B <test>") None None None None None None None
             None None]).

(** The concatenation of a list of texts. *)
Definition flatten (l : list string) : string := fold_right append EmptyString l.

(** The action [{ type: { coding: [{ system: 'http://snomed.info/sct' }] } }]:
    one coding, with neither a display nor a code. *)
Definition systemOnlyCoding : FhirCoding.t :=
  FhirCoding.mk (Some "http://snomed.info/sct") None None.

Definition systemOnlyAction : FhirAction.t :=
  FhirAction.mk None None None None None None None None
    (Some (FhirType.mk (Some [systemOnlyCoding]))) None None.

(** The five replacements in the order of the source, without the test on
    the empty string. *)
Definition replaceChain (text : string) : string :=
  Js.replaceAll "'"%char "&apos;"
    (Js.replaceAll "034"%char "&quot;"
       (Js.replaceAll ">"%char "&gt;"
          (Js.replaceAll "<"%char "&lt;"
             (Js.replaceAll "&"%char "&amp;" text)))).

(** *** The linkage between flows and nodes *)

(** The prefix [generateId] and [generateFlowId] are called with, for each
    type of element. *)
Definition prefixOf (ty : ElementType) : string :=
  match ty with
  | startEvent => "StartEvent"
  | endEvent => "EndEvent"
  | intermediateEvent => "IntermediateEvent"
  | task => "Task"
  | exclusiveGateway => "Gateway"
  | sequenceFlow => "Flow"
  end.

(** The identifier number [k] of an element of type [ty]. *)
Definition idOf (ty : ElementType) (k : nat) : string :=
  prefixOf ty ++ "_" ++ Js.ofNat k.

(** The counter the identifiers of a type are drawn from. *)
Definition counterFor (ty : ElementType) (f : BpmnFactory.t) : nat :=
  match ty with
  | sequenceFlow => BpmnFactory.flowCounter f
  | _ => BpmnFactory.elementCounter f
  end.

Definition wellNamed (f : BpmnFactory.t) (e : BpmnElement.t) : Prop :=
  exists k, BpmnElement.id e = idOf (BpmnElement.type e) k
            /\ k <= counterFor (BpmnElement.type e) f.

Definition listOf {A : Type} (o : option (list A)) : list A :=
  match o with
  | Some l => l
  | None => []
  end.

Definition isFlow (e : BpmnElement.t) : bool :=
  ElementType_eqb (BpmnElement.type e) sequenceFlow.

Definition refIs (o : option string) (s : string) : bool :=
  match o with
  | Some x => String.eqb x s
  | None => false
  end.

(** The flows that leave, and that reach, the node [s]. *)
Definition flowFrom (s : string) (e : BpmnElement.t) : bool :=
  isFlow e && refIs (BpmnElement.sourceRef e) s.

Definition flowTo (s : string) (e : BpmnElement.t) : bool :=
  isFlow e && refIs (BpmnElement.targetRef e) s.

(** [s] is the identifier of a node of the graph. *)
Definition hasNode (f : BpmnFactory.t) (s : string) : Prop :=
  exists n, In n (BpmnFactory.elements f) /\ BpmnElement.id n = s /\ isFlow n = false.

(** What the walker seeds the [incoming] list of a node with. *)
Definition seedOf (ty : ElementType) : list string :=
  match ty with
  | startEvent => []
  | _ => ["temp_incoming"]
  end.

(** The invariant of the graphs the walker builds: identifiers are drawn
    from the counters and are pairwise distinct, a flow joins two nodes of the
    graph, the [outgoing] list of a node is the list of the flows that leave
    it, and its [incoming] list is its seed followed by the flows that reach
    it. *)
Record Linked (f : BpmnFactory.t) : Prop := mkLinked {
  linked_named : Forall (wellNamed f) (BpmnFactory.elements f);
  linked_nodup : NoDup (map BpmnElement.id (BpmnFactory.elements f));
  linked_refs :
    forall fl, In fl (BpmnFactory.elements f) -> isFlow fl = true ->
      exists s t, BpmnElement.sourceRef fl = Some s /\ BpmnElement.targetRef fl = Some t
                  /\ hasNode f s /\ hasNode f t;
  linked_out :
    forall n, In n (BpmnFactory.elements f) -> isFlow n = false ->
      listOf (BpmnElement.outgoing n)
      = map BpmnElement.id (filter (flowFrom (BpmnElement.id n)) (BpmnFactory.elements f));
  linked_in :
    forall n, In n (BpmnFactory.elements f) -> isFlow n = false ->
      listOf (BpmnElement.incoming n)
      = (seedOf (BpmnElement.type n)
         ++ map BpmnElement.id
              (filter (flowTo (BpmnElement.id n)) (BpmnFactory.elements f)))%list
}.

(** What [createSequenceFlow] does to an element when it links the flow
    [fid] from [s] to [t]. *)
Definition link (fid s t : string) (e : BpmnElement.t) : BpmnElement.t :=
  let e := if BpmnElement.hasId s e then BpmnElement.pushOutgoing fid e else e in
  if BpmnElement.hasId t e then BpmnElement.pushIncoming fid e else e.

(** *** The graphs of the walker *)

(** The size of the shape of a node, by type. *)
Definition widthOf (ty : ElementType) : Z :=
  match ty with
  | task => BpmnFactory.TASK_WIDTH
  | exclusiveGateway => BpmnFactory.GATEWAY_SIZE
  | _ => BpmnFactory.EVENT_SIZE
  end.

Definition heightOf (ty : ElementType) : Z :=
  match ty with
  | task => BpmnFactory.TASK_HEIGHT
  | exclusiveGateway => BpmnFactory.GATEWAY_SIZE
  | _ => BpmnFactory.EVENT_SIZE
  end.

(** The start event, as [createStartEvent] pushes it in a new factory. *)
Definition startElement : BpmnElement.t :=
  BpmnElement.mk "StartEvent_1" startEvent (Some "Start") None None (Some []) None None
    None None.

(** A node the walker may push in the factory [f]: any node but a start
    event, named from the counter, with no outgoing flow and the placeholder
    as only incoming flow. *)
Definition chainNode (f : BpmnFactory.t) (e : BpmnElement.t) : Prop :=
  isFlow e = false
  /\ BpmnElement.type e <> startEvent
  /\ BpmnElement.id e = idOf (BpmnElement.type e) (S (BpmnFactory.elementCounter f))
  /\ listOf (BpmnElement.outgoing e) = []
  /\ BpmnElement.incoming e = Some ["temp_incoming"].

(** The states of the factory the walker goes through, with its frontier:
    from the start event, each step pushes one node with its shape and one
    flow from the frontier to it, and moves the frontier to the node. *)
Inductive Chain : BpmnFactory.t -> string -> Prop :=
| Chain_start :
    Chain (afterNode startElement BpmnFactory.EVENT_SIZE BpmnFactory.EVENT_SIZE
             BpmnFactory.new)
      "StartEvent_1"
| Chain_step f last e ce nm :
    Chain f last ->
    chainNode f e ->
    Chain (snd (BpmnFactory.createSequenceFlow last (BpmnElement.id e) ce nm
                  (afterNode e (widthOf (BpmnElement.type e))
                     (heightOf (BpmnElement.type e)) f)))
      (BpmnElement.id e).

(** *** The layout, as the specification words it *)

(** The shape of the node [id] of type [ty] placed at the abscissa [x]:
    centred on the line 150. *)
Definition shapeOf (id : string) (ty : ElementType) (x : Z) : BpmnDiElement.t :=
  BpmnDiElement.mk (id ++ "_di") id (Some x) (Some (150 - heightOf ty / 2)%Z)
    (Some (widthOf ty)) (Some (heightOf ty)) None.

(** The shapes of a list of nodes laid out from the abscissa [x]: each node
    at the cursor, which then moves by the width of the node and the
    spacing. *)
Fixpoint layoutFrom (x : Z) (nodes : list BpmnElement.t) : list BpmnDiElement.t :=
  match nodes with
  | [] => []
  | n :: r =>
      shapeOf (BpmnElement.id n) (BpmnElement.type n) x
        :: layoutFrom (x + (widthOf (BpmnElement.type n) + BpmnFactory.HORIZONTAL_SPACING))%Z r
  end.

(** The cursor after these nodes. *)
Fixpoint cursorAfter (x : Z) (nodes : list BpmnElement.t) : Z :=
  match nodes with
  | [] => x
  | n :: r =>
      cursorAfter (x + (widthOf (BpmnElement.type n) + BpmnFactory.HORIZONTAL_SPACING))%Z r
  end.

Definition nodesOf (l : list BpmnElement.t) : list BpmnElement.t :=
  filter (fun e => negb (isFlow e)) l.

Definition isShape (d : BpmnDiElement.t) : bool :=
  match BpmnDiElement.waypoints d with
  | None => true
  | Some _ => false
  end.

Definition shapesOf (l : list BpmnDiElement.t) : list BpmnDiElement.t :=
  filter isShape l.

(** The invariant of the layout: the shapes are those of the nodes, laid
    out from 100 in creation order; the cursor is after them; every node has
    its shape and every flow its edge between the shapes of its two ends. *)
Record LaidOut (f : BpmnFactory.t) : Prop := mkLaidOut {
  laid_y : BpmnFactory.currentY f = 150%Z;
  laid_x : BpmnFactory.currentX f = cursorAfter 100 (nodesOf (BpmnFactory.elements f));
  laid_shapes :
    shapesOf (BpmnFactory.diElements f) = layoutFrom 100 (nodesOf (BpmnFactory.elements f));
  laid_ids :
    forall d, In d (BpmnFactory.diElements f) ->
      In (BpmnDiElement.bpmnElement d) (map BpmnElement.id (BpmnFactory.elements f));
  laid_node :
    forall n, In n (BpmnFactory.elements f) -> isFlow n = false ->
      exists x, BpmnFactory.getDiElement (BpmnElement.id n) f
                = Some (shapeOf (BpmnElement.id n) (BpmnElement.type n) x);
  laid_edge :
    forall fl, In fl (BpmnFactory.elements f) -> isFlow fl = true ->
      exists s t ss ts,
        BpmnElement.sourceRef fl = Some s /\ BpmnElement.targetRef fl = Some t
        /\ BpmnFactory.getDiElement s f = Some ss
        /\ BpmnFactory.getDiElement t f = Some ts
        /\ BpmnFactory.getDiElement (BpmnElement.id fl) f
           = Some (edgeElement (BpmnElement.id fl) ss ts)
}.

(** The middle of the right side and of the left side of a shape. *)
Definition rightMiddle (d : BpmnDiElement.t) : Waypoint.t :=
  Waypoint.mk (Js.orZero (BpmnDiElement.x d) + Js.orZero (BpmnDiElement.width d))%Z
    (Js.orZero (BpmnDiElement.y d) + Js.orZero (BpmnDiElement.height d) / 2)%Z.

Definition leftMiddle (d : BpmnDiElement.t) : Waypoint.t :=
  Waypoint.mk (Js.orZero (BpmnDiElement.x d))
    (Js.orZero (BpmnDiElement.y d) + Js.orZero (BpmnDiElement.height d) / 2)%Z.

(** A line made of a label, a colon, a space and a value that is not
    empty. *)
Definition labelled (line : string) : Prop :=
  exists label value, line = (label ++ ": " ++ value)%string /\ value <> EmptyString.

(** The text [r] starts with the name of one of the five entities. *)
Definition startsEntity (r : string) : bool :=
  String.prefix "amp;" r || String.prefix "lt;" r || String.prefix "gt;" r
  || String.prefix "quot;" r || String.prefix "apos;" r.

(** Every ampersand of the text starts an entity. *)
Fixpoint ampersandsEscaped (s : string) : bool :=
  match s with
  | EmptyString => true
  | String c r => (if Ascii.eqb c "&" then startsEntity r else true) && ampersandsEscaped r
  end.

(** ** Vocabulary of the further properties *)

(** The action has a non-empty trigger list, a non-empty condition list. *)
Definition hasTrigger (action : FhirAction.t) : bool :=
  match nonEmpty (FhirAction.trigger action) with
  | Some _ => true
  | None => false
  end.

Definition hasCondition (action : FhirAction.t) : bool :=
  match nonEmpty (FhirAction.condition action) with
  | Some _ => true
  | None => false
  end.

(** The types of the elements an action stands for, in order: those of
    its own event, gateway and task with their flows, then those of its nested
    actions. *)
Fixpoint kindsOf (action : FhirAction.t) : list ElementType :=
  ((if hasTrigger action then [intermediateEvent; sequenceFlow] else [])
   ++ (if hasCondition action
       then [exclusiveGateway; sequenceFlow; task; sequenceFlow]
       else [task; sequenceFlow])
   ++ match FhirAction.action action with
      | Some l =>
          (fix kinds (l : list FhirAction.t) : list ElementType :=
             match l with
             | [] => []
             | a :: r => kindsOf a ++ kinds r
             end) l
      | None => []
      end)%list.

Fixpoint kindsOfList (actions : list FhirAction.t) : list ElementType :=
  match actions with
  | [] => []
  | a :: r => (kindsOf a ++ kindsOfList r)%list
  end.

(** The number of actions of a tree, nested ones included, that satisfy
    [p]. *)
Fixpoint countActions (p : FhirAction.t -> bool) (action : FhirAction.t) : nat :=
  (if p action then 1 else 0)
  + match FhirAction.action action with
    | Some l =>
        (fix count (l : list FhirAction.t) : nat :=
           match l with
           | [] => 0
           | a :: r => countActions p a + count r
           end) l
    | None => 0
    end.

Fixpoint countActionsList (p : FhirAction.t -> bool) (actions : list FhirAction.t) : nat :=
  match actions with
  | [] => 0
  | a :: r => countActions p a + countActionsList p r
  end.

(** The number of occurrences of a type in a list of types. *)
Definition countKind (ty : ElementType) (l : list ElementType) : nat :=
  List.length (filter (fun k => ElementType_eqb k ty) l).

(** The nodes of [f] form a path that ends on [last]: no flow leaves
    [last] and one flow leaves every other node; no flow reaches the start
    event and one flow, listed after the placeholder, reaches every other
    node. *)
Definition PathTo (f : BpmnFactory.t) (last : string) : Prop :=
  forall n, In n (BpmnFactory.elements f) -> isFlow n = false ->
    (if String.eqb (BpmnElement.id n) last
     then listOf (BpmnElement.outgoing n) = []
     else exists fid, listOf (BpmnElement.outgoing n) = [fid])
    /\ match BpmnElement.type n with
       | startEvent => listOf (BpmnElement.incoming n) = []
       | _ => exists fid, listOf (BpmnElement.incoming n) = ["temp_incoming"; fid]
       end.

(** The DI entry [d] is the one of the element [e]: for a node, its shape,
    with its four bounds; for a flow, an edge with two waypoints taken from
    two DI entries. *)
Definition diFor (e : BpmnElement.t) (d : BpmnDiElement.t) : Prop :=
  if isFlow e
  then exists ss ts, d = edgeElement (BpmnElement.id e) ss ts
  else exists x, d = shapeOf (BpmnElement.id e) (BpmnElement.type e) x.

(** What one round of the loop does for the action itself, before it
    turns to the nested actions: the action comes with its index. *)
Definition ownStep (w : Walk) (ai : FhirAction.t * nat) : Walk :=
  taskStep (fst ai) (snd ai) (triggerStep (fst ai) w).

(** The actions of a tree in the order the walker meets them, a parent
    before its nested actions, each with its index among its siblings. *)
Fixpoint flattenAction (action : FhirAction.t) (i : nat) : list (FhirAction.t * nat) :=
  (action, i)
    :: match FhirAction.action action with
       | Some l =>
           (fix flatten (l : list FhirAction.t) (i : nat) : list (FhirAction.t * nat) :=
              match l with
              | [] => []
              | a :: r => (flattenAction a i ++ flatten r (S i))%list
              end) l 0
       | None => []
       end.

Fixpoint flattenFrom (actions : list FhirAction.t) (i : nat) : list (FhirAction.t * nat) :=
  match actions with
  | [] => []
  | a :: r => (flattenAction a i ++ flattenFrom r (S i))%list
  end.

(** The type, the name and the documentation of an element. *)
Definition labelOf (e : BpmnElement.t) : ElementType * option string * option string :=
  (BpmnElement.type e, BpmnElement.name e, BpmnElement.documentation e).

(** The labels of the elements one action stands for by itself, in order. *)
Definition ownLabels (ai : FhirAction.t * nat)
  : list (ElementType * option string * option string) :=
  let action := fst ai in
  let documentation := Some (buildActionDocumentation action) in
  (match nonEmpty (FhirAction.trigger action) with
   | Some trigger =>
       [(intermediateEvent, Some (triggerEventName trigger), documentation);
        (sequenceFlow, None, None)]
   | None => []
   end
   ++ match nonEmpty (FhirAction.condition action) with
      | Some condition =>
          [(exclusiveGateway, Some (decisionName (hd (FhirCondition.mk None None) condition)),
            None);
           (sequenceFlow, None, None);
           (task, Some (actionName action (snd ai)), documentation);
           (sequenceFlow, Some "Yes", None)]
      | None =>
          [(task, Some (actionName action (snd ai)), documentation);
           (sequenceFlow, None, None)]
      end)%list.

Definition isTaskLabel (l : ElementType * option string * option string) : bool :=
  ElementType_eqb (fst (fst l)) task.

(** The element [e'] is [e] with flows added at the end of its lists. *)
Definition extendsEl (e e' : BpmnElement.t) : Prop :=
  sameCore e e'
  /\ (exists more, listOf (BpmnElement.incoming e')
                   = (listOf (BpmnElement.incoming e) ++ more)%list)
  /\ (exists more, listOf (BpmnElement.outgoing e')
                   = (listOf (BpmnElement.outgoing e) ++ more)%list).

(** The state [f'] comes from [f] by additions only: the elements of [f]
    are still there, at the same place, with flows added to their lists,
    before the new elements; the DI entries of [f] are unchanged, before the
    new entries; the counters and the cursor did not go back, and the centre
    line did not move. *)
Definition Extends (f f' : BpmnFactory.t) : Prop :=
  (exists old' created,
      BpmnFactory.elements f' = (old' ++ created)%list
      /\ Forall2 extendsEl (BpmnFactory.elements f) old')
  /\ (exists more, BpmnFactory.diElements f' = (BpmnFactory.diElements f ++ more)%list)
  /\ BpmnFactory.elementCounter f <= BpmnFactory.elementCounter f'
  /\ BpmnFactory.flowCounter f <= BpmnFactory.flowCounter f'
  /\ (BpmnFactory.currentX f <= BpmnFactory.currentX f')%Z
  /\ BpmnFactory.currentY f' = BpmnFactory.currentY f.

(** The numbers of nodes of each type among the elements of an action. *)
Definition kindCounts (l : list ElementType) (tasks gateways events : nat) : Prop :=
  countKind startEvent l = 0
  /\ countKind endEvent l = 0
  /\ countKind task l = tasks
  /\ countKind exclusiveGateway l = gateways
  /\ countKind intermediateEvent l = events
  /\ countKind sequenceFlow l = tasks + gateways + events.

(** The five characters that [escapeXml] replaces. *)
Definition isReserved (c : ascii) : bool := Ascii.eqb c "&" || isMarkup c.

(** The text holds none of the five characters. *)
Fixpoint noReserved (s : string) : bool :=
  match s with
  | EmptyString => true
  | String c r => negb (isReserved c) && noReserved r
  end.

(** The number of lines of the documentation of an action: one for each of
    the description, the text equivalent, the type and the triggers that is
    there, one for each condition and each dynamic value, and one for each
    documentation entry that has a display. *)
Definition lineCount (action : FhirAction.t) : nat :=
  Nat.b2n (Js.truthy (FhirAction.description action))
  + Nat.b2n (Js.truthy (FhirAction.textEquivalent action))
  + match nonEmpty (codingsOf (FhirAction.type action)) with Some _ => 1 | None => 0 end
  + Nat.b2n (hasTrigger action)
  + List.length (listOf (FhirAction.condition action))
  + List.length (listOf (FhirAction.dynamicValue action))
  + List.length (filter (fun d => Js.truthy (FhirDocumentation.display d))
                   (listOf (FhirAction.documentation action))).

Definition flowsOf (l : list BpmnElement.t) : list BpmnElement.t := filter isFlow l.

(** The two ends of a flow. *)
Definition endsOf (fl : BpmnElement.t) : option string * option string :=
  (BpmnElement.sourceRef fl, BpmnElement.targetRef fl).

(** The identifiers of elements of these types that are numbered from [k]
    on. *)
Fixpoint numberedFrom (k : nat) (tys : list ElementType) : list string :=
  match tys with
  | [] => []
  | ty :: r => idOf ty k :: numberedFrom (S k) r
  end.

(** The steps of a walk through these identifiers: from each one to the
    next. *)
Fixpoint steps (l : list string) : list (option string * option string) :=
  match l with
  | [] => []
  | x :: r =>
      match r with
      | [] => []
      | y :: _ => (Some x, Some y) :: steps r
      end
  end.

(** The nodes and the flows are numbered in creation order, each kind from
    its own counter; the flows go from each node to the next one; and the
    frontier is the last node. *)
Definition Ordered (f : BpmnFactory.t) (last : string) : Prop :=
  let nodes := nodesOf (BpmnFactory.elements f) in
  let flows := flowsOf (BpmnFactory.elements f) in
  map BpmnElement.id nodes = numberedFrom 1 (map BpmnElement.type nodes)
  /\ map BpmnElement.id flows = numberedFrom 1 (map BpmnElement.type flows)
  /\ map endsOf flows = steps (map BpmnElement.id nodes)
  /\ BpmnFactory.elementCounter f = List.length nodes
  /\ BpmnFactory.flowCounter f = List.length flows
  /\ List.length nodes = S (List.length flows)
  /\ List.last (map BpmnElement.id nodes) EmptyString = last.

(** The shape of the frontier is the last one before the cursor: the
    cursor is at its right side plus the spacing. *)
Definition Frontier (f : BpmnFactory.t) (last : string) : Prop :=
  exists ty x,
    BpmnFactory.getDiElement last f = Some (shapeOf last ty x)
    /\ (x + widthOf ty + BpmnFactory.HORIZONTAL_SPACING = BpmnFactory.currentX f)%Z.

(** Every edge of the list is a segment of the line 150, from left to
    right, as long as the spacing. *)
Definition Level (dis : list BpmnDiElement.t) : Prop :=
  forall d wps, In d dis -> BpmnDiElement.waypoints d = Some wps ->
    exists x, wps = [Waypoint.mk x 150; Waypoint.mk (x + BpmnFactory.HORIZONTAL_SPACING) 150].

(** The flow leaves an exclusive gateway of the list. *)
Definition fromGateway (els : list BpmnElement.t) (fl : BpmnElement.t) : Prop :=
  exists g, In g els /\ BpmnElement.type g = exclusiveGateway
            /\ BpmnElement.sourceRef fl = Some (BpmnElement.id g).

(** The reference is the identifier of a gateway. *)
Definition gatewayId (s : option string) : Prop :=
  exists k, s = Some (idOf exclusiveGateway k).

(** No element has a default flow; a flow out of a gateway is named [Yes];
    any other flow has no name and no condition; and no condition is the
    empty text. *)
Definition Conditioned (f : BpmnFactory.t) : Prop :=
  (forall e, In e (BpmnFactory.elements f) -> BpmnElement.default e = None)
  /\ forall fl, In fl (BpmnFactory.elements f) -> isFlow fl = true ->
       BpmnElement.conditionExpression fl <> Some EmptyString
       /\ ((gatewayId (BpmnElement.sourceRef fl) /\ BpmnElement.name fl = Some "Yes")
           \/ (~ gatewayId (BpmnElement.sourceRef fl)
               /\ BpmnElement.name fl = None
               /\ BpmnElement.conditionExpression fl = None)).

(** What the walker tests on an action: whether it has triggers and whether
    it has conditions. *)
Definition skeletonOf (ai : FhirAction.t * nat) : bool * bool :=
  (hasTrigger (fst ai), hasCondition (fst ai)).

(** Two elements with the same identifier, type, ends and lists of flows:
    they differ by their texts at most. *)
Definition sameSkeleton (e e' : BpmnElement.t) : Prop :=
  BpmnElement.id e = BpmnElement.id e'
  /\ BpmnElement.type e = BpmnElement.type e'
  /\ BpmnElement.incoming e = BpmnElement.incoming e'
  /\ BpmnElement.outgoing e = BpmnElement.outgoing e'
  /\ BpmnElement.sourceRef e = BpmnElement.sourceRef e'
  /\ BpmnElement.targetRef e = BpmnElement.targetRef e'.

(** Two states of the factory that differ by the texts of their elements at
    most. *)
Definition Alike (f f' : BpmnFactory.t) : Prop :=
  Forall2 sameSkeleton (BpmnFactory.elements f) (BpmnFactory.elements f')
  /\ BpmnFactory.diElements f = BpmnFactory.diElements f'
  /\ BpmnFactory.elementCounter f = BpmnFactory.elementCounter f'
  /\ BpmnFactory.flowCounter f = BpmnFactory.flowCounter f'
  /\ BpmnFactory.currentX f = BpmnFactory.currentX f'
  /\ BpmnFactory.currentY f = BpmnFactory.currentY f'.

(** The number of underscores of a text. *)
Fixpoint underscores (s : string) : nat :=
  match s with
  | EmptyString => 0
  | String c r => (if Ascii.eqb c "_" then 1 else 0) + underscores r
  end.

(** The opening line of the task number [k] named [name], and the line of
    its documentation, with its line feed, when the documentation is not
    empty, as they stand in the document. *)
Definition taskOpenLine (k : nat) (name : string) : string :=
  "    <bpmn:task " ++ attr "id" ("Task_" ++ Js.ofNat k) ++ " "
    ++ attr "name" (escapeXml name) ++ ">".

Definition taskDocumentationPart (documentation : string) : string :=
  match documentation with
  | EmptyString => EmptyString
  | String c s =>
      "      <bpmn:documentation>" ++ escapeXml (String c s) ++ "</bpmn:documentation>"
        ++ Js.nl
  end.

(** ** The words of the specification on the walker, the writer and the stack *)

(** The names of the triggers, as the specification words them: the name
    of each trigger, its type when it has no name, nothing when it has
    neither; an empty text counts as none. *)
Fixpoint triggerLabels (trigger : list FhirTrigger.t) : list string :=
  match trigger with
  | [] => []
  | t :: rest =>
      match FhirTrigger.name t with
      | Some (String c s) => String c s :: triggerLabels rest
      | _ =>
          match FhirTrigger.type t with
          | Some (String c s) => String c s :: triggerLabels rest
          | _ => triggerLabels rest
          end
      end
  end.

(** An XML writer that escapes what it is given: every attribute value and
    every text goes through [escapeChars]. *)
Module XmlWriter.

Definition attribute (kv : string * string) : string :=
  " " ++ fst kv ++ "=" ++ Js.dq ++ escapeChars (snd kv) ++ Js.dq.

Definition attributes (l : list (string * string)) : string :=
  flatten (map attribute l).

Definition startTag (indent tag : string) (attrs : list (string * string)) : string :=
  indent ++ "<" ++ tag ++ attributes attrs ++ ">".

Definition emptyTag (indent tag : string) (attrs : list (string * string)) : string :=
  indent ++ "<" ++ tag ++ attributes attrs ++ " />".

Definition endTag (indent tag : string) : string :=
  indent ++ "</" ++ tag ++ ">".

Definition textElement (indent tag : string) (attrs : list (string * string))
    (text : string) : string :=
  indent ++ "<" ++ tag ++ attributes attrs ++ ">" ++ escapeChars text
    ++ "</" ++ tag ++ ">".

End XmlWriter.

(** The tag of each type of element. *)
Definition tagOf (ty : ElementType) : string :=
  match ty with
  | startEvent => "bpmn:startEvent"
  | endEvent => "bpmn:endEvent"
  | intermediateEvent => "bpmn:intermediateCatchEvent"
  | task => "bpmn:task"
  | exclusiveGateway => "bpmn:exclusiveGateway"
  | sequenceFlow => "bpmn:sequenceFlow"
  end.

(** The lines of an element, written with the escaping writer from the raw
    fields of the element: a node has its identifier and its name as
    attributes, then its documentation, the flows that reach it and the flows
    that leave it as children (a start event lists no incoming flow, an end
    event no outgoing flow); a flow has its identifier, its two ends and its
    name as attributes, and its condition expression as a child. *)
Definition escapedElementLines (e : BpmnElement.t) (indent : string) : list string :=
  let child tag text := XmlWriter.textElement (indent ++ "  ") tag [] text in
  let documentation :=
    match BpmnElement.documentation e with
    | Some (String c s) => [child "bpmn:documentation" (String c s)]
    | _ => []
    end in
  let incoming := map (child "bpmn:incoming") (listOf (BpmnElement.incoming e)) in
  let outgoing := map (child "bpmn:outgoing") (listOf (BpmnElement.outgoing e)) in
  match BpmnElement.type e with
  | sequenceFlow =>
      let attrs :=
        ([("id", BpmnElement.id e);
          ("sourceRef", Js.orStr (BpmnElement.sourceRef e) EmptyString);
          ("targetRef", Js.orStr (BpmnElement.targetRef e) EmptyString)]
         ++ match BpmnElement.name e with
            | Some (String c s) => [("name", String c s)]
            | _ => []
            end)%list in
      match BpmnElement.conditionExpression e with
      | Some (String c s) =>
          [XmlWriter.startTag indent "bpmn:sequenceFlow" attrs;
           XmlWriter.textElement (indent ++ "  ") "bpmn:conditionExpression"
             [("xsi:type", "bpmn:tFormalExpression");
              ("xmlns:xsi", "http://www.w3.org/2001/XMLSchema-instance")]
             (String c s);
           XmlWriter.endTag indent "bpmn:sequenceFlow"]
      | _ => [XmlWriter.emptyTag indent "bpmn:sequenceFlow" attrs]
      end
  | ty =>
      ([XmlWriter.startTag indent (tagOf ty)
          [("id", BpmnElement.id e);
           ("name", Js.orStr (BpmnElement.name e) EmptyString)]]
       ++ documentation
       ++ match ty with startEvent => [] | _ => incoming end
       ++ match ty with endEvent => [] | _ => outgoing end
       ++ [XmlWriter.endTag indent (tagOf ty)])%list
  end.

(** The lines of a DI entry, written with the escaping writer: an edge with
    its waypoints, or a shape with its bounds. *)
Definition escapedDiLines (d : BpmnDiElement.t) (indent : string) : list string :=
  let ids := [("id", BpmnDiElement.id d); ("bpmnElement", BpmnDiElement.bpmnElement d)] in
  match BpmnDiElement.waypoints d with
  | Some waypoints =>
      ([XmlWriter.startTag indent "bpmndi:BPMNEdge" ids]
       ++ map (fun wp =>
                 XmlWriter.emptyTag (indent ++ "  ") "di:waypoint"
                   [("x", Js.ofZ (Waypoint.x wp)); ("y", Js.ofZ (Waypoint.y wp))])
            waypoints
       ++ [XmlWriter.endTag indent "bpmndi:BPMNEdge"])%list
  | None =>
      [XmlWriter.startTag indent "bpmndi:BPMNShape" ids;
       XmlWriter.emptyTag (indent ++ "  ") "dc:Bounds"
         [("x", Js.ofNumber (BpmnDiElement.x d));
          ("y", Js.ofNumber (BpmnDiElement.y d));
          ("width", Js.ofNumber (BpmnDiElement.width d));
          ("height", Js.ofNumber (BpmnDiElement.height d))];
       XmlWriter.endTag indent "bpmndi:BPMNShape"]
  end.

(** The whole document, written with the escaping writer from the raw
    identifier, name and description of the process, the raw elements and
    the raw DI entries. *)
Definition escapedDocument (processId processName : string)
    (processDescription : option string)
    (elements : list BpmnElement.t) (diElements : list BpmnDiElement.t) : list string :=
  ([("<?xml" ++ XmlWriter.attributes [("version", "1.0"); ("encoding", "UTF-8")]
       ++ "?>")%string;
    XmlWriter.startTag EmptyString "bpmn:definitions"
      [("xmlns:bpmn", "http://www.omg.org/spec/BPMN/20100524/MODEL");
       ("xmlns:bpmndi", "http://www.omg.org/spec/BPMN/20100524/DI");
       ("xmlns:dc", "http://www.omg.org/spec/DD/20100524/DC");
       ("xmlns:di", "http://www.omg.org/spec/DD/20100524/DI");
       ("id", "Definitions_1");
       ("targetNamespace", "http://bpmn.io/schema/bpmn")];
    XmlWriter.startTag "  " "bpmn:process"
      [("id", processId); ("name", processName); ("isExecutable", "true")]]
   ++ match processDescription with
      | Some (String c s) =>
          [XmlWriter.textElement "    " "bpmn:documentation" [] (String c s)]
      | _ => []
      end
   ++ map (fun e => Js.join Js.nl (escapedElementLines e "    ")) elements
   ++ [XmlWriter.endTag "  " "bpmn:process";
       XmlWriter.startTag "  " "bpmndi:BPMNDiagram" [("id", "BPMNDiagram_1")];
       XmlWriter.startTag "    " "bpmndi:BPMNPlane"
         [("id", "BPMNPlane_1"); ("bpmnElement", processId)]]
   ++ map (fun d => Js.join Js.nl (escapedDiLines d "      ")) diElements
   ++ [XmlWriter.endTag "    " "bpmndi:BPMNPlane";
       XmlWriter.endTag "  " "bpmndi:BPMNDiagram";
       XmlWriter.endTag EmptyString "bpmn:definitions"])%list.

(** The text [s] holds the text [part]. *)
Definition holds (s part : string) : Prop :=
  exists before after, s = (before ++ part ++ after)%string.

(** The activations of [processActions] that the walk of an action takes
    below the one that meets it: none when it has no nested action, else one
    more than the nested action that takes most. *)
Fixpoint activations (action : FhirAction.t) : nat :=
  match FhirAction.action action with
  | Some l =>
      (fix most (l : list FhirAction.t) : nat :=
         match l with
         | [] => 0
         | a :: r => Nat.max (S (activations a)) (most r)
         end) l
  | None => 0
  end.

(** The activations the call of [processActions] on a list takes, its own
    included; none for the empty list, on which the source never calls it. *)
Definition activationsOf (actions : list FhirAction.t) : nat :=
  fold_right (fun a n => Nat.max (S (activations a)) n) 0 actions.

(** An action with [n] levels of nested actions below it, and the document
    of this action. *)
Fixpoint nestedAction (n : nat) : FhirAction.t :=
  FhirAction.mk None (Some "Step") None None None None None None None None
    match n with
    | 0 => None
    | S n => Some [nestedAction n]
    end.

Definition nestedDocument (n : nat) : FhirPlanDefinition.t :=
  FhirPlanDefinition.mk (Some "PlanDefinition") None None None (Some [nestedAction n]).

(** The action [{ trigger: [{ type: 'named-event', name: 'lab-result' },
    { type: 'periodic' }, {}, { type: 'data-changed', name: '' }] }] and its
    document. *)
Definition severalTriggers : list FhirTrigger.t :=
  [FhirTrigger.mk (Some "named-event") (Some "lab-result");
   FhirTrigger.mk (Some "periodic") None;
   FhirTrigger.mk None None;
   FhirTrigger.mk (Some "data-changed") (Some EmptyString)].

Definition severalTriggersAction : FhirAction.t :=
  FhirAction.mk None None None None None (Some severalTriggers) None None None None None.

Definition severalTriggersPlan : FhirPlanDefinition.t :=
  FhirPlanDefinition.mk (Some "PlanDefinition") None None None
    (Some [severalTriggersAction]).

(** The action [{ title: 'Check', condition: [{ expression: { expression: '' } }] }],
    whose condition has an empty expression text, and its document. *)
Definition emptyExpressionCondition : FhirCondition.t :=
  FhirCondition.mk None (Some (FhirExpression.mk None (Some EmptyString))).

Definition emptyExpressionAction : FhirAction.t :=
  FhirAction.mk None (Some "Check") None None None None
    (Some [emptyExpressionCondition]) None None None None.

Definition emptyExpressionPlan : FhirPlanDefinition.t :=
  FhirPlanDefinition.mk (Some "PlanDefinition") None None None
    (Some [emptyExpressionAction]).

(** * Properties *)

(** ** The entry point: rejection *)

Lemma validRoot_invalid planDefinition :
  invalidRoot planDefinition -> validRoot planDefinition = None.
Proof.
  destruct planDefinition as [pd|]; simpl; [|reflexivity].
  destruct (FhirPlanDefinition.resourceType pd) as [ty|]; [|reflexivity].
  intros H. destruct (String.eqb_spec ty "PlanDefinition") as [->|]; congruence.
Qed.

Lemma validRoot_valid pd :
  FhirPlanDefinition.resourceType pd = Some "PlanDefinition" ->
  validRoot (Some pd) = Some pd.
Proof. simpl. intros ->. reflexivity. Qed.

(** C4. An input whose root is invalid makes the call throw the
    invalid-root error: nothing is returned, the factory is never created,
    and the only effect is the line the catch clause writes on the console. *)
Theorem invalid_root_fails planDefinition console0 :
  invalidRoot planDefinition ->
  let run := convertPlanDefinitionToBpmn planDefinition console0 in
  completion run = Throw invalidPlanDefinition
  /\ factory run = None
  /\ console run
     = (console0
        ++ [console_error "Error converting PlanDefinition to BPMN:" invalidPlanDefinition])%list.
Proof.
  intros H. unfold convertPlanDefinitionToBpmn.
  rewrite (validRoot_invalid _ H). simpl. auto.
Qed.

Lemma invalid_root_fails_witness :
  invalidRoot (Some patientDocument)
  /\ completion (convertPlanDefinitionToBpmn (Some patientDocument) [])
     = Throw invalidPlanDefinition.
Proof.
  assert (H : invalidRoot (Some patientDocument)) by (simpl; discriminate).
  split; [exact H|].
  exact (proj1 (invalid_root_fails (Some patientDocument) [] H)).
Defined.

(** ** The empty document *)

Lemma buildGraph_noActions pd :
  noActions pd -> buildGraph pd = buildGraph emptyPlanDefinition.
Proof.
  unfold buildGraph. intros [H|H]; rewrite H; reflexivity.
Qed.

(** C6. A valid document with no action list, or an empty one, is converted
    with one warning on the console and no error, into a graph of exactly
    three elements: a start event, an end event, and one flow from the first
    to the second. *)
Theorem empty_actions_graph pd console0 :
  FhirPlanDefinition.resourceType pd = Some "PlanDefinition" ->
  noActions pd ->
  let run := convertPlanDefinitionToBpmn (Some pd) console0 in
  console run = (console0 ++ [console_warn "PlanDefinition has no actions"])%list
  /\ (exists xml, completion run = Return xml)
  /\ exists f s e fl,
       factory run = Some f
       /\ BpmnFactory.elements f = [s; e; fl]
       /\ BpmnElement.type s = startEvent
       /\ BpmnElement.type e = endEvent
       /\ BpmnElement.type fl = sequenceFlow
       /\ BpmnElement.sourceRef fl = Some (BpmnElement.id s)
       /\ BpmnElement.targetRef fl = Some (BpmnElement.id e)
       /\ BpmnElement.outgoing s = Some [BpmnElement.id fl]
       /\ In (BpmnElement.id fl)
            (match BpmnElement.incoming e with Some l => l | None => [] end).
Proof.
  intros Hroot Hno. unfold convertPlanDefinitionToBpmn.
  rewrite (validRoot_valid _ Hroot), (buildGraph_noActions _ Hno).
  destruct (buildGraph emptyPlanDefinition) as [f log] eqn:E.
  vm_compute in E. injection E as <- <-. simpl.
  split; [reflexivity|]. split; [eexists; reflexivity|].
  do 4 eexists. split; [reflexivity|]. split; [reflexivity|].
  simpl. repeat split; auto.
Qed.

Lemma empty_actions_graph_witness :
  FhirPlanDefinition.resourceType emptyPlanDefinition = Some "PlanDefinition"
  /\ noActions emptyPlanDefinition
  /\ console (convertPlanDefinitionToBpmn (Some emptyPlanDefinition) [])
     = [console_warn "PlanDefinition has no actions"].
Proof.
  assert (H1 : FhirPlanDefinition.resourceType emptyPlanDefinition = Some "PlanDefinition")
    by reflexivity.
  assert (H2 : noActions emptyPlanDefinition) by (right; reflexivity).
  split; [exact H1|]. split; [exact H2|].
  exact (proj1 (empty_actions_graph emptyPlanDefinition [] H1 H2)).
Defined.

(** ** What one factory call does to the element list *)

Arguments Js.ofNat : simpl never.
Arguments Js.ofZ : simpl never.

Lemma sameCore_refl e : sameCore e e.
Proof. unfold sameCore. repeat split. Qed.

Lemma sameCore_trans e1 e2 e3 : sameCore e1 e2 -> sameCore e2 e3 -> sameCore e1 e3.
Proof. unfold sameCore. intuition congruence. Qed.

Lemma sameCore_pushOutgoing i e : sameCore e (BpmnElement.pushOutgoing i e).
Proof. unfold sameCore. simpl. repeat split. Qed.

Lemma sameCore_pushIncoming i e : sameCore e (BpmnElement.pushIncoming i e).
Proof. unfold sameCore. simpl. repeat split. Qed.

Lemma Forall2_sameCore_refl l : Forall2 sameCore l l.
Proof. induction l; constructor; auto using sameCore_refl. Qed.

Lemma Forall2_sameCore_trans l1 l2 l3 :
  Forall2 sameCore l1 l2 -> Forall2 sameCore l2 l3 -> Forall2 sameCore l1 l3.
Proof.
  intros H. revert l3. induction H; intros l3 H3; inversion H3; subst; constructor.
  - eapply sameCore_trans; eauto.
  - auto.
Qed.

Lemma updateFirst_sameCore p g l :
  (forall e, sameCore e (g e)) -> Forall2 sameCore l (Js.updateFirst p g l).
Proof.
  intros Hg. induction l as [|x r IH]; simpl; [constructor|].
  destruct (p x); constructor; auto using sameCore_refl, Forall2_sameCore_refl.
Qed.

Lemma createSequenceFlow_spec s t ce nm f :
  let r := BpmnFactory.createSequenceFlow s t ce nm f in
  fst r = nextFlowId f
  /\ BpmnFactory.elements (snd r)
     = Js.updateFirst (BpmnElement.hasId t) (BpmnElement.pushIncoming (nextFlowId f))
         (Js.updateFirst (BpmnElement.hasId s) (BpmnElement.pushOutgoing (nextFlowId f))
            (BpmnFactory.elements f ++ [flowElement (nextFlowId f) s t ce nm]))
  /\ BpmnFactory.diElements (snd r)
     = (BpmnFactory.diElements f
        ++ match BpmnFactory.getDiElement s f, BpmnFactory.getDiElement t f with
           | Some a, Some b => [edgeElement (nextFlowId f) a b]
           | _, _ => []
           end)%list
  /\ BpmnFactory.elementCounter (snd r) = BpmnFactory.elementCounter f
  /\ BpmnFactory.flowCounter (snd r) = S (BpmnFactory.flowCounter f)
  /\ BpmnFactory.currentX (snd r) = BpmnFactory.currentX f
  /\ BpmnFactory.currentY (snd r) = BpmnFactory.currentY f.
Proof.
  unfold BpmnFactory.createSequenceFlow, BpmnFactory.generateFlowId,
    BpmnFactory.getDiElement, nextFlowId, flowElement, edgeElement.
  cbn [BpmnFactory.pushElement BpmnFactory.elements BpmnFactory.diElements
       BpmnFactory.elementCounter BpmnFactory.flowCounter BpmnFactory.currentX
       BpmnFactory.currentY fst snd].
  destruct (find (BpmnDiElement.isFor s) (BpmnFactory.diElements f)) as [a|];
    [destruct (find (BpmnDiElement.isFor t) (BpmnFactory.diElements f)) as [b|]|];
    cbn; rewrite ?app_nil_r; repeat split.
Qed.

Lemma createStartEvent_spec f :
  BpmnFactory.createStartEvent f
  = (nextId "StartEvent" f,
     afterNode (BpmnElement.mk (nextId "StartEvent" f) startEvent (Some "Start") None None
                  (Some []) None None None None)
       BpmnFactory.EVENT_SIZE BpmnFactory.EVENT_SIZE f).
Proof. reflexivity. Qed.

Lemma createEndEvent_spec inc f :
  BpmnFactory.createEndEvent inc f
  = (nextId "EndEvent" f,
     afterNode (BpmnElement.mk (nextId "EndEvent" f) endEvent (Some "End") None (Some [inc])
                  None None None None None)
       BpmnFactory.EVENT_SIZE BpmnFactory.EVENT_SIZE f).
Proof. reflexivity. Qed.

Lemma createTask_spec name inc doc f :
  BpmnFactory.createTask name inc doc f
  = (nextId "Task" f,
     afterNode (nodeElement (nextId "Task" f) task name doc (Some [inc]) (Some []))
       BpmnFactory.TASK_WIDTH BpmnFactory.TASK_HEIGHT f).
Proof. reflexivity. Qed.

Lemma createExclusiveGateway_spec name inc f :
  BpmnFactory.createExclusiveGateway name inc f
  = (nextId "Gateway" f,
     afterNode (nodeElement (nextId "Gateway" f) exclusiveGateway name None (Some [inc])
                  (Some []))
       BpmnFactory.GATEWAY_SIZE BpmnFactory.GATEWAY_SIZE f).
Proof. reflexivity. Qed.

Lemma createIntermediateEvent_spec name inc doc f :
  BpmnFactory.createIntermediateEvent name inc doc f
  = (nextId "IntermediateEvent" f,
     afterNode (nodeElement (nextId "IntermediateEvent" f) intermediateEvent name doc
                  (Some [inc]) (Some []))
       BpmnFactory.EVENT_SIZE BpmnFactory.EVENT_SIZE f).
Proof. reflexivity. Qed.

(** ** What one step of the walker adds *)

Lemma grownBy_node e w h f : grownBy f [e] (afterNode e w h f).
Proof. apply Forall2_sameCore_refl. Qed.

Lemma grownBy_flow s t ce nm f :
  grownBy f [flowElement (nextFlowId f) s t ce nm]
    (snd (BpmnFactory.createSequenceFlow s t ce nm f)).
Proof.
  unfold grownBy.
  destruct (createSequenceFlow_spec s t ce nm f) as (_ & -> & _).
  eapply Forall2_sameCore_trans; apply updateFirst_sameCore;
    auto using sameCore_pushOutgoing, sameCore_pushIncoming.
Qed.

Lemma grownBy_trans f A f1 B f2 :
  grownBy f A f1 -> grownBy f1 B f2 -> grownBy f (A ++ B) f2.
Proof.
  unfold grownBy. intros H1 H2. rewrite app_assoc.
  eapply Forall2_sameCore_trans; [|exact H2].
  apply Forall2_app; auto using Forall2_sameCore_refl.
Qed.

Lemma grownBy_node_flow f e w h s t ce nm :
  grownBy f [e; flowElement (nextFlowId f) s t ce nm]
    (snd (BpmnFactory.createSequenceFlow s t ce nm (afterNode e w h f))).
Proof.
  apply (grownBy_trans f [e] (afterNode e w h f) [flowElement (nextFlowId f) s t ce nm]).
  - apply grownBy_node.
  - exact (grownBy_flow s t ce nm (afterNode e w h f)).
Qed.

Lemma grownBy_split f A f' :
  grownBy f A f' ->
  exists old' A',
    BpmnFactory.elements f' = (old' ++ A')%list
    /\ Forall2 sameCore (BpmnFactory.elements f) old'
    /\ Forall2 sameCore A A'.
Proof.
  unfold grownBy. intros H.
  apply Forall2_app_inv_l in H as (old' & A' & H1 & H2 & ->). eauto.
Qed.

Lemma sameCore_count ty l l' :
  Forall2 sameCore l l' ->
  List.length (filter (fun e => ElementType_eqb (BpmnElement.type e) ty) l')
  = List.length (filter (fun e => ElementType_eqb (BpmnElement.type e) ty) l).
Proof.
  induction 1 as [|x y l l' Hxy _ IH]; [reflexivity|].
  simpl. destruct Hxy as (_ & -> & _).
  destruct (ElementType_eqb (BpmnElement.type x) ty); simpl; congruence.
Qed.

Lemma grownBy_count ty f A f' :
  grownBy f A f' ->
  countType ty f'
  = countType ty f
    + List.length (filter (fun e => ElementType_eqb (BpmnElement.type e) ty) A).
Proof.
  unfold grownBy, countType, BpmnFactory.getElementsByType. intros H.
  rewrite (sameCore_count _ _ _ H), filter_app, length_app. reflexivity.
Qed.

Lemma nextId_afterFlow p s t ce nm f :
  nextId p (snd (BpmnFactory.createSequenceFlow s t ce nm f)) = nextId p f.
Proof.
  unfold nextId. destruct (createSequenceFlow_spec s t ce nm f) as (_ & _ & _ & -> & _).
  reflexivity.
Qed.

Lemma nextFlowId_afterFlow s t ce nm f :
  nextFlowId (snd (BpmnFactory.createSequenceFlow s t ce nm f))
  = "Flow_" ++ Js.ofNat (S (S (BpmnFactory.flowCounter f))).
Proof.
  unfold nextFlowId.
  destruct (createSequenceFlow_spec s t ce nm f) as (_ & _ & _ & _ & -> & _).
  reflexivity.
Qed.

(** The step of an action with triggers, as a function of the state. *)
Lemma triggerStep_some action trigger f last :
  nonEmpty (FhirAction.trigger action) = Some trigger ->
  triggerStep action (f, last)
  = (snd (BpmnFactory.createSequenceFlow last (nextId "IntermediateEvent" f) None None
            (afterNode
               (nodeElement (nextId "IntermediateEvent" f) intermediateEvent
                  (triggerEventName trigger) (Some (buildActionDocumentation action))
                  (Some ["temp_incoming"]) (Some []))
               BpmnFactory.EVENT_SIZE BpmnFactory.EVENT_SIZE f)),
     nextId "IntermediateEvent" f).
Proof.
  intros H. unfold triggerStep. rewrite H, createIntermediateEvent_spec.
  fold (triggerEventName trigger).
  destruct (BpmnFactory.createSequenceFlow _ _ _ _ _); reflexivity.
Qed.

Lemma triggerStep_none action w :
  nonEmpty (FhirAction.trigger action) = None -> triggerStep action w = w.
Proof. intros H. unfold triggerStep. destruct w. rewrite H. reflexivity. Qed.

Lemma triggerStep_grows action trigger f last :
  nonEmpty (FhirAction.trigger action) = Some trigger ->
  grownBy f
    [nodeElement (nextId "IntermediateEvent" f) intermediateEvent
       (triggerEventName trigger) (Some (buildActionDocumentation action))
       (Some ["temp_incoming"]) (Some []);
     flowElement (nextFlowId f) last (nextId "IntermediateEvent" f) None None]
    (fst (triggerStep action (f, last)))
  /\ snd (triggerStep action (f, last)) = nextId "IntermediateEvent" f.
Proof.
  intros H. rewrite (triggerStep_some _ _ _ _ H). split; [|reflexivity].
  cbn [fst]. apply grownBy_node_flow.
Qed.

(** The step of an action with conditions, as a function of the state. *)
Lemma taskStep_condition action i c rest f last :
  nonEmpty (FhirAction.condition action) = Some (c :: rest) ->
  let gatewayId := nextId "Gateway" f in
  let f1 := afterNode (nodeElement gatewayId exclusiveGateway (decisionName c) None
                         (Some ["temp_incoming"]) (Some []))
              BpmnFactory.GATEWAY_SIZE BpmnFactory.GATEWAY_SIZE f in
  let f2 := snd (BpmnFactory.createSequenceFlow last gatewayId None None f1) in
  let taskId := nextId "Task" f2 in
  let f3 := afterNode (nodeElement taskId task (actionName action i)
                         (Some (buildActionDocumentation action))
                         (Some ["temp_incoming"]) (Some []))
              BpmnFactory.TASK_WIDTH BpmnFactory.TASK_HEIGHT f2 in
  taskStep action i (f, last)
  = (snd (BpmnFactory.createSequenceFlow gatewayId taskId
            (expressionOf (FhirCondition.expression c)) (Some "Yes") f3),
     taskId).
Proof.
  intros H. unfold taskStep. rewrite H. cbn [hd].
  rewrite createExclusiveGateway_spec.
  fold (decisionName c) (actionName action i).
  destruct (BpmnFactory.createSequenceFlow last _ None None _) as [fid f2] eqn:E2.
  rewrite createTask_spec.
  replace f2 with (snd (fid, f2)) by reflexivity. rewrite <- E2.
  destruct (BpmnFactory.createSequenceFlow (nextId "Gateway" f) _ _ _ _); reflexivity.
Qed.

Lemma taskStep_plain action i f last :
  nonEmpty (FhirAction.condition action) = None ->
  let taskId := nextId "Task" f in
  taskStep action i (f, last)
  = (snd (BpmnFactory.createSequenceFlow last taskId None None
            (afterNode (nodeElement taskId task (actionName action i)
                          (Some (buildActionDocumentation action))
                          (Some ["temp_incoming"]) (Some []))
               BpmnFactory.TASK_WIDTH BpmnFactory.TASK_HEIGHT f)),
     taskId).
Proof.
  intros H. unfold taskStep. rewrite H, createTask_spec.
  fold (actionName action i).
  destruct (BpmnFactory.createSequenceFlow _ _ _ _ _); reflexivity.
Qed.

Lemma taskStep_condition_grows action i c rest f last :
  nonEmpty (FhirAction.condition action) = Some (c :: rest) ->
  let gatewayId := nextId "Gateway" f in
  let taskId := "Task_" ++ Js.ofNat (S (S (BpmnFactory.elementCounter f))) in
  grownBy f
    [nodeElement gatewayId exclusiveGateway (decisionName c) None
       (Some ["temp_incoming"]) (Some []);
     flowElement (nextFlowId f) last gatewayId None None;
     nodeElement taskId task (actionName action i)
       (Some (buildActionDocumentation action)) (Some ["temp_incoming"]) (Some []);
     flowElement ("Flow_" ++ Js.ofNat (S (S (BpmnFactory.flowCounter f)))) gatewayId taskId
       (expressionOf (FhirCondition.expression c)) (Some "Yes")]
    (fst (taskStep action i (f, last)))
  /\ snd (taskStep action i (f, last)) = taskId.
Proof.
  intros H. rewrite (taskStep_condition _ i _ _ f last H). cbn zeta.
  rewrite nextId_afterFlow. cbn [fst snd]. split; [|reflexivity].
  set (gw := nodeElement _ exclusiveGateway _ _ _ _).
  set (f2 := snd (BpmnFactory.createSequenceFlow last _ None None _)).
  set (tk := nodeElement _ task _ _ _ _).
  assert (G1 : grownBy f [gw; flowElement (nextFlowId f) last (nextId "Gateway" f) None None] f2)
    by apply grownBy_node_flow.
  pose proof (grownBy_node_flow f2 tk BpmnFactory.TASK_WIDTH BpmnFactory.TASK_HEIGHT
                (nextId "Gateway" f)
                ("Task_" ++ Js.ofNat (S (S (BpmnFactory.elementCounter f))))
                (expressionOf (FhirCondition.expression c)) (Some "Yes")) as G2.
  unfold f2 in G2 at 2. rewrite nextFlowId_afterFlow in G2.
  exact (grownBy_trans _ _ _ _ _ G1 G2).
Qed.

Lemma taskStep_plain_grows action i f last :
  nonEmpty (FhirAction.condition action) = None ->
  grownBy f
    [nodeElement (nextId "Task" f) task (actionName action i)
       (Some (buildActionDocumentation action)) (Some ["temp_incoming"]) (Some []);
     flowElement (nextFlowId f) last (nextId "Task" f) None None]
    (fst (taskStep action i (f, last)))
  /\ snd (taskStep action i (f, last)) = nextId "Task" f.
Proof.
  intros H. rewrite (taskStep_plain _ i f last H). cbn zeta. split; [|reflexivity].
  cbn [fst]. apply grownBy_node_flow.
Qed.

(** ** The walker: triggers and conditions *)

Lemma Forall2_sameCore_two e1 e2 l :
  Forall2 sameCore [e1; e2] l ->
  exists e1' e2', l = [e1'; e2'] /\ sameCore e1 e1' /\ sameCore e2 e2'.
Proof.
  intros H. inversion H as [|? e1' ? l1 H1 T1]; subst.
  inversion T1 as [|? e2' ? l2 H2 T2]; subst. inversion T2; subst. eauto.
Qed.

Lemma taskStep_no_event action i f last :
  countType intermediateEvent (fst (taskStep action i (f, last)))
  = countType intermediateEvent f.
Proof.
  destruct (nonEmpty (FhirAction.condition action)) as [[|c rest]|] eqn:E.
  - unfold nonEmpty in E. destruct (FhirAction.condition action) as [[|]|]; discriminate.
  - destruct (taskStep_condition_grows action i c rest f last E) as [G _].
    rewrite (grownBy_count _ _ _ _ G). simpl. lia.
  - destruct (taskStep_plain_grows action i f last E) as [G _].
    rewrite (grownBy_count _ _ _ _ G). simpl. lia.
Qed.

Lemma triggerStep_no_gateway action f last :
  countType exclusiveGateway (fst (triggerStep action (f, last)))
  = countType exclusiveGateway f.
Proof.
  destruct (nonEmpty (FhirAction.trigger action)) as [trigger|] eqn:E.
  - destruct (triggerStep_grows action trigger f last E) as [G _].
    rewrite (grownBy_count _ _ _ _ G). simpl. lia.
  - rewrite (triggerStep_none _ _ E). reflexivity.
Qed.

Lemma Forall2_sameCore_four e1 e2 e3 e4 l :
  Forall2 sameCore [e1; e2; e3; e4] l ->
  exists e1' e2' e3' e4',
    l = [e1'; e2'; e3'; e4']
    /\ sameCore e1 e1' /\ sameCore e2 e2' /\ sameCore e3 e3' /\ sameCore e4 e4'.
Proof.
  intros H. inversion H as [|? e1' ? l1 H1 T1]; subst.
  inversion T1 as [|? e2' ? l2 H2 T2]; subst.
  apply Forall2_sameCore_two in T2 as (e3' & e4' & -> & H3 & H4).
  exists e1', e2', e3', e4'. auto.
Qed.

(** ** Escaping *)

Lemma append_assoc (a b c : string) : ((a ++ b) ++ c = a ++ (b ++ c))%string.
Proof. induction a; simpl; congruence. Qed.

Lemma append_empty_r (a : string) : (a ++ EmptyString)%string = a.
Proof. induction a; simpl; congruence. Qed.

Lemma replaceAll_app c by_ a b :
  Js.replaceAll c by_ (a ++ b) = (Js.replaceAll c by_ a ++ Js.replaceAll c by_ b)%string.
Proof.
  induction a as [|x a IH]; simpl; [reflexivity|].
  destruct (Ascii.eqb x c); simpl; rewrite IH, ?append_assoc; reflexivity.
Qed.

Lemma replaceChain_cons a r :
  replaceChain (String a r) = (entity a ++ replaceChain r)%string.
Proof.
  unfold replaceChain, entity.
  cbn [Js.replaceAll].
  destruct (Ascii.eqb_spec a "&") as [->|_].
  { rewrite !replaceAll_app. reflexivity. }
  cbn [Js.replaceAll].
  destruct (Ascii.eqb_spec a "<") as [->|_].
  { rewrite !replaceAll_app. reflexivity. }
  cbn [Js.replaceAll].
  destruct (Ascii.eqb_spec a ">") as [->|_].
  { rewrite !replaceAll_app. reflexivity. }
  cbn [Js.replaceAll].
  destruct (Ascii.eqb_spec a "034") as [->|_].
  { rewrite !replaceAll_app. reflexivity. }
  cbn [Js.replaceAll].
  destruct (Ascii.eqb_spec a "'") as [->|_]; reflexivity.
Qed.

Lemma replaceChain_escapeChars s : replaceChain s = escapeChars s.
Proof.
  induction s as [|a r IH]; [reflexivity|].
  rewrite replaceChain_cons, IH. reflexivity.
Qed.

(** The replacements of the source, one after the other, amount to one pass
    that replaces each reserved character by its entity. *)
Lemma escapeXml_escapeChars s : escapeXml s = escapeChars s.
Proof.
  destruct s as [|a r]; [reflexivity|]. apply (replaceChain_escapeChars (String a r)).
Qed.

(** *** No text reaches the markup *)

Arguments escapeXml : simpl never.

Lemma markupOf_app a b : markupOf (a ++ b) = (markupOf a ++ markupOf b)%string.
Proof.
  induction a as [|c a IH]; simpl; [reflexivity|].
  destruct (isMarkup c); simpl; congruence.
Qed.

Lemma markupOf_entity c : markupOf (entity c) = EmptyString.
Proof.
  unfold entity.
  destruct (Ascii.eqb_spec c "&"); [reflexivity|].
  destruct (Ascii.eqb_spec c "<"); [reflexivity|].
  destruct (Ascii.eqb_spec c ">"); [reflexivity|].
  destruct (Ascii.eqb_spec c "034"); [reflexivity|].
  destruct (Ascii.eqb_spec c "'"); [reflexivity|].
  simpl. unfold isMarkup.
  repeat match goal with
         | H : c <> ?x |- _ => apply Ascii.eqb_neq in H; rewrite H; clear H
         end.
  reflexivity.
Qed.

Lemma markupOf_escapeXml s : markupOf (escapeXml s) = EmptyString.
Proof.
  rewrite escapeXml_escapeChars.
  induction s as [|c r IH]; [reflexivity|].
  simpl. rewrite markupOf_app, markupOf_entity, IH. reflexivity.
Qed.

Lemma markupOf_uint d : markupOf (NilEmpty.string_of_uint d) = EmptyString.
Proof. induction d; simpl; auto. Qed.

Lemma markupOf_ofZ z : markupOf (Js.ofZ z) = EmptyString.
Proof.
  unfold Js.ofZ. destruct (Z.to_int z); simpl; apply markupOf_uint.
Qed.

Lemma markupOf_ofNumber o : markupOf (Js.ofNumber o) = EmptyString.
Proof. destruct o; [apply markupOf_ofZ|reflexivity]. Qed.

Lemma markupOf_join l : markupOf (Js.join Js.nl l) = flatten (map markupOf l).
Proof.
  induction l as [|x r IH]; [reflexivity|].
  destruct r as [|y r].
  - simpl. rewrite append_empty_r. reflexivity.
  - change (Js.join Js.nl (x :: y :: r)) with (x ++ Js.nl ++ Js.join Js.nl (y :: r))%string.
    rewrite !markupOf_app, IH. reflexivity.
Qed.

Ltac markup_norm :=
  repeat (progress
            (repeat rewrite ?markupOf_app, ?markupOf_escapeXml, ?markupOf_ofZ,
               ?markupOf_ofNumber;
             simpl)).

Lemma markupOf_openLine indent tag e e' :
  markupOf (openLine indent tag e) = markupOf (openLine indent tag e').
Proof. unfold openLine, attr. markup_norm. reflexivity. Qed.

Lemma markupOf_documentationLines indent e e' :
  Js.truthy (BpmnElement.documentation e) = Js.truthy (BpmnElement.documentation e') ->
  map markupOf (documentationLines indent e) = map markupOf (documentationLines indent e').
Proof.
  unfold documentationLines.
  destruct (BpmnElement.documentation e) as [[|]|],
    (BpmnElement.documentation e') as [[|]|]; simpl; try discriminate; try reflexivity.
  intros _. markup_norm. reflexivity.
Qed.

Lemma markupOf_refs (open close indent : string) l l' :
  List.length l = List.length l' ->
  map markupOf (map (fun r => (indent ++ open ++ escapeXml r ++ close)%string) l)
  = map markupOf (map (fun r => (indent ++ open ++ escapeXml r ++ close)%string) l').
Proof.
  revert l'. induction l as [|x l IH]; intros [|y l'] H; try discriminate; [reflexivity|].
  simpl. f_equal.
  - markup_norm. reflexivity.
  - apply IH. simpl in H. congruence.
Qed.

Lemma markupOf_incomingLines indent e e' :
  lengthOpt (BpmnElement.incoming e) = lengthOpt (BpmnElement.incoming e') ->
  map markupOf (incomingLines indent e) = map markupOf (incomingLines indent e').
Proof.
  unfold incomingLines.
  destruct (BpmnElement.incoming e) as [l|], (BpmnElement.incoming e') as [l'|];
    cbn [lengthOpt]; try discriminate; try reflexivity.
  intros H. apply (markupOf_refs "  <bpmn:incoming>" "</bpmn:incoming>"). congruence.
Qed.

Lemma markupOf_outgoingLines indent e e' :
  lengthOpt (BpmnElement.outgoing e) = lengthOpt (BpmnElement.outgoing e') ->
  map markupOf (outgoingLines indent e) = map markupOf (outgoingLines indent e').
Proof.
  unfold outgoingLines.
  destruct (BpmnElement.outgoing e) as [l|], (BpmnElement.outgoing e') as [l'|];
    cbn [lengthOpt]; try discriminate; try reflexivity.
  intros H. apply (markupOf_refs "  <bpmn:outgoing>" "</bpmn:outgoing>"). congruence.
Qed.

Lemma markupOf_flowAttrs e e' :
  Js.truthy (BpmnElement.name e) = Js.truthy (BpmnElement.name e') ->
  markupOf (flowAttrs e) = markupOf (flowAttrs e').
Proof.
  unfold flowAttrs, attr.
  destruct (BpmnElement.name e) as [[|]|], (BpmnElement.name e') as [[|]|];
    simpl; try discriminate; intros _; markup_norm; reflexivity.
Qed.

Lemma markupOf_elementLines indent e e' :
  sameShape e e' ->
  map markupOf (elementLines e indent) = map markupOf (elementLines e' indent).
Proof.
  intros (Hty & Hnm & Hdoc & Hce & Hin & Hout).
  unfold elementLines. rewrite <- Hty.
  destruct (BpmnElement.type e); rewrite ?map_app;
    rewrite ?(markupOf_documentationLines indent e e' Hdoc),
            ?(markupOf_incomingLines indent e e' Hin),
            ?(markupOf_outgoingLines indent e e' Hout);
    try (cbn [map]; rewrite (markupOf_openLine indent _ e e'); reflexivity).
  pose proof (markupOf_flowAttrs e e' Hnm) as Hfa.
  set (fa := flowAttrs e) in *. set (fa' := flowAttrs e') in *. clearbody fa fa'.
  destruct (BpmnElement.conditionExpression e) as [[|]|],
    (BpmnElement.conditionExpression e') as [[|]|];
    simpl in Hce; try discriminate; cbn [map];
    markup_norm; rewrite Hfa; reflexivity.
Qed.

Lemma markupOf_generateElementXml indent e e' :
  sameShape e e' ->
  markupOf (generateElementXml e indent) = markupOf (generateElementXml e' indent).
Proof.
  intros H. unfold generateElementXml.
  rewrite !markupOf_join, (markupOf_elementLines indent e e' H). reflexivity.
Qed.

Lemma markupOf_waypointLines indent l l' :
  List.length l = List.length l' ->
  map markupOf (map (waypointLine indent) l) = map markupOf (map (waypointLine indent) l').
Proof.
  revert l'. induction l as [|x l IH]; intros [|y l'] H; try discriminate; [reflexivity|].
  simpl. f_equal.
  - unfold waypointLine, attr. markup_norm. reflexivity.
  - apply IH. simpl in H. congruence.
Qed.

Lemma markupOf_generateDiXml indent d d' :
  sameDiShape d d' ->
  markupOf (generateDiXml d indent) = markupOf (generateDiXml d' indent).
Proof.
  unfold sameDiShape, generateDiXml, diLines. intros H. rewrite !markupOf_join.
  destruct (BpmnDiElement.waypoints d) as [l|], (BpmnDiElement.waypoints d') as [l'|];
    simpl in H; try discriminate.
  - rewrite !map_app, (markupOf_waypointLines indent l l') by congruence.
    cbn [map]. unfold attr. markup_norm. reflexivity.
  - cbn [map]. unfold attr. markup_norm. reflexivity.
Qed.

Lemma markupOf_map_Forall2 {A : Type} (R : A -> A -> Prop) (g : A -> string) l l' :
  (forall x y, R x y -> markupOf (g x) = markupOf (g y)) ->
  Forall2 R l l' -> map markupOf (map g l) = map markupOf (map g l').
Proof.
  intros Hg. induction 1; simpl; [reflexivity|]. f_equal; auto.
Qed.

(** The markup of the document depends on the shape of the graph alone. *)
Lemma markupOf_generateBpmnXml pid pid' pname pname' pdesc pdesc' els els' dis dis' :
  Js.truthy pdesc = Js.truthy pdesc' ->
  Forall2 sameShape els els' ->
  Forall2 sameDiShape dis dis' ->
  markupOf (generateBpmnXml pid pname pdesc els dis)
  = markupOf (generateBpmnXml pid' pname' pdesc' els' dis').
Proof.
  intros Hdesc Hels Hdis. unfold generateBpmnXml, xmlLines.
  rewrite !markupOf_join, !map_app.
  rewrite (markupOf_map_Forall2 sameShape _ els els'
             (fun x y => markupOf_generateElementXml "    " x y) Hels).
  rewrite (markupOf_map_Forall2 sameDiShape _ dis dis'
             (fun x y => markupOf_generateDiXml "      " x y) Hdis).
  assert (Hd : map markupOf
                 match pdesc with
                 | Some (String c s) =>
                     [("    <bpmn:documentation>" ++ escapeXml (String c s)
                         ++ "</bpmn:documentation>")%string]
                 | _ => []
                 end
               = map markupOf
                   match pdesc' with
                   | Some (String c s) =>
                       [("    <bpmn:documentation>" ++ escapeXml (String c s)
                           ++ "</bpmn:documentation>")%string]
                   | _ => []
                   end).
  { destruct pdesc as [[|]|], pdesc' as [[|]|]; cbn [Js.truthy] in Hdesc;
      try discriminate Hdesc;
      match goal with
      | |- map markupOf [] = map markupOf [] => reflexivity
      | _ => cbn [map]; markup_norm; reflexivity
      end. }
  rewrite Hd. cbn [map]. unfold attr. markup_norm. reflexivity.
Qed.

(** *** Every ampersand of the document starts an entity *)

Lemma prefix_app p r b : String.prefix p r = true -> String.prefix p (r ++ b) = true.
Proof.
  revert r. induction p as [|c p IH]; intros r H; [destruct (r ++ b); reflexivity|].
  destruct r as [|d r]; [discriminate|]. simpl in *.
  destruct (Ascii.ascii_dec c d); [auto|discriminate].
Qed.

Lemma startsEntity_app r b : startsEntity r = true -> startsEntity (r ++ b) = true.
Proof.
  unfold startsEntity. rewrite !orb_true_iff.
  intros [[[[H|H]|H]|H]|H]; rewrite (prefix_app _ _ b H); auto.
Qed.

Lemma ampersandsEscaped_app a b :
  ampersandsEscaped a = true -> ampersandsEscaped b = true ->
  ampersandsEscaped (a ++ b) = true.
Proof.
  intros Ha Hb. induction a as [|c a IH]; [exact Hb|].
  cbn [append ampersandsEscaped] in *. apply andb_true_iff in Ha as [H1 H2].
  rewrite (IH H2), andb_true_r. destruct (Ascii.eqb c "&"); [|reflexivity].
  apply startsEntity_app. exact H1.
Qed.

Lemma ampersandsEscaped_entity c : ampersandsEscaped (entity c) = true.
Proof.
  unfold entity.
  destruct (Ascii.eqb_spec c "&"); [reflexivity|].
  destruct (Ascii.eqb_spec c "<"); [reflexivity|].
  destruct (Ascii.eqb_spec c ">"); [reflexivity|].
  destruct (Ascii.eqb_spec c "034"); [reflexivity|].
  destruct (Ascii.eqb_spec c "'"); [reflexivity|].
  cbn [ampersandsEscaped].
  match goal with H : c <> "&"%char |- _ => apply Ascii.eqb_neq in H; rewrite H end.
  reflexivity.
Qed.

Lemma ampersandsEscaped_escapeXml s : ampersandsEscaped (escapeXml s) = true.
Proof.
  rewrite escapeXml_escapeChars. induction s as [|c r IH]; [reflexivity|].
  cbn [escapeChars]. apply ampersandsEscaped_app; [apply ampersandsEscaped_entity|exact IH].
Qed.

Lemma ampersandsEscaped_uint d : ampersandsEscaped (NilEmpty.string_of_uint d) = true.
Proof. induction d; simpl; auto. Qed.

Lemma ampersandsEscaped_ofZ z : ampersandsEscaped (Js.ofZ z) = true.
Proof. unfold Js.ofZ. destruct (Z.to_int z); simpl; apply ampersandsEscaped_uint. Qed.

Lemma ampersandsEscaped_ofNumber o : ampersandsEscaped (Js.ofNumber o) = true.
Proof. destruct o; [apply ampersandsEscaped_ofZ|reflexivity]. Qed.

Lemma ampersandsEscaped_join sep l :
  ampersandsEscaped sep = true ->
  Forall (fun s => ampersandsEscaped s = true) l ->
  ampersandsEscaped (Js.join sep l) = true.
Proof.
  intros Hsep H. induction H as [|x r Hx Hr IH]; [reflexivity|].
  destruct r as [|y r]; [exact Hx|].
  change (Js.join sep (x :: y :: r)) with (x ++ sep ++ Js.join sep (y :: r))%string.
  auto using ampersandsEscaped_app.
Qed.

(** Splits a text along its concatenations and closes each piece: escaped
    text, a number, a piece known to be safe, or a literal of a template. *)
Ltac amp_safe :=
  lazymatch goal with
  | |- ampersandsEscaped (escapeXml _) = true => apply ampersandsEscaped_escapeXml
  | |- ampersandsEscaped (Js.ofZ _) = true => apply ampersandsEscaped_ofZ
  | |- ampersandsEscaped (Js.ofNumber _) = true => apply ampersandsEscaped_ofNumber
  | |- ampersandsEscaped (attr _ _) = true => unfold attr; amp_safe
  | |- ampersandsEscaped (_ ++ _)%string = true =>
      apply ampersandsEscaped_app; amp_safe
  | |- ampersandsEscaped _ = true => first [assumption | reflexivity]
  end.

Lemma ampersandsEscaped_refs (open close indent : string) l :
  ampersandsEscaped indent = true ->
  ampersandsEscaped open = true ->
  ampersandsEscaped close = true ->
  Forall (fun s => ampersandsEscaped s = true)
    (map (fun r => (indent ++ open ++ escapeXml r ++ close)%string) l).
Proof.
  intros Hi Ho Hc. apply Forall_forall. intros x Hx.
  apply in_map_iff in Hx as (r & <- & _). amp_safe.
Qed.

Lemma ampersandsEscaped_flowAttrs e : ampersandsEscaped (flowAttrs e) = true.
Proof.
  unfold flowAttrs. apply ampersandsEscaped_join; [reflexivity|].
  apply Forall_app. split.
  - repeat (constructor; [amp_safe|]). constructor.
  - destruct (BpmnElement.name e) as [[|c s]|]; repeat constructor. amp_safe.
Qed.

Lemma ampersandsEscaped_elementLines e indent :
  ampersandsEscaped indent = true ->
  Forall (fun s => ampersandsEscaped s = true) (elementLines e indent).
Proof.
  intros Hi.
  assert (Hopen : forall tag, ampersandsEscaped tag = true ->
                              ampersandsEscaped (openLine indent tag e) = true)
    by (intros tag Ht; unfold openLine; amp_safe).
  assert (Hclose : forall tag, ampersandsEscaped tag = true ->
                               ampersandsEscaped (closeLine indent tag) = true)
    by (intros tag Ht; unfold closeLine; amp_safe).
  assert (Hdoc : Forall (fun s => ampersandsEscaped s = true) (documentationLines indent e)).
  { unfold documentationLines.
    destruct (BpmnElement.documentation e) as [[|c s]|]; repeat constructor. amp_safe. }
  assert (Hin : Forall (fun s => ampersandsEscaped s = true) (incomingLines indent e)).
  { unfold incomingLines. destruct (BpmnElement.incoming e) as [l|]; [|constructor].
    apply (ampersandsEscaped_refs "  <bpmn:incoming>" "</bpmn:incoming>"); auto. }
  assert (Hout : Forall (fun s => ampersandsEscaped s = true) (outgoingLines indent e)).
  { unfold outgoingLines. destruct (BpmnElement.outgoing e) as [l|]; [|constructor].
    apply (ampersandsEscaped_refs "  <bpmn:outgoing>" "</bpmn:outgoing>"); auto. }
  pose proof (ampersandsEscaped_flowAttrs e) as Hfa.
  unfold elementLines.
  destruct (BpmnElement.type e);
    repeat (apply Forall_app; split); try assumption;
    try (constructor; [|constructor]; first [apply Hopen|apply Hclose]; reflexivity).
  unfold conditionExpressionOpen.
  destruct (BpmnElement.conditionExpression e) as [[|c s]|];
    repeat (constructor; [amp_safe|]); constructor.
Qed.

Lemma ampersandsEscaped_diLines d indent :
  ampersandsEscaped indent = true ->
  Forall (fun s => ampersandsEscaped s = true) (diLines d indent).
Proof.
  intros Hi. unfold diLines. destruct (BpmnDiElement.waypoints d) as [l|].
  - repeat (apply Forall_app; split).
    + constructor; [amp_safe|constructor].
    + apply Forall_forall. intros x Hx. apply in_map_iff in Hx as (wp & <- & _).
      unfold waypointLine. amp_safe.
    + constructor; [amp_safe|constructor].
  - repeat (constructor; [amp_safe|]). constructor.
Qed.

(** In the document every ampersand starts one of the five entities,
    whatever the strings of the graph are. *)
Lemma ampersandsEscaped_generateBpmnXml pid pname pdesc els dis :
  ampersandsEscaped (generateBpmnXml pid pname pdesc els dis) = true.
Proof.
  unfold generateBpmnXml. apply ampersandsEscaped_join; [reflexivity|].
  unfold xmlLines. repeat (apply Forall_app; split).
  - repeat (constructor; [amp_safe|]). constructor.
  - destruct pdesc as [[|c s]|]; repeat constructor. amp_safe.
  - apply Forall_forall. intros x Hx. apply in_map_iff in Hx as (e & <- & _).
    unfold generateElementXml. apply ampersandsEscaped_join; [reflexivity|].
    apply ampersandsEscaped_elementLines. reflexivity.
  - repeat (constructor; [amp_safe|]). constructor.
  - apply Forall_forall. intros x Hx. apply in_map_iff in Hx as (d & <- & _).
    unfold generateDiXml. apply ampersandsEscaped_join; [reflexivity|].
    apply ampersandsEscaped_diLines. reflexivity.
  - repeat (constructor; [amp_safe|]). constructor.
Qed.

(** ** The documentation composer *)

Lemma append_nonempty_l a b : a <> EmptyString -> (a ++ b)%string <> EmptyString.
Proof. destruct a; [congruence|discriminate]. Qed.

Lemma append_nonempty_r a b : b <> EmptyString -> (a ++ b)%string <> EmptyString.
Proof. destruct a; [auto|discriminate]. Qed.

Lemma orStr_nonempty o d : d <> EmptyString -> Js.orStr o d <> EmptyString.
Proof. destruct o as [[|]|]; simpl; auto; discriminate. Qed.

Lemma join_nonempty sep x r : x <> EmptyString -> Js.join sep (x :: r) <> EmptyString.
Proof.
  intros H. destruct r; [exact H|].
  change (Js.join sep (x :: s :: r)) with (x ++ sep ++ Js.join sep (s :: r))%string.
  apply append_nonempty_l. exact H.
Qed.

Lemma Forall_forEachIdx {A : Type} (P : string -> Prop) (k : nat -> A -> list string) l :
  (forall idx x, Forall P (k idx x)) -> forall idx, Forall P (forEachIdx k idx l).
Proof.
  intros H. induction l as [|x l IH]; intros idx; simpl; [constructor|].
  apply Forall_app. auto.
Qed.

Lemma nonEmpty_cons {A : Type} (o : option (list A)) l :
  nonEmpty o = Some l -> exists x r, l = x :: r.
Proof. destruct o as [[|x r]|]; simpl; intros H; inversion H; eauto. Qed.

(** The lines of the composed documentation are labelled lines, apart from
    the line of the type, whose value is empty when no coding has a display
    or a code. *)
Lemma docParts_labelled action :
  Forall (fun line => labelled line \/ line = "Type: ") (docParts action).
Proof.
  unfold docParts. cbn [List.concat]. rewrite app_nil_r.
  repeat (apply Forall_app; split).
  - destruct (FhirAction.description action) as [[|c s]|]; simpl; constructor; auto.
    left. exists "Description", (String c s). split; [reflexivity|discriminate].
  - destruct (FhirAction.textEquivalent action) as [[|c s]|]; simpl; constructor; auto.
    left. exists "Text", (String c s). split; [reflexivity|discriminate].
  - destruct (nonEmpty (codingsOf (FhirAction.type action))) as [coding|]; constructor; auto.
    destruct (Js.join ", " (Js.filterBoolean (map codingLabel coding))) as [|c s] eqn:E.
    + right. reflexivity.
    + left. exists "Type", (String c s). split; [reflexivity|discriminate].
  - destruct (nonEmpty (FhirAction.trigger action)) as [trigger|] eqn:E; constructor; auto.
    left. exists "Triggers", (Js.join "; " (map triggerPair trigger)).
    split; [reflexivity|].
    apply nonEmpty_cons in E as (t & ts & ->). cbn [map]. apply join_nonempty.
    unfold triggerPair. apply append_nonempty_r. discriminate.
  - destruct (nonEmpty (FhirAction.condition action)) as [condition|]; [|constructor].
    apply Forall_forEachIdx. intros idx c. constructor; [|constructor].
    left. exists ("Condition " ++ Js.ofNat (idx + 1))%string,
      (Js.orStr (expressionOf (FhirCondition.expression c)) "condition"
         ++ languageSuffix (FhirCondition.expression c))%string.
    split.
    + unfold conditionLine. rewrite !append_assoc. reflexivity.
    + apply append_nonempty_l, orStr_nonempty. discriminate.
  - destruct (nonEmpty (FhirAction.dynamicValue action)) as [dynamicValue|]; [|constructor].
    apply Forall_forEachIdx. intros idx dv. constructor; [|constructor].
    left. exists ("Dynamic Value " ++ Js.ofNat (idx + 1))%string,
      (Js.orStr (FhirDynamicValue.path dv) "path" ++ " = "
         ++ Js.orStr (expressionOf (FhirDynamicValue.expression dv)) "expression"
         ++ languageSuffix (FhirDynamicValue.expression dv))%string.
    split.
    + unfold dynamicValueLine. rewrite !append_assoc. reflexivity.
    + apply append_nonempty_l, orStr_nonempty. discriminate.
  - destruct (nonEmpty (FhirAction.documentation action)) as [documentation|];
      [|constructor].
    apply Forall_forEachIdx. intros idx doc. unfold documentationLine.
    destruct (FhirDocumentation.display doc) as [[|c s]|]; constructor; auto.
    left. exists ("Documentation " ++ Js.ofNat (idx + 1))%string, (String c s).
    split; [|discriminate]. rewrite !append_assoc. reflexivity.
Qed.

(** C9, on the code. A coding list whose entries have neither a display nor
    a code still produces the line of the type, with nothing after the
    label. *)
Theorem type_line_with_empty_value :
  nonEmpty (codingsOf (FhirAction.type systemOnlyAction)) = Some [systemOnlyCoding]
  /\ Js.filterBoolean (map codingLabel [systemOnlyCoding]) = []
  /\ buildActionDocumentation systemOnlyAction = "Type: ".
Proof. repeat split. Qed.

(** ** Identifiers *)

Lemma ofNat_inj n m : Js.ofNat n = Js.ofNat m -> n = m.
Proof.
  unfold Js.ofNat. intros H.
  apply (f_equal NilEmpty.uint_of_string) in H. rewrite !NilEmpty.usu in H.
  injection H as H. apply (f_equal Nat.of_uint) in H.
  rewrite !DecimalNat.Unsigned.of_to in H. exact H.
Qed.

Lemma idOf_inj ty k ty' k' : idOf ty k = idOf ty' k' -> ty = ty' /\ k = k'.
Proof.
  unfold idOf.
  destruct ty, ty'; cbn [prefixOf append]; intros H; try discriminate H;
    (split; [reflexivity|]); apply ofNat_inj; congruence.
Qed.

Lemma idOf_not_placeholder ty k : idOf ty k <> "temp_incoming".
Proof. unfold idOf. destruct ty; cbn [prefixOf append]; discriminate. Qed.

Lemma wellNamed_fresh f e ty :
  wellNamed f e -> BpmnElement.id e <> idOf ty (S (counterFor ty f)).
Proof.
  intros (k & Hid & Hk) H. rewrite Hid in H.
  apply idOf_inj in H as [<- ->]. lia.
Qed.

Lemma fresh_not_in f ty :
  Forall (wellNamed f) (BpmnFactory.elements f) ->
  ~ In (idOf ty (S (counterFor ty f))) (map BpmnElement.id (BpmnFactory.elements f)).
Proof.
  intros H Hin. apply in_map_iff in Hin as (e & He & Hin).
  rewrite Forall_forall in H. exact (wellNamed_fresh f e ty (H e Hin) He).
Qed.

Lemma hasNode_in f s : hasNode f s -> In s (map BpmnElement.id (BpmnFactory.elements f)).
Proof. intros (n & Hin & <- & _). apply in_map. exact Hin. Qed.

(** ** The linkage invariant *)

Lemma updateFirst_snoc_miss {A : Type} (p : A -> bool) g l x :
  p x = false -> Js.updateFirst p g (l ++ [x]) = (Js.updateFirst p g l ++ [x])%list.
Proof.
  intros Hx. induction l as [|y l IH]; simpl.
  - rewrite Hx. reflexivity.
  - destruct (p y); [reflexivity|]. rewrite IH. reflexivity.
Qed.

Lemma hasId_true s e : BpmnElement.hasId s e = true <-> BpmnElement.id e = s.
Proof. unfold BpmnElement.hasId. apply String.eqb_eq. Qed.

Lemma hasId_false s e : BpmnElement.hasId s e = false <-> BpmnElement.id e <> s.
Proof. unfold BpmnElement.hasId. apply String.eqb_neq. Qed.

Lemma updateFirst_hasId_map s g l :
  NoDup (map BpmnElement.id l) ->
  Js.updateFirst (BpmnElement.hasId s) g l
  = map (fun e => if BpmnElement.hasId s e then g e else e) l.
Proof.
  induction l as [|x r IH]; intros Hnd; [reflexivity|].
  inversion Hnd as [|? ? Hx Hr]; subst. simpl.
  destruct (BpmnElement.hasId s x) eqn:E.
  - f_equal. apply hasId_true in E.
    rewrite <- (map_id r) at 1. apply map_ext_in. intros e He.
    destruct (BpmnElement.hasId s e) eqn:E'; [|reflexivity].
    apply hasId_true in E'. exfalso. apply Hx. rewrite E, <- E'. apply in_map. exact He.
  - f_equal. apply IH. exact Hr.
Qed.

Lemma link_id fid s t e : BpmnElement.id (link fid s t e) = BpmnElement.id e.
Proof.
  unfold link. destruct (BpmnElement.hasId s e);
    match goal with |- context [if ?b then _ else _] => destruct b end; reflexivity.
Qed.

Lemma link_sameCore fid s t e : sameCore e (link fid s t e).
Proof.
  unfold link. destruct (BpmnElement.hasId s e);
    match goal with |- context [if ?b then _ else _] => destruct b end;
    unfold sameCore; simpl; repeat split.
Qed.

Lemma link_isFlow fid s t e : isFlow (link fid s t e) = isFlow e.
Proof. unfold isFlow. destruct (link_sameCore fid s t e) as (_ & -> & _). reflexivity. Qed.

Lemma link_flowFrom fid s t x e : flowFrom x (link fid s t e) = flowFrom x e.
Proof.
  unfold flowFrom. rewrite link_isFlow.
  destruct (link_sameCore fid s t e) as (_ & _ & _ & _ & -> & _). reflexivity.
Qed.

Lemma link_flowTo fid s t x e : flowTo x (link fid s t e) = flowTo x e.
Proof.
  unfold flowTo. rewrite link_isFlow.
  destruct (link_sameCore fid s t e) as (_ & _ & _ & _ & _ & -> & _). reflexivity.
Qed.

Lemma link_outgoing fid s t e :
  listOf (BpmnElement.outgoing (link fid s t e))
  = (listOf (BpmnElement.outgoing e)
     ++ if String.eqb (BpmnElement.id e) s then [fid] else [])%list.
Proof.
  unfold link, BpmnElement.hasId.
  destruct (String.eqb (BpmnElement.id e) s); cbn [BpmnElement.pushOutgoing BpmnElement.id];
    match goal with |- context [if ?b then _ else _] => destruct b end;
    cbn; rewrite ?app_nil_r; destruct (BpmnElement.outgoing e); reflexivity.
Qed.

Lemma link_incoming fid s t e :
  listOf (BpmnElement.incoming (link fid s t e))
  = (listOf (BpmnElement.incoming e)
     ++ if String.eqb (BpmnElement.id e) t then [fid] else [])%list.
Proof.
  unfold link, BpmnElement.hasId.
  destruct (String.eqb (BpmnElement.id e) s); cbn [BpmnElement.pushOutgoing BpmnElement.id];
    destruct (String.eqb (BpmnElement.id e) t);
    cbn; rewrite ?app_nil_r; destruct (BpmnElement.incoming e); reflexivity.
Qed.

Lemma map_id_link fid s t l :
  map BpmnElement.id (map (link fid s t) l) = map BpmnElement.id l.
Proof. rewrite map_map. apply map_ext. intros e. apply link_id. Qed.

Lemma filter_link (p : string -> BpmnElement.t -> bool) fid s t x l :
  (forall e, p x (link fid s t e) = p x e) ->
  map BpmnElement.id (filter (p x) (map (link fid s t) l))
  = map BpmnElement.id (filter (p x) l).
Proof.
  intros Hp. induction l as [|e l IH]; [reflexivity|].
  simpl. rewrite Hp. destruct (p x e); simpl; rewrite ?link_id, IH; reflexivity.
Qed.

(** The elements after [createSequenceFlow], when the identifiers are
    pairwise distinct and the flow gets a new one. *)
Lemma createSequenceFlow_elements s t ce nm f :
  NoDup (map BpmnElement.id (BpmnFactory.elements f)) ->
  s <> nextFlowId f -> t <> nextFlowId f ->
  BpmnFactory.elements (snd (BpmnFactory.createSequenceFlow s t ce nm f))
  = (map (link (nextFlowId f) s t) (BpmnFactory.elements f)
     ++ [flowElement (nextFlowId f) s t ce nm])%list.
Proof.
  intros Hnd Hs Ht.
  destruct (createSequenceFlow_spec s t ce nm f) as (_ & -> & _).
  rewrite updateFirst_snoc_miss
    by (apply hasId_false; cbn [flowElement BpmnElement.id]; congruence).
  rewrite (updateFirst_hasId_map s) by exact Hnd.
  rewrite updateFirst_snoc_miss
    by (apply hasId_false; cbn [flowElement BpmnElement.id]; congruence).
  rewrite (updateFirst_hasId_map t).
  - rewrite map_map. reflexivity.
  - rewrite map_map. erewrite map_ext; [exact Hnd|].
    intros e. cbn beta. destruct (BpmnElement.hasId s e); reflexivity.
Qed.

Lemma NoDup_snoc {A : Type} (l : list A) x : NoDup l -> ~ In x l -> NoDup (l ++ [x]).
Proof.
  induction l as [|y l IH]; intros Hnd Hx; simpl.
  - constructor; [intros []|constructor].
  - inversion Hnd; subst. constructor.
    + rewrite in_app_iff. simpl. intros [H|[H|[]]]; [auto|]. subst. apply Hx. left. reflexivity.
    + apply IH; [assumption|]. intros H. apply Hx. right. exact H.
Qed.

Lemma wellNamed_mono f f' e :
  BpmnFactory.elementCounter f <= BpmnFactory.elementCounter f' ->
  BpmnFactory.flowCounter f <= BpmnFactory.flowCounter f' ->
  wellNamed f e -> wellNamed f' e.
Proof.
  intros H1 H2 (k & Hid & Hk). exists k. split; [exact Hid|].
  unfold counterFor in *. destruct (BpmnElement.type e); lia.
Qed.

Lemma filter_none {A : Type} (p : A -> bool) l :
  (forall x, In x l -> p x = false) -> filter p l = [].
Proof.
  induction l as [|y l IH]; intros H; [reflexivity|].
  simpl. rewrite (H y (or_introl eq_refl)). apply IH. intros x Hx. apply H. right. exact Hx.
Qed.

Lemma no_flow_from_fresh f x :
  Linked f -> ~ In x (map BpmnElement.id (BpmnFactory.elements f)) ->
  filter (flowFrom x) (BpmnFactory.elements f) = []
  /\ filter (flowTo x) (BpmnFactory.elements f) = [].
Proof.
  intros L Hx.
  assert (H : forall fl, In fl (BpmnFactory.elements f) ->
                         flowFrom x fl = false /\ flowTo x fl = false).
  { intros fl Hin. unfold flowFrom, flowTo. destruct (isFlow fl) eqn:E; [|auto].
    destruct (linked_refs f L fl Hin E) as (s & t & -> & -> & Hs & Ht). simpl.
    split; apply String.eqb_neq; intros ->; apply Hx; auto using hasNode_in. }
  split; apply filter_none; intros fl Hin; apply H; exact Hin.
Qed.

Lemma Linked_new : Linked BpmnFactory.new.
Proof.
  constructor; simpl; try constructor; intros ? [].
Qed.

Lemma hasNode_afterNode_old e w h f s : hasNode f s -> hasNode (afterNode e w h f) s.
Proof.
  intros (n & Hin & Hid & Hfl). exists n. split; [|auto].
  cbn [afterNode BpmnFactory.elements]. apply in_or_app. left. exact Hin.
Qed.

Lemma hasNode_afterNode_new e w h f :
  isFlow e = false -> hasNode (afterNode e w h f) (BpmnElement.id e).
Proof.
  intros H. exists e. split; [|auto].
  cbn [afterNode BpmnFactory.elements]. apply in_or_app. right. left. reflexivity.
Qed.

(** A creator called by the walker keeps the invariant. *)
Lemma Linked_node e w h f :
  Linked f ->
  isFlow e = false ->
  BpmnElement.id e = idOf (BpmnElement.type e) (S (BpmnFactory.elementCounter f)) ->
  listOf (BpmnElement.outgoing e) = [] ->
  listOf (BpmnElement.incoming e) = seedOf (BpmnElement.type e) ->
  Linked (afterNode e w h f).
Proof.
  intros L Hfl Hid Hout Hin.
  assert (Hcnt : counterFor (BpmnElement.type e) f = BpmnFactory.elementCounter f).
  { unfold isFlow in Hfl. unfold counterFor. destruct (BpmnElement.type e); try reflexivity.
    discriminate. }
  assert (Hfresh : ~ In (BpmnElement.id e) (map BpmnElement.id (BpmnFactory.elements f))).
  { rewrite Hid, <- Hcnt. apply fresh_not_in. apply (linked_named f L). }
  destruct (no_flow_from_fresh f _ L Hfresh) as [Hnf Hnt].
  constructor; cbn [afterNode BpmnFactory.elements].
  - apply Forall_app. split.
    + eapply Forall_impl; [|apply (linked_named f L)].
      intros a. apply wellNamed_mono; cbn; lia.
    + constructor; [|constructor].
      exists (S (BpmnFactory.elementCounter f)). split; [exact Hid|].
      unfold counterFor. cbn. unfold isFlow in Hfl.
      destruct (BpmnElement.type e); try lia. discriminate Hfl.
  - rewrite map_app. apply NoDup_snoc; [apply (linked_nodup f L)|exact Hfresh].
  - intros fl Hfin Hflow. apply in_app_or in Hfin as [Hfin|[<-|[]]]; [|congruence].
    destruct (linked_refs f L fl Hfin Hflow) as (s & t & Hs & Ht & Ns & Nt).
    exists s, t. auto using hasNode_afterNode_old.
  - intros n Hn Hnode. rewrite filter_app, map_app.
    replace (filter (flowFrom (BpmnElement.id n)) [e]) with (@nil BpmnElement.t)
      by (simpl; unfold flowFrom; rewrite Hfl; reflexivity).
    rewrite app_nil_r.
    apply in_app_or in Hn as [Hn|[<-|[]]].
    + apply (linked_out f L n Hn Hnode).
    + rewrite Hnf, Hout. reflexivity.
  - intros n Hn Hnode. rewrite filter_app, map_app.
    replace (filter (flowTo (BpmnElement.id n)) [e]) with (@nil BpmnElement.t)
      by (simpl; unfold flowTo; rewrite Hfl; reflexivity).
    rewrite app_nil_r.
    apply in_app_or in Hn as [Hn|[<-|[]]].
    + apply (linked_in f L n Hn Hnode).
    + rewrite Hnt, Hin. cbn [map]. rewrite app_nil_r. reflexivity.
Qed.

Lemma nextFlowId_idOf f : nextFlowId f = idOf sequenceFlow (S (counterFor sequenceFlow f)).
Proof. reflexivity. Qed.

Lemma nextFlowId_fresh f :
  Linked f -> ~ In (nextFlowId f) (map BpmnElement.id (BpmnFactory.elements f)).
Proof. intros L. rewrite nextFlowId_idOf. apply fresh_not_in, (linked_named f L). Qed.

Lemma hasNode_not_fresh f s : Linked f -> hasNode f s -> s <> nextFlowId f.
Proof.
  intros L H ->. apply (nextFlowId_fresh f L). apply hasNode_in. exact H.
Qed.

Lemma createSequenceFlow_linked_elements s t ce nm f :
  Linked f -> hasNode f s -> hasNode f t ->
  BpmnFactory.elements (snd (BpmnFactory.createSequenceFlow s t ce nm f))
  = (map (link (nextFlowId f) s t) (BpmnFactory.elements f)
     ++ [flowElement (nextFlowId f) s t ce nm])%list.
Proof.
  intros L Hs Ht. apply createSequenceFlow_elements.
  - apply (linked_nodup f L).
  - apply hasNode_not_fresh; assumption.
  - apply hasNode_not_fresh; assumption.
Qed.

Lemma hasNode_afterFlow s t ce nm f x :
  Linked f -> hasNode f s -> hasNode f t -> hasNode f x ->
  hasNode (snd (BpmnFactory.createSequenceFlow s t ce nm f)) x.
Proof.
  intros L Hs Ht (n & Hin & Hid & Hfl).
  exists (link (nextFlowId f) s t n).
  rewrite (createSequenceFlow_linked_elements s t ce nm f L Hs Ht).
  rewrite link_id, link_isFlow. split; [|auto].
  apply in_or_app. left. apply in_map. exact Hin.
Qed.

Lemma flowFrom_flowElement x fid s t ce nm :
  flowFrom x (flowElement fid s t ce nm) = String.eqb s x.
Proof. reflexivity. Qed.

Lemma flowTo_flowElement x fid s t ce nm :
  flowTo x (flowElement fid s t ce nm) = String.eqb t x.
Proof. reflexivity. Qed.

(** [createSequenceFlow] between two nodes of the graph keeps the
    invariant. *)
Lemma Linked_flow s t ce nm f :
  Linked f -> hasNode f s -> hasNode f t ->
  Linked (snd (BpmnFactory.createSequenceFlow s t ce nm f)).
Proof.
  intros L Hs Ht.
  pose proof (createSequenceFlow_linked_elements s t ce nm f L Hs Ht) as Hel.
  pose proof (fun x => hasNode_afterFlow s t ce nm f x L Hs Ht) as Hmono.
  destruct (createSequenceFlow_spec s t ce nm f) as (_ & _ & _ & Hec & Hfc & _).
  set (f' := snd (BpmnFactory.createSequenceFlow s t ce nm f)) in *.
  set (fid := nextFlowId f) in *. clearbody f'.
  assert (Hflow : isFlow (flowElement fid s t ce nm) = true) by reflexivity.
  constructor; rewrite Hel.
  - apply Forall_app. split.
    + apply Forall_forall. intros e' He'. apply in_map_iff in He' as (e & <- & He).
      pose proof (linked_named f L) as Hn. rewrite Forall_forall in Hn.
      destruct (Hn e He) as (k & Hid & Hk).
      destruct (link_sameCore fid s t e) as (Hid' & Hty' & _).
      exists k. rewrite Hid', Hty'. split; [exact Hid|].
      unfold counterFor in *. destruct (BpmnElement.type e); lia.
    + constructor; [|constructor].
      exists (S (BpmnFactory.flowCounter f)). split; [reflexivity|].
      cbn. lia.
  - rewrite map_app, map_id_link. apply NoDup_snoc; [apply (linked_nodup f L)|].
    apply (nextFlowId_fresh f L).
  - intros fl Hin Hfl. apply in_app_or in Hin as [Hin|[<-|[]]].
    + apply in_map_iff in Hin as (e & <- & He). rewrite link_isFlow in Hfl.
      destruct (linked_refs f L e He Hfl) as (s0 & t0 & Hs0 & Ht0 & Ns & Nt).
      destruct (link_sameCore fid s t e) as (_ & _ & _ & _ & Hsr & Htr & _).
      exists s0, t0. rewrite Hsr, Htr. auto.
    + exists s, t. cbn. auto.
  - intros n' Hin Hnode. apply in_app_or in Hin as [Hin|[<-|[]]]; [|congruence].
    apply in_map_iff in Hin as (n & <- & Hn). rewrite link_isFlow in Hnode.
    rewrite link_outgoing, link_id, filter_app, map_app.
    rewrite (filter_link flowFrom) by (intros; apply link_flowFrom).
    rewrite (linked_out f L n Hn Hnode). f_equal.
    cbn [filter]. rewrite flowFrom_flowElement, (String.eqb_sym s). destruct (String.eqb (BpmnElement.id n) s);
      reflexivity.
  - intros n' Hin Hnode. apply in_app_or in Hin as [Hin|[<-|[]]]; [|congruence].
    apply in_map_iff in Hin as (n & <- & Hn). rewrite link_isFlow in Hnode.
    rewrite link_incoming, link_id, filter_app, map_app.
    rewrite (filter_link flowTo) by (intros; apply link_flowTo).
    rewrite (linked_in f L n Hn Hnode), <- app_assoc.
    destruct (link_sameCore fid s t n) as (_ & -> & _). f_equal. f_equal.
    cbn [filter]. rewrite flowTo_flowElement, (String.eqb_sym t). destruct (String.eqb (BpmnElement.id n) t);
      reflexivity.
Qed.

(** ** The walker builds a chain *)

Lemma FhirAction_ind_nested (P : FhirAction.t -> Prop) :
  (forall id title description textEquivalent documentation trigger condition
          relatedAction type dynamicValue action,
      Forall P (listOf action) ->
      P (FhirAction.mk id title description textEquivalent documentation trigger condition
           relatedAction type dynamicValue action)) ->
  forall a, P a.
Proof.
  intros H. fix IH 1. intros [id title description textEquivalent documentation trigger
                                condition relatedAction type dynamicValue action].
  apply H. destruct action as [l|]; simpl; [|constructor].
  induction l as [|a l IHl]; constructor; [apply IH|exact IHl].
Qed.

Lemma processAction_eq action i w :
  processAction action i w
  = match FhirAction.action action with
    | Some (a :: rest) =>
        processActionsFrom (a :: rest) 0 (taskStep action i (triggerStep action w))
    | _ => taskStep action i (triggerStep action w)
    end.
Proof. destruct action as [? ? ? ? ? ? ? ? ? ? [[|a rest]|]]; reflexivity. Qed.

Lemma chainNode_node f ty name doc :
  ty <> startEvent -> ty <> sequenceFlow ->
  chainNode f (nodeElement (idOf ty (S (BpmnFactory.elementCounter f))) ty name doc
                 (Some ["temp_incoming"]) (Some [])).
Proof.
  intros H1 H2. unfold chainNode, isFlow. cbn. repeat split; auto.
  destruct ty; try reflexivity. contradiction.
Qed.

Lemma triggerStep_chain action f last :
  Chain f last ->
  Chain (fst (triggerStep action (f, last))) (snd (triggerStep action (f, last))).
Proof.
  intros C. destruct (nonEmpty (FhirAction.trigger action)) as [trigger|] eqn:E.
  - rewrite (triggerStep_some _ _ _ _ E). cbn [fst snd].
    apply (Chain_step f last
             (nodeElement (idOf intermediateEvent (S (BpmnFactory.elementCounter f)))
                intermediateEvent (triggerEventName trigger)
                (Some (buildActionDocumentation action)) (Some ["temp_incoming"]) (Some []))
             None None C).
    apply chainNode_node; discriminate.
  - rewrite (triggerStep_none _ _ E). exact C.
Qed.

Lemma taskStep_chain action i f last :
  Chain f last ->
  Chain (fst (taskStep action i (f, last))) (snd (taskStep action i (f, last))).
Proof.
  intros C. destruct (nonEmpty (FhirAction.condition action)) as [[|c rest]|] eqn:E.
  - unfold nonEmpty in E. destruct (FhirAction.condition action) as [[|]|]; discriminate.
  - rewrite (taskStep_condition _ i _ _ f last E). cbn zeta. cbn [fst snd].
    set (gw := nodeElement (nextId "Gateway" f) exclusiveGateway (decisionName c) None
                 (Some ["temp_incoming"]) (Some [])).
    assert (C1 : Chain (snd (BpmnFactory.createSequenceFlow last (BpmnElement.id gw) None None
                               (afterNode gw (widthOf exclusiveGateway)
                                  (heightOf exclusiveGateway) f)))
                   (BpmnElement.id gw)).
    { apply (Chain_step f last gw None None C). apply chainNode_node; discriminate. }
    set (f2 := snd (BpmnFactory.createSequenceFlow last _ None None _)) in *.
    apply (Chain_step f2 (BpmnElement.id gw)
             (nodeElement (nextId "Task" f2) task (actionName action i)
                (Some (buildActionDocumentation action)) (Some ["temp_incoming"]) (Some []))
             (expressionOf (FhirCondition.expression c)) (Some "Yes") C1).
    apply chainNode_node; discriminate.
  - rewrite (taskStep_plain _ i f last E). cbn zeta. cbn [fst snd].
    apply (Chain_step f last
             (nodeElement (nextId "Task" f) task (actionName action i)
                (Some (buildActionDocumentation action)) (Some ["temp_incoming"]) (Some []))
             None None C).
    apply chainNode_node; discriminate.
Qed.

Lemma processAction_chain action :
  forall i f last,
    Chain f last ->
    Chain (fst (processAction action i (f, last))) (snd (processAction action i (f, last))).
Proof.
  induction action as [id title description textEquivalent documentation trigger
                         condition relatedAction type dynamicValue action IH]
    using FhirAction_ind_nested.
  intros i f last C. rewrite processAction_eq.
  set (a := FhirAction.mk id title description textEquivalent documentation trigger
              condition relatedAction type dynamicValue action) in *.
  assert (C2 : Chain (fst (taskStep a i (triggerStep a (f, last))))
                 (snd (taskStep a i (triggerStep a (f, last))))).
  { pose proof (triggerStep_chain a f last C) as C1.
    destruct (triggerStep a (f, last)) as [f1 last1]. apply taskStep_chain. exact C1. }
  cbn [FhirAction.action a].
  destruct action as [[|x rest]|]; try exact C2.
  cbn [listOf] in IH.
  generalize dependent (taskStep a i (triggerStep a (f, last))).
  generalize 0. clear C. revert IH. generalize (x :: rest). clear.
  intros l IH. induction IH as [|y l Hy _ IHl]; intros n w Cw; [exact Cw|].
  cbn [processActionsFrom]. apply IHl. destruct w as [fw lw]. apply Hy. exact Cw.
Qed.

Lemma processActionsFrom_chain actions :
  forall i f last,
    Chain f last ->
    Chain (fst (processActionsFrom actions i (f, last)))
      (snd (processActionsFrom actions i (f, last))).
Proof.
  induction actions as [|a l IH]; intros i f last C; [exact C|].
  cbn [processActionsFrom].
  pose proof (processAction_chain a i f last C) as C1.
  destruct (processAction a i (f, last)) as [f1 last1]. apply IH. exact C1.
Qed.

(** The graph of a document is a chain that ends on its end event. *)
Lemma buildGraph_chain pd :
  exists f last e ce nm,
    Chain f last /\ chainNode f e /\ BpmnElement.type e = endEvent
    /\ fst (buildGraph pd)
       = snd (BpmnFactory.createSequenceFlow last (BpmnElement.id e) ce nm
                (afterNode e (widthOf endEvent) (heightOf endEvent) f)).
Proof.
  unfold buildGraph. rewrite createStartEvent_spec.
  change (afterNode _ _ _ BpmnFactory.new)
    with (afterNode startElement BpmnFactory.EVENT_SIZE BpmnFactory.EVENT_SIZE
            BpmnFactory.new).
  change (nextId "StartEvent" BpmnFactory.new) with "StartEvent_1".
  assert (C : exists f last log,
             Chain f last
             /\ match nonEmpty (FhirPlanDefinition.action pd) with
                | Some action =>
                    let '(factory, lastElementId) :=
                      processActions
                        (afterNode startElement BpmnFactory.EVENT_SIZE
                           BpmnFactory.EVENT_SIZE BpmnFactory.new) action "StartEvent_1" in
                    (factory, lastElementId, [])
                | None =>
                    (afterNode startElement BpmnFactory.EVENT_SIZE BpmnFactory.EVENT_SIZE
                       BpmnFactory.new, "StartEvent_1",
                     [console_warn "PlanDefinition has no actions"])
                end = (f, last, log)).
  { destruct (nonEmpty (FhirPlanDefinition.action pd)) as [action|].
    - unfold processActions.
      pose proof (processActionsFrom_chain action 0 _ _ Chain_start) as C.
      destruct (processActionsFrom action 0 _) as [f last]. eauto.
    - do 3 eexists. split; [exact Chain_start|reflexivity]. }
  destruct C as (f & last & log & C & ->).
  rewrite createEndEvent_spec.
  destruct (BpmnFactory.createSequenceFlow last _ None None _) as [fid f'] eqn:E.
  exists f, last,
    (BpmnElement.mk (nextId "EndEvent" f) endEvent (Some "End") None (Some ["temp_incoming"])
       None None None None None), None, None.
  split; [exact C|]. split.
  - unfold chainNode, isFlow. cbn. repeat split. discriminate.
  - split; [reflexivity|]. cbn [fst BpmnElement.id]. 
    change (widthOf endEvent) with BpmnFactory.EVENT_SIZE.
    change (heightOf endEvent) with BpmnFactory.EVENT_SIZE.
    rewrite E. reflexivity.
Qed.

(** ** Every graph of the walker is linked *)

Lemma Chain_linked f last : Chain f last -> Linked f /\ hasNode f last.
Proof.
  induction 1 as [|f last e ce nm C [L N] (Hfl & Hns & Hid & Hout & Hin)].
  - split.
    + apply Linked_node; try reflexivity. exact Linked_new.
    + apply (hasNode_afterNode_new startElement). reflexivity.
  - set (f1 := afterNode e (widthOf (BpmnElement.type e)) (heightOf (BpmnElement.type e)) f).
    assert (L1 : Linked f1).
    { apply Linked_node; auto. rewrite Hin.
      destruct (BpmnElement.type e); try reflexivity. contradiction. }
    assert (N1 : hasNode f1 last) by (apply hasNode_afterNode_old; exact N).
    assert (N2 : hasNode f1 (BpmnElement.id e)) by (apply hasNode_afterNode_new; exact Hfl).
    split.
    + apply Linked_flow; assumption.
    + apply hasNode_afterFlow; assumption.
Qed.

Lemma buildGraph_linked pd : Linked (fst (buildGraph pd)).
Proof.
  destruct (buildGraph_chain pd) as (f & last & e & ce & nm & C & N & Hty & ->).
  rewrite <- Hty. exact (proj1 (Chain_linked _ _ (Chain_step f last e ce nm C N))).
Qed.

Lemma Linked_flow_id f fl :
  Linked f -> In fl (BpmnFactory.elements f) -> BpmnElement.id fl <> "temp_incoming".
Proof.
  intros L Hin. pose proof (linked_named f L) as H. rewrite Forall_forall in H.
  destruct (H fl Hin) as (k & -> & _). apply idOf_not_placeholder.
Qed.

Lemma Linked_in_filter f (p : BpmnElement.t -> bool) fl :
  Linked f -> In fl (BpmnFactory.elements f) -> p fl = true ->
  count_occ string_dec (map BpmnElement.id (filter p (BpmnFactory.elements f)))
    (BpmnElement.id fl) = 1.
Proof.
  intros L Hin Hp. apply NoDup_count_occ'.
  - pose proof (linked_nodup f L) as Hnd. revert Hnd. generalize (BpmnFactory.elements f).
    intros l. induction l as [|x l IH]; intros Hnd; simpl; [constructor|].
    inversion Hnd as [|? ? Hx Hl]; subst. destruct (p x); simpl; [|auto].
    constructor; [|auto]. intros Hc. apply Hx. apply in_map_iff in Hc as (y & Hy & Hc).
    apply filter_In in Hc as [Hc _]. rewrite <- Hy. apply in_map. exact Hc.
  - apply in_map. apply filter_In. auto.
Qed.

(** The part of the linkage that holds in a linked graph: the identifier of
    a flow occurs once in the [outgoing] list of its source and once in the
    [incoming] list of its target, both of which are nodes of the graph; an
    [outgoing] list holds flows that leave the node only; an [incoming] list
    holds the placeholder and flows that reach the node only. *)
Lemma Linked_linkage f :
  Linked f ->
  (forall fl, In fl (BpmnFactory.elements f) -> isFlow fl = true ->
     exists ns nt,
       In ns (BpmnFactory.elements f) /\ In nt (BpmnFactory.elements f)
       /\ isFlow ns = false /\ isFlow nt = false
       /\ BpmnElement.sourceRef fl = Some (BpmnElement.id ns)
       /\ BpmnElement.targetRef fl = Some (BpmnElement.id nt)
       /\ count_occ string_dec (listOf (BpmnElement.outgoing ns)) (BpmnElement.id fl) = 1
       /\ count_occ string_dec (listOf (BpmnElement.incoming nt)) (BpmnElement.id fl) = 1)
  /\ (forall n i, In n (BpmnFactory.elements f) -> isFlow n = false ->
        In i (listOf (BpmnElement.outgoing n)) ->
        exists fl, In fl (BpmnFactory.elements f) /\ isFlow fl = true
                   /\ BpmnElement.id fl = i
                   /\ BpmnElement.sourceRef fl = Some (BpmnElement.id n))
  /\ (forall n i, In n (BpmnFactory.elements f) -> isFlow n = false ->
        In i (listOf (BpmnElement.incoming n)) ->
        i = "temp_incoming"
        \/ exists fl, In fl (BpmnFactory.elements f) /\ isFlow fl = true
                      /\ BpmnElement.id fl = i
                      /\ BpmnElement.targetRef fl = Some (BpmnElement.id n)).
Proof.
  intros L. split; [|split].
  - intros fl Hin Hfl.
    destruct (linked_refs f L fl Hin Hfl)
      as (s & t & Hs & Ht & (ns & Hns & <- & Fns) & (nt & Hnt & <- & Fnt)).
    exists ns, nt. repeat (split; [assumption|]). split.
    + rewrite (linked_out f L ns Hns Fns). apply Linked_in_filter; auto.
      unfold flowFrom. rewrite Hfl, Hs. simpl. apply String.eqb_refl.
    + rewrite (linked_in f L nt Hnt Fnt), count_occ_app.
      rewrite (Linked_in_filter f (flowTo (BpmnElement.id nt)) fl L Hin)
        by (unfold flowTo; rewrite Hfl, Ht; simpl; apply String.eqb_refl).
      replace (count_occ string_dec (seedOf (BpmnElement.type nt)) (BpmnElement.id fl))
        with 0; [reflexivity|].
      symmetry. apply count_occ_not_In. intros Hc.
      apply (Linked_flow_id f fl L Hin).
      destruct (BpmnElement.type nt); simpl in Hc; intuition congruence.
  - intros n i Hn Fn Hi. rewrite (linked_out f L n Hn Fn) in Hi.
    apply in_map_iff in Hi as (fl & <- & Hfl). apply filter_In in Hfl as [Hin Hp].
    unfold flowFrom in Hp. apply andb_true_iff in Hp as [Hp1 Hp2].
    exists fl. repeat (split; [assumption|]). split; [reflexivity|].
    unfold refIs in Hp2. destruct (BpmnElement.sourceRef fl); [|discriminate].
    apply String.eqb_eq in Hp2. congruence.
  - intros n i Hn Fn Hi. rewrite (linked_in f L n Hn Fn) in Hi.
    apply in_app_or in Hi as [Hi|Hi].
    + left. destruct (BpmnElement.type n); simpl in Hi; intuition congruence.
    + right. apply in_map_iff in Hi as (fl & <- & Hfl). apply filter_In in Hfl as [Hin Hp].
      unfold flowTo in Hp. apply andb_true_iff in Hp as [Hp1 Hp2].
      exists fl. repeat (split; [assumption|]). split; [reflexivity|].
      unfold refIs in Hp2. destruct (BpmnElement.targetRef fl); [|discriminate].
      apply String.eqb_eq in Hp2. congruence.
Qed.

(** X18. In the graph of every document: the identifier
    of a flow occurs once in the [outgoing] list of its source and once in the
    [incoming] list of its target, both of which are nodes of the graph; the
    [outgoing] list of a node holds nothing but flows that leave it; the
    [incoming] list of a node holds nothing but the placeholder and flows that
    reach it; and the placeholder, which is the identifier of no element,
    stays in the [incoming] list of every node but the start event. *)
Theorem linkage_of_graph pd :
  let f := fst (buildGraph pd) in
  (forall fl, In fl (BpmnFactory.elements f) -> isFlow fl = true ->
     exists ns nt,
       In ns (BpmnFactory.elements f) /\ In nt (BpmnFactory.elements f)
       /\ isFlow ns = false /\ isFlow nt = false
       /\ BpmnElement.sourceRef fl = Some (BpmnElement.id ns)
       /\ BpmnElement.targetRef fl = Some (BpmnElement.id nt)
       /\ count_occ string_dec (listOf (BpmnElement.outgoing ns)) (BpmnElement.id fl) = 1
       /\ count_occ string_dec (listOf (BpmnElement.incoming nt)) (BpmnElement.id fl) = 1)
  /\ (forall n i, In n (BpmnFactory.elements f) -> isFlow n = false ->
        In i (listOf (BpmnElement.outgoing n)) ->
        exists fl, In fl (BpmnFactory.elements f) /\ isFlow fl = true
                   /\ BpmnElement.id fl = i
                   /\ BpmnElement.sourceRef fl = Some (BpmnElement.id n))
  /\ (forall n i, In n (BpmnFactory.elements f) -> isFlow n = false ->
        In i (listOf (BpmnElement.incoming n)) ->
        i = "temp_incoming"
        \/ exists fl, In fl (BpmnFactory.elements f) /\ isFlow fl = true
                      /\ BpmnElement.id fl = i
                      /\ BpmnElement.targetRef fl = Some (BpmnElement.id n))
  /\ (forall n, In n (BpmnFactory.elements f) -> isFlow n = false ->
        BpmnElement.type n <> startEvent ->
        count_occ string_dec (listOf (BpmnElement.incoming n)) "temp_incoming" = 1)
  /\ (forall e, In e (BpmnFactory.elements f) -> BpmnElement.id e <> "temp_incoming").
Proof.
  intros f. pose proof (buildGraph_linked pd) as L. fold f in L.
  destruct (Linked_linkage f L) as (H1 & H2 & H3).
  split; [exact H1|]. split; [exact H2|]. split; [exact H3|]. split.
  - intros n Hn Fn Hty. rewrite (linked_in f L n Hn Fn), count_occ_app.
    replace (count_occ string_dec
               (map BpmnElement.id
                  (filter (flowTo (BpmnElement.id n)) (BpmnFactory.elements f)))
               "temp_incoming") with 0.
    + destruct (BpmnElement.type n); try reflexivity. contradiction.
    + symmetry. apply count_occ_not_In. intros Hc.
      apply in_map_iff in Hc as (fl & Hid & Hfl). apply filter_In in Hfl as [Hfl _].
      exact (Linked_flow_id f fl L Hfl Hid).
  - intros e He. apply (Linked_flow_id f e L He).
Qed.

Lemma linkage_of_graph_witness :
  let f := fst (buildGraph samplePlanDefinition) in
  exists ns nt,
    In ns (BpmnFactory.elements f) /\ In nt (BpmnFactory.elements f)
    /\ BpmnElement.id ns = "Gateway_3" /\ BpmnElement.id nt = "Task_4"
    /\ count_occ string_dec (listOf (BpmnElement.outgoing ns)) "Flow_3" = 1
    /\ count_occ string_dec (listOf (BpmnElement.incoming nt)) "Flow_3" = 1.
Proof.
  intros f.
  assert (Hin : In (flowElement "Flow_3" "Gateway_3" "Task_4" (Some "patient.age >= 18")
                      (Some "Yes"))
                  (BpmnFactory.elements f)).
  { vm_compute. do 6 right. left. reflexivity. }
  destruct (proj1 (linkage_of_graph samplePlanDefinition) _ Hin eq_refl)
    as (ns & nt & Hns & Hnt & _ & _ & Hs & Ht & Hout & Hinc).
  exists ns, nt. cbn in Hs, Ht. injection Hs as Hs. injection Ht as Ht.
  split; [exact Hns|]. split; [exact Hnt|]. split; [symmetry; exact Hs|].
  split; [symmetry; exact Ht|]. split; [exact Hout|exact Hinc].
Defined.

(** ** The layout invariant *)

Lemma find_app_some {A : Type} (p : A -> bool) l l' x :
  find p l = Some x -> find p (l ++ l') = Some x.
Proof.
  induction l as [|y l IH]; simpl; [discriminate|].
  destruct (p y); auto.
Qed.

Lemma find_app_none {A : Type} (p : A -> bool) l l' :
  find p l = None -> find p (l ++ l') = find p l'.
Proof.
  induction l as [|y l IH]; simpl; [reflexivity|].
  destruct (p y); [discriminate|auto].
Qed.

Lemma find_all_false {A : Type} (p : A -> bool) l :
  (forall x, In x l -> p x = false) -> find p l = None.
Proof.
  induction l as [|y l IH]; intros H; [reflexivity|].
  simpl. rewrite (H y (or_introl eq_refl)). apply IH. intros x Hx. apply H. right. exact Hx.
Qed.

Lemma getDiElement_fresh f x :
  (forall d, In d (BpmnFactory.diElements f) ->
     In (BpmnDiElement.bpmnElement d) (map BpmnElement.id (BpmnFactory.elements f))) ->
  ~ In x (map BpmnElement.id (BpmnFactory.elements f)) ->
  find (BpmnDiElement.isFor x) (BpmnFactory.diElements f) = None.
Proof.
  intros H Hx. apply find_all_false. intros d Hd.
  unfold BpmnDiElement.isFor. apply String.eqb_neq. intros E. apply Hx. rewrite <- E.
  apply H. exact Hd.
Qed.

Lemma cursorAfter_app x l1 l2 :
  cursorAfter x (l1 ++ l2) = cursorAfter (cursorAfter x l1) l2.
Proof. revert x. induction l1 as [|n l1 IH]; intros x; simpl; auto. Qed.

Lemma layoutFrom_app x l1 l2 :
  layoutFrom x (l1 ++ l2) = (layoutFrom x l1 ++ layoutFrom (cursorAfter x l1) l2)%list.
Proof. revert x. induction l1 as [|n l1 IH]; intros x; simpl; [|rewrite IH]; reflexivity. Qed.

Lemma nodesOf_link fid s t l :
  nodesOf (map (link fid s t) l) = map (link fid s t) (nodesOf l).
Proof.
  unfold nodesOf. induction l as [|e l IH]; [reflexivity|].
  simpl. rewrite link_isFlow. destruct (isFlow e); simpl; rewrite IH; reflexivity.
Qed.

Lemma cursorAfter_link fid s t x l :
  cursorAfter x (map (link fid s t) l) = cursorAfter x l.
Proof.
  revert x. induction l as [|e l IH]; intros x; [reflexivity|].
  simpl. destruct (link_sameCore fid s t e) as (_ & -> & _). apply IH.
Qed.

Lemma layoutFrom_link fid s t x l :
  layoutFrom x (map (link fid s t) l) = layoutFrom x l.
Proof.
  revert x. induction l as [|e l IH]; intros x; [reflexivity|].
  simpl. rewrite link_id. destruct (link_sameCore fid s t e) as (_ & -> & _).
  rewrite IH. reflexivity.
Qed.

Lemma LaidOut_new : LaidOut BpmnFactory.new.
Proof. constructor; simpl; try reflexivity; intros ? []. Qed.

Lemma LaidOut_node e f :
  Linked f -> LaidOut f ->
  isFlow e = false ->
  BpmnElement.id e = idOf (BpmnElement.type e) (S (BpmnFactory.elementCounter f)) ->
  LaidOut (afterNode e (widthOf (BpmnElement.type e)) (heightOf (BpmnElement.type e)) f).
Proof.
  intros L Y Hfl Hid.
  assert (Hcnt : counterFor (BpmnElement.type e) f = BpmnFactory.elementCounter f).
  { unfold isFlow in Hfl. unfold counterFor. destruct (BpmnElement.type e); try reflexivity.
    discriminate. }
  assert (Hfresh : ~ In (BpmnElement.id e) (map BpmnElement.id (BpmnFactory.elements f))).
  { rewrite Hid, <- Hcnt. apply fresh_not_in. apply (linked_named f L). }
  pose proof (getDiElement_fresh f _ (laid_ids f Y) Hfresh) as Hnone.
  assert (Hnodes : nodesOf (BpmnFactory.elements f ++ [e])
                   = (nodesOf (BpmnFactory.elements f) ++ [e])%list).
  { unfold nodesOf. rewrite filter_app. simpl. rewrite Hfl. reflexivity. }
  constructor; unfold BpmnFactory.getDiElement;
    cbn [afterNode BpmnFactory.elements BpmnFactory.diElements BpmnFactory.currentX
         BpmnFactory.currentY].
  - apply (laid_y f Y).
  - rewrite Hnodes, cursorAfter_app, <- (laid_x f Y). reflexivity.
  - unfold shapesOf. rewrite filter_app, Hnodes, layoutFrom_app, <- (laid_x f Y).
    fold (shapesOf (BpmnFactory.diElements f)). rewrite (laid_shapes f Y).
    cbn. rewrite (laid_y f Y). reflexivity.
  - intros d Hd. rewrite map_app. apply in_or_app.
    apply in_app_or in Hd as [Hd|[<-|[]]].
    + left. apply (laid_ids f Y d Hd).
    + right. left. reflexivity.
  - intros n Hn Fn. apply in_app_or in Hn as [Hn|[<-|[]]].
    + destruct (laid_node f Y n Hn Fn) as (x & Hx). exists x.
      apply find_app_some. exact Hx.
    + exists (BpmnFactory.currentX f). rewrite (find_app_none _ _ _ Hnone).
      cbn. unfold BpmnDiElement.isFor. cbn. rewrite String.eqb_refl, (laid_y f Y).
      reflexivity.
  - intros fl Hin Ffl. apply in_app_or in Hin as [Hin|[<-|[]]]; [|congruence].
    destruct (laid_edge f Y fl Hin Ffl) as (s & t & ss & ts & Hs & Ht & Hss & Hts & Hed).
    exists s, t, ss, ts. repeat split; auto using find_app_some.
Qed.

Lemma LaidOut_flow s t ce nm f :
  Linked f -> LaidOut f -> hasNode f s -> hasNode f t ->
  LaidOut (snd (BpmnFactory.createSequenceFlow s t ce nm f)).
Proof.
  intros L Y Hs Ht.
  pose proof (createSequenceFlow_linked_elements s t ce nm f L Hs Ht) as Hel.
  destruct (createSequenceFlow_spec s t ce nm f) as (_ & _ & Hdi & _ & _ & Hx & Hy).
  destruct Hs as (ns & Hns & <- & Fns). destruct Ht as (nt & Hnt & <- & Fnt).
  destruct (laid_node f Y ns Hns Fns) as (xs & Hss).
  destruct (laid_node f Y nt Hnt Fnt) as (xt & Hts).
  rewrite Hss, Hts in Hdi.
  pose proof (getDiElement_fresh f _ (laid_ids f Y) (nextFlowId_fresh f L)) as Hnone.
  set (f' := snd (BpmnFactory.createSequenceFlow _ _ ce nm f)) in *.
  set (fid := nextFlowId f) in *. clearbody f'.
  set (ss := shapeOf (BpmnElement.id ns) (BpmnElement.type ns) xs) in *.
  set (ts := shapeOf (BpmnElement.id nt) (BpmnElement.type nt) xt) in *.
  assert (Hnodes : nodesOf (BpmnFactory.elements f')
                   = map (link fid (BpmnElement.id ns) (BpmnElement.id nt))
                       (nodesOf (BpmnFactory.elements f))).
  { rewrite Hel. unfold nodesOf at 1. rewrite filter_app. cbn [filter].
    change (isFlow (flowElement _ _ _ _ _)) with true. cbn [negb].
    rewrite app_nil_r. apply nodesOf_link. }
  assert (Hstable : forall x d, BpmnFactory.getDiElement x f = Some d ->
                                BpmnFactory.getDiElement x f' = Some d).
  { intros x d H. unfold BpmnFactory.getDiElement. rewrite Hdi.
    apply find_app_some. exact H. }
  constructor.
  - rewrite Hy. apply (laid_y f Y).
  - rewrite Hx, Hnodes, cursorAfter_link. apply (laid_x f Y).
  - rewrite Hdi, Hnodes, layoutFrom_link. unfold shapesOf. rewrite filter_app.
    cbn [filter]. change (isShape (edgeElement _ _ _)) with false. rewrite app_nil_r.
    apply (laid_shapes f Y).
  - intros d Hd. rewrite Hel, map_app, map_id_link. apply in_or_app.
    rewrite Hdi in Hd. apply in_app_or in Hd as [Hd|[<-|[]]].
    + left. apply (laid_ids f Y d Hd).
    + right. left. reflexivity.
  - intros n' Hn' Fn'. rewrite Hel in Hn'. apply in_app_or in Hn' as [Hn'|[<-|[]]];
      [|discriminate Fn'].
    apply in_map_iff in Hn' as (n & <- & Hn). rewrite link_isFlow in Fn'.
    destruct (laid_node f Y n Hn Fn') as (x & Hxn). exists x.
    rewrite link_id. destruct (link_sameCore fid (BpmnElement.id ns) (BpmnElement.id nt) n)
      as (_ & -> & _).
    apply Hstable. exact Hxn.
  - intros fl' Hfl' Ffl'. rewrite Hel in Hfl'. apply in_app_or in Hfl' as [Hfl'|[<-|[]]].
    + apply in_map_iff in Hfl' as (fl & <- & Hfl). rewrite link_isFlow in Ffl'.
      destruct (laid_edge f Y fl Hfl Ffl') as (s0 & t0 & ss0 & ts0 & Hs0 & Ht0 & H1 & H2 & H3).
      destruct (link_sameCore fid (BpmnElement.id ns) (BpmnElement.id nt) fl)
        as (Hid & _ & _ & _ & Hsr & Htr & _).
      exists s0, t0, ss0, ts0. rewrite Hid, Hsr, Htr. auto 10.
    + exists (BpmnElement.id ns), (BpmnElement.id nt), ss, ts.
      split; [reflexivity|]. split; [reflexivity|].
      split; [apply Hstable; exact Hss|]. split; [apply Hstable; exact Hts|].
      unfold BpmnFactory.getDiElement. rewrite Hdi, (find_app_none _ _ _ Hnone).
      cbn. unfold BpmnDiElement.isFor. cbn. rewrite String.eqb_refl. reflexivity.
Qed.

Lemma Chain_laidOut f last : Chain f last -> LaidOut f.
Proof.
  induction 1 as [|f last e ce nm C Y (Hfl & Hns & Hid & Hout & Hin)].
  - apply (LaidOut_node startElement BpmnFactory.new); try reflexivity.
    + exact Linked_new.
    + exact LaidOut_new.
  - destruct (Chain_linked f last C) as [L N].
    set (f1 := afterNode e (widthOf (BpmnElement.type e)) (heightOf (BpmnElement.type e)) f).
    assert (L1 : Linked f1).
    { apply Linked_node; auto. rewrite Hin.
      destruct (BpmnElement.type e); try reflexivity. contradiction. }
    apply LaidOut_flow.
    + exact L1.
    + apply LaidOut_node; assumption.
    + apply hasNode_afterNode_old; exact N.
    + apply hasNode_afterNode_new; exact Hfl.
Qed.

Lemma buildGraph_laidOut pd : LaidOut (fst (buildGraph pd)).
Proof.
  destruct (buildGraph_chain pd) as (f & last & e & ce & nm & C & N & Hty & ->).
  rewrite <- Hty. exact (Chain_laidOut _ _ (Chain_step f last e ce nm C N)).
Qed.

Lemma heightOf_even ty : (2 * (heightOf ty / 2) = heightOf ty)%Z.
Proof. destruct ty; reflexivity. Qed.

(** C8. In the graph of every document, the shapes are those of the nodes
    in creation order, the first one at the abscissa 100, each one with the
    width and the height of its type and its ordinate such that the line 150
    cuts it in two halves, the next one further by the width of the node and
    the spacing 180; and the edge of every flow has exactly two waypoints,
    the middle of the right side of the shape of its source and the middle of
    the left side of the shape of its target. *)
Theorem layout_of_graph pd :
  let f := fst (buildGraph pd) in
  shapesOf (BpmnFactory.diElements f) = layoutFrom 100 (nodesOf (BpmnFactory.elements f))
  /\ (forall id ty x,
         let d := shapeOf id ty x in
         BpmnDiElement.x d = Some x
         /\ BpmnDiElement.width d = Some (widthOf ty)
         /\ BpmnDiElement.height d = Some (heightOf ty)
         /\ exists y, BpmnDiElement.y d = Some y
                      /\ (y = BpmnFactory.getCenterY (heightOf ty) BpmnFactory.new)%Z
                      /\ (2 * y + heightOf ty = 2 * 150)%Z)
  /\ (forall fl, In fl (BpmnFactory.elements f) -> isFlow fl = true ->
        exists ns nt xs xt edge,
          In ns (BpmnFactory.elements f) /\ In nt (BpmnFactory.elements f)
          /\ isFlow ns = false /\ isFlow nt = false
          /\ BpmnElement.sourceRef fl = Some (BpmnElement.id ns)
          /\ BpmnElement.targetRef fl = Some (BpmnElement.id nt)
          /\ BpmnFactory.getDiElement (BpmnElement.id ns) f
             = Some (shapeOf (BpmnElement.id ns) (BpmnElement.type ns) xs)
          /\ BpmnFactory.getDiElement (BpmnElement.id nt) f
             = Some (shapeOf (BpmnElement.id nt) (BpmnElement.type nt) xt)
          /\ BpmnFactory.getDiElement (BpmnElement.id fl) f = Some edge
          /\ BpmnDiElement.waypoints edge
             = Some [rightMiddle (shapeOf (BpmnElement.id ns) (BpmnElement.type ns) xs);
                     leftMiddle (shapeOf (BpmnElement.id nt) (BpmnElement.type nt) xt)]
          /\ Waypoint.y (rightMiddle (shapeOf (BpmnElement.id ns) (BpmnElement.type ns) xs))
             = 150%Z
          /\ Waypoint.y (leftMiddle (shapeOf (BpmnElement.id nt) (BpmnElement.type nt) xt))
             = 150%Z).
Proof.
  intros f.
  pose proof (buildGraph_linked pd) as L. pose proof (buildGraph_laidOut pd) as Y.
  fold f in L, Y. split; [apply (laid_shapes f Y)|]. split.
  - intros id ty x d. unfold d, shapeOf.
    cbn [BpmnDiElement.x BpmnDiElement.y BpmnDiElement.width BpmnDiElement.height].
    repeat split. eexists. split; [reflexivity|].
    pose proof (heightOf_even ty). unfold BpmnFactory.getCenterY, BpmnFactory.new.
    cbn [BpmnFactory.currentY]. split; lia.
  - intros fl Hin Ffl.
    destruct (linked_refs f L fl Hin Ffl)
      as (s & t & Hs & Ht & (ns & Hns & <- & Fns) & (nt & Hnt & <- & Fnt)).
    destruct (laid_node f Y ns Hns Fns) as (xs & Hss).
    destruct (laid_node f Y nt Hnt Fnt) as (xt & Hts).
    destruct (laid_edge f Y fl Hin Ffl) as (s' & t' & ss & ts & Hs' & Ht' & H1 & H2 & H3).
    assert (s' = BpmnElement.id ns) by congruence.
    assert (t' = BpmnElement.id nt) by congruence. subst s' t'.
    rewrite Hss in H1. rewrite Hts in H2. injection H1 as <-. injection H2 as <-.
    exists ns, nt, xs, xt, (edgeElement (BpmnElement.id fl)
                              (shapeOf (BpmnElement.id ns) (BpmnElement.type ns) xs)
                              (shapeOf (BpmnElement.id nt) (BpmnElement.type nt) xt)).
    repeat (split; [assumption|]). split; [reflexivity|].
    unfold rightMiddle, leftMiddle, shapeOf.
    cbn [BpmnDiElement.x BpmnDiElement.y BpmnDiElement.width BpmnDiElement.height
         Js.orZero Waypoint.y].
    pose proof (heightOf_even (BpmnElement.type ns)).
    pose proof (heightOf_even (BpmnElement.type nt)). split; lia.
Qed.

Lemma layout_of_graph_witness :
  let f := fst (buildGraph samplePlanDefinition) in
  exists fl edge,
    In fl (BpmnFactory.elements f) /\ isFlow fl = true
    /\ BpmnFactory.getDiElement (BpmnElement.id fl) f = Some edge
    /\ BpmnDiElement.waypoints edge = Some [Waypoint.mk 136 150; Waypoint.mk 316 150].
Proof.
  intros f.
  assert (Hin : In (flowElement "Flow_1" "StartEvent_1" "Task_2" None None)
                  (BpmnFactory.elements f)).
  { vm_compute. right. right. left. reflexivity. }
  destruct (proj2 (proj2 (layout_of_graph samplePlanDefinition)) _ Hin eq_refl)
    as (ns & nt & xs & xt & edge & _ & _ & _ & _ & _ & _ & _ & _ & Hedge & _).
  exists (flowElement "Flow_1" "StartEvent_1" "Task_2" None None), edge.
  split; [exact Hin|]. split; [reflexivity|]. split; [exact Hedge|].
  fold f in Hedge. vm_compute in Hedge. injection Hedge as <-. reflexivity.
Defined.

(** * Further properties *)

(** ** The sequence of elements of a graph *)

Lemma grownBy_types f A f' :
  grownBy f A f' ->
  map BpmnElement.type (BpmnFactory.elements f')
  = (map BpmnElement.type (BpmnFactory.elements f) ++ map BpmnElement.type A)%list.
Proof.
  unfold grownBy. intros H. rewrite <- map_app.
  induction H as [|x y l l' Hxy _ IH]; [reflexivity|].
  cbn [map]. destruct Hxy as (_ & -> & _). rewrite IH. reflexivity.
Qed.

Lemma nonEmpty_nil_cases {A : Type} (o : option (list A)) :
  nonEmpty o = None \/ exists x r, nonEmpty o = Some (x :: r).
Proof. destruct o as [[|x r]|]; simpl; eauto. Qed.

Lemma triggerStep_types action f last :
  map BpmnElement.type (BpmnFactory.elements (fst (triggerStep action (f, last))))
  = (map BpmnElement.type (BpmnFactory.elements f)
     ++ if hasTrigger action then [intermediateEvent; sequenceFlow] else [])%list.
Proof.
  unfold hasTrigger.
  destruct (nonEmpty (FhirAction.trigger action)) as [trigger|] eqn:E.
  - destruct (triggerStep_grows action trigger f last E) as [G _].
    rewrite (grownBy_types _ _ _ G). reflexivity.
  - rewrite (triggerStep_none _ _ E), app_nil_r. reflexivity.
Qed.

Lemma taskStep_types action i f last :
  map BpmnElement.type (BpmnFactory.elements (fst (taskStep action i (f, last))))
  = (map BpmnElement.type (BpmnFactory.elements f)
     ++ if hasCondition action
        then [exclusiveGateway; sequenceFlow; task; sequenceFlow]
        else [task; sequenceFlow])%list.
Proof.
  unfold hasCondition.
  destruct (nonEmpty_nil_cases (FhirAction.condition action)) as [E|(c & rest & E)];
    rewrite E.
  - destruct (taskStep_plain_grows action i f last E) as [G _].
    rewrite (grownBy_types _ _ _ G). reflexivity.
  - destruct (taskStep_condition_grows action i c rest f last E) as [G _].
    rewrite (grownBy_types _ _ _ G). reflexivity.
Qed.

Lemma kindsOf_eq action :
  kindsOf action
  = ((if hasTrigger action then [intermediateEvent; sequenceFlow] else [])
     ++ (if hasCondition action
         then [exclusiveGateway; sequenceFlow; task; sequenceFlow]
         else [task; sequenceFlow])
     ++ kindsOfList (listOf (FhirAction.action action)))%list.
Proof. destruct action as [? ? ? ? ? ? ? ? ? ? [l|]]; reflexivity. Qed.

Lemma processAction_list action i w :
  processAction action i w
  = processActionsFrom (listOf (FhirAction.action action)) 0
      (taskStep action i (triggerStep action w)).
Proof.
  rewrite processAction_eq.
  destruct (FhirAction.action action) as [[|a rest]|]; reflexivity.
Qed.

Lemma processAction_types action :
  forall i f last,
    map BpmnElement.type (BpmnFactory.elements (fst (processAction action i (f, last))))
    = (map BpmnElement.type (BpmnFactory.elements f) ++ kindsOf action)%list.
Proof.
  induction action as [id title description textEquivalent documentation trigger
                         condition relatedAction type dynamicValue action IH]
    using FhirAction_ind_nested.
  intros i f last. rewrite processAction_list, kindsOf_eq.
  set (a := FhirAction.mk id title description textEquivalent documentation trigger
              condition relatedAction type dynamicValue action) in *.
  cbn [FhirAction.action a].
  pose proof (triggerStep_types a f last) as H1.
  destruct (triggerStep a (f, last)) as [f1 last1].
  pose proof (taskStep_types a i f1 last1) as H2.
  destruct (taskStep a i (f1, last1)) as [f2 last2].
  cbn [fst] in H1, H2. rewrite H1 in H2. rewrite !app_assoc, <- H2.
  clear H1 H2. generalize 0. revert f2 last2.
  induction IH as [|x l Hx _ IHl]; intros f2 last2 n.
  - cbn. rewrite app_nil_r. reflexivity.
  - cbn [processActionsFrom kindsOfList].
    pose proof (Hx n f2 last2) as H3.
    destruct (processAction x n (f2, last2)) as [f3 last3].
    rewrite IHl. cbn [fst] in H3. rewrite H3, app_assoc. reflexivity.
Qed.

Lemma processActionsFrom_types actions :
  forall i f last,
    map BpmnElement.type
      (BpmnFactory.elements (fst (processActionsFrom actions i (f, last))))
    = (map BpmnElement.type (BpmnFactory.elements f) ++ kindsOfList actions)%list.
Proof.
  induction actions as [|a l IH]; intros i f last.
  - cbn. rewrite app_nil_r. reflexivity.
  - cbn [processActionsFrom kindsOfList].
    pose proof (processAction_types a i f last) as H.
    destruct (processAction a i (f, last)) as [f1 last1].
    rewrite IH. cbn [fst] in H. rewrite H, app_assoc. reflexivity.
Qed.

(** The graph of a document, with the walk written as one loop over the
    action list, which does nothing on a missing or empty list. *)
Lemma buildGraph_walk pd :
  let w := processActionsFrom (listOf (FhirPlanDefinition.action pd)) 0
             (afterStart, "StartEvent_1") in
  fst (buildGraph pd)
  = snd (BpmnFactory.createSequenceFlow (snd w) (nextId "EndEvent" (fst w)) None None
           (afterNode
              (BpmnElement.mk (nextId "EndEvent" (fst w)) endEvent (Some "End") None
                 (Some ["temp_incoming"]) None None None None None)
              BpmnFactory.EVENT_SIZE BpmnFactory.EVENT_SIZE (fst w))).
Proof.
  unfold buildGraph, afterStart. rewrite createStartEvent_spec.
  change (nextId "StartEvent" BpmnFactory.new) with "StartEvent_1".
  cbn [snd].
  destruct (FhirPlanDefinition.action pd) as [[|a l]|]; cbn [nonEmpty listOf].
  - cbn [processActionsFrom fst snd]. rewrite createEndEvent_spec.
    destruct (BpmnFactory.createSequenceFlow _ _ _ _ _); reflexivity.
  - unfold processActions.
    destruct (processActionsFrom (a :: l) 0 _) as [f last]. cbn [fst snd].
    rewrite createEndEvent_spec.
    destruct (BpmnFactory.createSequenceFlow _ _ _ _ _); reflexivity.
  - cbn [processActionsFrom fst snd]. rewrite createEndEvent_spec.
    destruct (BpmnFactory.createSequenceFlow _ _ _ _ _); reflexivity.
Qed.

Lemma buildGraph_types pd :
  map BpmnElement.type (BpmnFactory.elements (fst (buildGraph pd)))
  = (startEvent :: kindsOfList (listOf (FhirPlanDefinition.action pd))
       ++ [endEvent; sequenceFlow])%list.
Proof.
  rewrite buildGraph_walk. cbn zeta.
  pose proof (processActionsFrom_types (listOf (FhirPlanDefinition.action pd)) 0 afterStart
                "StartEvent_1") as H.
  destruct (processActionsFrom _ 0 (afterStart, "StartEvent_1")) as [f last].
  cbn [fst snd] in *.
  rewrite (grownBy_types _ _ _ (grownBy_node_flow f _ _ _ last _ None None)).
  rewrite H. reflexivity.
Qed.

Lemma countType_countKind ty f :
  countType ty f = countKind ty (map BpmnElement.type (BpmnFactory.elements f)).
Proof.
  unfold countType, countKind, BpmnFactory.getElementsByType.
  induction (BpmnFactory.elements f) as [|e l IH]; [reflexivity|].
  cbn [map filter]. destruct (ElementType_eqb (BpmnElement.type e) ty); simpl; congruence.
Qed.

Lemma countKind_app ty l1 l2 : countKind ty (l1 ++ l2) = countKind ty l1 + countKind ty l2.
Proof. unfold countKind. rewrite filter_app, length_app. reflexivity. Qed.

Lemma kindCounts_app l1 l2 t1 g1 e1 t2 g2 e2 :
  kindCounts l1 t1 g1 e1 -> kindCounts l2 t2 g2 e2 ->
  kindCounts (l1 ++ l2) (t1 + t2) (g1 + g2) (e1 + e2).
Proof.
  unfold kindCounts. rewrite !countKind_app.
  intros (A1 & A2 & A3 & A4 & A5 & A6) (B1 & B2 & B3 & B4 & B5 & B6).
  repeat split; lia.
Qed.

Lemma countActions_eq p action :
  countActions p action
  = (if p action then 1 else 0) + countActionsList p (listOf (FhirAction.action action)).
Proof.
  destruct action as [? ? ? ? ? ? ? ? ? ? [l|]]; [|reflexivity].
  cbn [countActions FhirAction.action listOf]. f_equal.
  induction l as [|x l IH]; [reflexivity|].
  cbn [countActionsList]. rewrite <- IH. reflexivity.
Qed.

Lemma kindCounts_kindsOf action :
  kindCounts (kindsOf action) (countActions (fun _ => true) action)
    (countActions hasCondition action) (countActions hasTrigger action).
Proof.
  induction action as [id title description textEquivalent documentation trigger
                         condition relatedAction type dynamicValue action IH]
    using FhirAction_ind_nested.
  set (a := FhirAction.mk id title description textEquivalent documentation trigger
              condition relatedAction type dynamicValue action) in *.
  assert (Hsub : kindCounts (kindsOfList (listOf action))
                   (countActionsList (fun _ => true) (listOf action))
                   (countActionsList hasCondition (listOf action))
                   (countActionsList hasTrigger (listOf action))).
  { induction IH as [|x l Hx _ IHl]; [repeat split|].
    cbn [kindsOfList countActionsList]. apply kindCounts_app; assumption. }
  rewrite kindsOf_eq, !countActions_eq. cbn [FhirAction.action a].
  change (if (fun _ : FhirAction.t => true) a then 1 else 0) with 1.
  replace (1 + countActionsList (fun _ => true) (listOf action))
    with (0 + (1 + countActionsList (fun _ => true) (listOf action))) by reflexivity.
  replace ((if hasCondition a then 1 else 0) + countActionsList hasCondition (listOf action))
    with (0 + ((if hasCondition a then 1 else 0)
               + countActionsList hasCondition (listOf action))) by reflexivity.
  replace ((if hasTrigger a then 1 else 0) + countActionsList hasTrigger (listOf action))
    with ((if hasTrigger a then 1 else 0)
          + (0 + countActionsList hasTrigger (listOf action))) by reflexivity.
  apply kindCounts_app; [|apply kindCounts_app; [|exact Hsub]].
  - destruct (hasTrigger a); repeat split.
  - destruct (hasCondition a); repeat split.
Qed.

Lemma kindCounts_kindsOfList actions :
  kindCounts (kindsOfList actions) (countActionsList (fun _ => true) actions)
    (countActionsList hasCondition actions) (countActionsList hasTrigger actions).
Proof.
  induction actions as [|a l IH]; [repeat split|].
  cbn [kindsOfList countActionsList].
  apply kindCounts_app; [apply kindCounts_kindsOf|exact IH].
Qed.

(** X1. The elements of the graph of a document are, in creation order: the
    start event; for each action, nested actions after their parent, an
    intermediate event and a flow when it has triggers, a gateway and a flow
    when it has conditions, a task and a flow; the end event and a flow. So
    there is one task for every action of the tree, one gateway for every
    action with conditions, one intermediate event for every action with
    triggers, one start event, one end event, and one flow less than nodes. *)
Theorem graph_elements_by_kind pd :
  let f := fst (buildGraph pd) in
  let actions := listOf (FhirPlanDefinition.action pd) in
  map BpmnElement.type (BpmnFactory.elements f)
  = (startEvent :: kindsOfList actions ++ [endEvent; sequenceFlow])%list
  /\ countType startEvent f = 1
  /\ countType endEvent f = 1
  /\ countType task f = countActionsList (fun _ => true) actions
  /\ countType exclusiveGateway f = countActionsList hasCondition actions
  /\ countType intermediateEvent f = countActionsList hasTrigger actions
  /\ countType sequenceFlow f
     = countType task f + countType exclusiveGateway f + countType intermediateEvent f + 1.
Proof.
  intros f actions. pose proof (buildGraph_types pd) as H. fold f actions in H.
  split; [exact H|].
  rewrite !countType_countKind, H.
  change (startEvent :: kindsOfList actions ++ [endEvent; sequenceFlow])%list
    with ([startEvent] ++ kindsOfList actions ++ [endEvent; sequenceFlow])%list.
  rewrite !countKind_app.
  destruct (kindCounts_kindsOfList actions) as (A1 & A2 & A3 & A4 & A5 & A6).
  rewrite A1, A2, A3, A4, A5, A6. cbn. repeat split; lia.
Qed.

(** ** The graph is a path *)

Lemma chainNode_fresh f e :
  Linked f -> chainNode f e ->
  ~ In (BpmnElement.id e) (map BpmnElement.id (BpmnFactory.elements f)).
Proof.
  intros L (Hfl & _ & Hid & _).
  assert (Hcnt : counterFor (BpmnElement.type e) f = BpmnFactory.elementCounter f).
  { unfold isFlow in Hfl. unfold counterFor. destruct (BpmnElement.type e); try reflexivity.
    discriminate. }
  rewrite Hid, <- Hcnt. apply fresh_not_in. apply (linked_named f L).
Qed.

Lemma chainNode_linked f e :
  Linked f -> chainNode f e ->
  Linked (afterNode e (widthOf (BpmnElement.type e)) (heightOf (BpmnElement.type e)) f).
Proof.
  intros L (Hfl & Hns & Hid & Hout & Hin). apply Linked_node; auto.
  rewrite Hin. destruct (BpmnElement.type e); try reflexivity. contradiction.
Qed.

(** The elements after a step of the chain. *)
Lemma Chain_step_elements f last e ce nm :
  Chain f last -> chainNode f e ->
  let f1 := afterNode e (widthOf (BpmnElement.type e)) (heightOf (BpmnElement.type e)) f in
  BpmnFactory.elements
    (snd (BpmnFactory.createSequenceFlow last (BpmnElement.id e) ce nm f1))
  = (map (link (nextFlowId f) last (BpmnElement.id e)) (BpmnFactory.elements f ++ [e])
     ++ [flowElement (nextFlowId f) last (BpmnElement.id e) ce nm])%list.
Proof.
  intros C N f1. destruct (Chain_linked f last C) as [L Nl].
  pose proof (chainNode_linked f e L N) as L1.
  destruct N as (Hfl & _).
  apply (createSequenceFlow_linked_elements last (BpmnElement.id e) ce nm f1 L1).
  - apply hasNode_afterNode_old. exact Nl.
  - apply hasNode_afterNode_new. exact Hfl.
Qed.

Lemma Chain_path f last : Chain f last -> PathTo f last.
Proof.
  induction 1 as [|f last e ce nm C IH N].
  - intros n [<-|[]] _. cbn. split; reflexivity.
  - destruct (Chain_linked f last C) as [L Nl].
    pose proof (chainNode_fresh f e L N) as Hfresh.
    pose proof (hasNode_in f last Nl) as Hlast.
    assert (Hne : BpmnElement.id e <> last) by (intros E; apply Hfresh; rewrite E; exact Hlast).
    intros n' Hn' Fn'. rewrite (Chain_step_elements f last e ce nm C N) in Hn'.
    apply in_app_or in Hn' as [Hn'|[<-|[]]]; [|discriminate Fn'].
    apply in_map_iff in Hn' as (n & <- & Hn). rewrite link_isFlow in Fn'.
    rewrite link_id, link_outgoing, link_incoming.
    destruct (link_sameCore (nextFlowId f) last (BpmnElement.id e) n) as (_ & -> & _).
    apply in_app_or in Hn as [Hn|[<-|[]]].
    + destruct (IH n Hn Fn') as [Hout Hin].
      assert (Hn_e : String.eqb (BpmnElement.id n) (BpmnElement.id e) = false).
      { apply String.eqb_neq. intros E. apply Hfresh. rewrite <- E. apply in_map. exact Hn. }
      rewrite Hn_e, app_nil_r. split; [|exact Hin].
      destruct (String.eqb (BpmnElement.id n) last).
      * rewrite Hout. eexists. reflexivity.
      * rewrite app_nil_r. exact Hout.
    + destruct N as (_ & Hns & _ & Hout & Hin).
      rewrite String.eqb_refl, (proj2 (String.eqb_neq _ _) Hne), app_nil_r, Hin. split.
      * exact Hout.
      * destruct (BpmnElement.type e); try (eexists; reflexivity). contradiction.
Qed.

Lemma buildGraph_one_end pd : countType endEvent (fst (buildGraph pd)) = 1.
Proof.
  rewrite countType_countKind, buildGraph_types.
  change (startEvent :: ?l ++ [endEvent; sequenceFlow])%list
    with ([startEvent] ++ l ++ [endEvent; sequenceFlow])%list.
  rewrite !countKind_app.
  destruct (kindCounts_kindsOfList (listOf (FhirPlanDefinition.action pd)))
    as (_ & -> & _).
  reflexivity.
Qed.

Lemma NoDup_map_injective {A B : Type} (g : A -> B) l x y :
  NoDup (map g l) -> In x l -> In y l -> g x = g y -> x = y.
Proof.
  induction l as [|a l IH]; intros Hnd Hx Hy E; [destruct Hx|].
  inversion Hnd as [|? ? Ha Hl]; subst.
  destruct Hx as [<-|Hx], Hy as [<-|Hy]; auto.
  - exfalso. apply Ha. rewrite E. apply in_map. exact Hy.
  - exfalso. apply Ha. rewrite <- E. apply in_map. exact Hx.
Qed.

Lemma length_one_same {A : Type} (l : list A) x y :
  List.length l = 1 -> In x l -> In y l -> x = y.
Proof.
  destruct l as [|a [|b l]]; try discriminate. intros _ [<-|[]] [<-|[]]. reflexivity.
Qed.

(** X2. The graph of a document is a path from its start event to its end
    event: no flow leaves the end event and exactly one flow leaves every
    other node, a gateway included; no flow reaches the start event and
    exactly one flow reaches every other node, listed after the placeholder
    in its [incoming] list. *)
Theorem graph_is_a_path pd :
  let f := fst (buildGraph pd) in
  forall n, In n (BpmnFactory.elements f) -> isFlow n = false ->
    match BpmnElement.type n with
    | endEvent => listOf (BpmnElement.outgoing n) = []
    | _ => exists fid, listOf (BpmnElement.outgoing n) = [fid]
    end
    /\ match BpmnElement.type n with
       | startEvent => listOf (BpmnElement.incoming n) = []
       | _ => exists fid, listOf (BpmnElement.incoming n) = ["temp_incoming"; fid]
       end.
Proof.
  intros f n Hn Fn.
  pose proof (buildGraph_one_end pd) as Hone. pose proof (buildGraph_linked pd) as L.
  fold f in Hone, L.
  destruct (buildGraph_chain pd) as (f0 & last0 & e & ce & nm & C & N & Hty & Hf).
  fold f in Hf. rewrite <- Hty in Hf.
  pose proof (Chain_path _ _ (Chain_step f0 last0 e ce nm C N)) as P. rewrite <- Hf in P.
  pose proof (Chain_step_elements f0 last0 e ce nm C N) as Hel. cbn zeta in Hel.
  rewrite <- Hf in Hel.
  set (e' := link (nextFlowId f0) last0 (BpmnElement.id e) e).
  assert (He' : In e' (BpmnFactory.elements f)).
  { rewrite Hel. apply in_or_app. left. apply in_map. apply in_or_app. right. left.
    reflexivity. }
  assert (Hty' : BpmnElement.type e' = endEvent).
  { unfold e'. destruct (link_sameCore (nextFlowId f0) last0 (BpmnElement.id e) e)
      as (_ & -> & _). exact Hty. }
  assert (Hid' : BpmnElement.id e' = BpmnElement.id e) by apply link_id.
  destruct (P n Hn Fn) as [Hout Hin]. split; [|exact Hin].
  destruct (String.eqb_spec (BpmnElement.id n) (BpmnElement.id e)) as [E|E].
  - assert (n = e').
    { apply (NoDup_map_injective BpmnElement.id (BpmnFactory.elements f)).
      - apply (linked_nodup f L).
      - exact Hn.
      - exact He'.
      - rewrite Hid'. exact E. }
    subst n. rewrite Hty'. exact Hout.
  - assert (Hnot : BpmnElement.type n <> endEvent).
    { intros Tn. apply E. rewrite <- Hid'. f_equal.
      apply (length_one_same (BpmnFactory.getElementsByType endEvent f)); auto;
        apply filter_In; split; auto; [rewrite Tn|rewrite Hty']; reflexivity. }
    destruct (BpmnElement.type n); try exact Hout. contradiction.
Qed.

Lemma graph_is_a_path_witness :
  let f := fst (buildGraph samplePlanDefinition) in
  exists n fid,
    In n (BpmnFactory.elements f) /\ BpmnElement.type n = exclusiveGateway
    /\ listOf (BpmnElement.outgoing n) = [fid].
Proof.
  intros f.
  assert (Hin : In (nodeElement "Gateway_3" exclusiveGateway "Decision: patient.age >= 18"
                      None (Some ["temp_incoming"; "Flow_2"]) (Some ["Flow_3"]))
                  (BpmnFactory.elements f)).
  { vm_compute. do 3 right. left. reflexivity. }
  destruct (proj1 (graph_is_a_path samplePlanDefinition _ Hin eq_refl)) as (fid & H).
  eexists. exists fid. split; [exact Hin|]. split; [reflexivity|exact H].
Defined.

(** ** The DI section mirrors the process *)

Lemma diFor_link fid s t e d : diFor e d -> diFor (link fid s t e) d.
Proof.
  unfold diFor. rewrite link_isFlow, link_id.
  destruct (link_sameCore fid s t e) as (_ & -> & _). auto.
Qed.

Lemma Chain_step_diElements f last e ce nm :
  Chain f last -> chainNode f e ->
  let f1 := afterNode e (widthOf (BpmnElement.type e)) (heightOf (BpmnElement.type e)) f in
  exists ss ts,
    BpmnFactory.diElements
      (snd (BpmnFactory.createSequenceFlow last (BpmnElement.id e) ce nm f1))
    = (BpmnFactory.diElements f
       ++ [shapeOf (BpmnElement.id e) (BpmnElement.type e) (BpmnFactory.currentX f);
           edgeElement (nextFlowId f) ss ts])%list.
Proof.
  intros C N f1. destruct (Chain_linked f last C) as [L Nl].
  pose proof (Chain_laidOut f last C) as Y.
  pose proof (chainNode_linked f e L N) as L1.
  destruct N as (Hfl & _ & Hid & _).
  pose proof (LaidOut_node e f L Y Hfl Hid) as Y1. fold f1 in Y1, L1.
  assert (N1 : hasNode f1 last) by (apply hasNode_afterNode_old; exact Nl).
  assert (N2 : hasNode f1 (BpmnElement.id e)) by (apply hasNode_afterNode_new; exact Hfl).
  destruct N1 as (n1 & Hn1 & <- & F1). destruct N2 as (n2 & Hn2 & E2 & F2).
  destruct (laid_node f1 Y1 n1 Hn1 F1) as (x1 & H1).
  destruct (laid_node f1 Y1 n2 Hn2 F2) as (x2 & H2). rewrite E2 in H2.
  destruct (createSequenceFlow_spec (BpmnElement.id n1) (BpmnElement.id e) ce nm f1)
    as (_ & _ & -> & _).
  rewrite H1, H2. do 2 eexists.
  unfold f1 at 1. cbn [afterNode BpmnFactory.diElements]. rewrite <- app_assoc.
  unfold shapeOf. rewrite (laid_y f Y). reflexivity.
Qed.

Lemma Chain_mirror f last :
  Chain f last -> Forall2 diFor (BpmnFactory.elements f) (BpmnFactory.diElements f).
Proof.
  induction 1 as [|f last e ce nm C IH N].
  - constructor; [|constructor]. exists 100%Z. reflexivity.
  - destruct (Chain_step_diElements f last e ce nm C N) as (ss & ts & ->).
    rewrite (Chain_step_elements f last e ce nm C N).
    change [shapeOf (BpmnElement.id e) (BpmnElement.type e) (BpmnFactory.currentX f);
            edgeElement (nextFlowId f) ss ts]
      with ([shapeOf (BpmnElement.id e) (BpmnElement.type e) (BpmnFactory.currentX f)]
            ++ [edgeElement (nextFlowId f) ss ts])%list.
    rewrite map_app, !app_assoc. apply Forall2_app; [apply Forall2_app|].
    + clear -IH. induction IH; constructor; auto using diFor_link.
    + constructor; [|constructor]. apply diFor_link. unfold diFor.
      destruct N as (-> & _). eexists. reflexivity.
    + constructor; [|constructor]. exists ss, ts. reflexivity.
Qed.

Lemma append_same_suffix a b s : (a ++ s = b ++ s)%string -> a = b.
Proof.
  assert (Hlen : forall x y, String.length (x ++ y) = String.length x + String.length y).
  { intros x y. induction x; simpl; congruence. }
  revert b. induction a as [|c a IH]; intros [|d b] H; cbn [append] in H.
  - reflexivity.
  - apply (f_equal String.length) in H. cbn [String.length] in H. rewrite Hlen in H. lia.
  - apply (f_equal String.length) in H. cbn [String.length] in H. rewrite Hlen in H. lia.
  - injection H as -> H. f_equal. apply IH. exact H.
Qed.

Lemma diFor_id e d :
  diFor e d ->
  BpmnDiElement.bpmnElement d = BpmnElement.id e
  /\ BpmnDiElement.id d = (BpmnElement.id e ++ "_di")%string.
Proof.
  unfold diFor. destruct (isFlow e); [intros (ss & ts & ->)|intros (x & ->)];
    split; reflexivity.
Qed.

(** X3. In the graph of every document the identifiers of the elements
    are pairwise distinct, and the DI section has one entry for each element
    of the process, in the same order: the shape of a node, with its four
    bounds, or the edge of a flow, with two waypoints; the identifier of the
    entry is the one of the element followed by [_di], so the identifiers of
    the DI section are pairwise distinct too. *)
Theorem di_mirrors_elements pd :
  let f := fst (buildGraph pd) in
  NoDup (map BpmnElement.id (BpmnFactory.elements f))
  /\ Forall2 diFor (BpmnFactory.elements f) (BpmnFactory.diElements f)
  /\ map BpmnDiElement.bpmnElement (BpmnFactory.diElements f)
     = map BpmnElement.id (BpmnFactory.elements f)
  /\ NoDup (map BpmnDiElement.id (BpmnFactory.diElements f)).
Proof.
  intros f. pose proof (buildGraph_linked pd) as L. fold f in L.
  assert (M : Forall2 diFor (BpmnFactory.elements f) (BpmnFactory.diElements f)).
  { destruct (buildGraph_chain pd) as (f0 & last0 & e & ce & nm & C & N & Hty & Hf).
    fold f in Hf. rewrite <- Hty in Hf. rewrite Hf.
    exact (Chain_mirror _ _ (Chain_step f0 last0 e ce nm C N)). }
  pose proof (linked_nodup f L) as Hnd.
  split; [exact Hnd|]. split; [exact M|].
  revert Hnd. induction M as [|e d l l' Hed M' IH]; intros Hnd.
  - split; [reflexivity|constructor].
  - inversion Hnd as [|? ? Hx Hl]; subst. destruct (IH Hl) as [IH1 IH2].
    destruct (diFor_id e d Hed) as [Hb Hi]. cbn [map]. rewrite Hb, IH1.
    split; [reflexivity|]. constructor; [|exact IH2].
    intros Hin. apply Hx. apply in_map_iff in Hin as (d' & Hd' & Hin).
    assert (Hex : exists e', In e' l /\ diFor e' d').
    { clear -M' Hin. induction M' as [|a b l l' Hab _ IHM]; [destruct Hin|].
      destruct Hin as [<-|Hin].
      - exists a. split; [left; reflexivity|exact Hab].
      - destruct (IHM Hin) as (e' & He' & Hd). exists e'. split; [right; exact He'|exact Hd]. }
    destruct Hex as (e' & He' & Hd).
    destruct (diFor_id e' d' Hd) as [_ Hi']. rewrite Hi, Hi' in Hd'.
    apply append_same_suffix in Hd'. rewrite <- Hd'. apply in_map. exact He'.
Qed.

(** ** The walker is a fold over the flattened tree *)

Lemma flattenAction_eq action i :
  flattenAction action i
  = (action, i) :: flattenFrom (listOf (FhirAction.action action)) 0.
Proof. destruct action as [? ? ? ? ? ? ? ? ? ? [l|]]; reflexivity. Qed.

Lemma processAction_fold action :
  forall i w, processAction action i w = fold_left ownStep (flattenAction action i) w.
Proof.
  induction action as [id title description textEquivalent documentation trigger
                         condition relatedAction type dynamicValue action IH]
    using FhirAction_ind_nested.
  intros i w. rewrite processAction_list, flattenAction_eq.
  set (a := FhirAction.mk id title description textEquivalent documentation trigger
              condition relatedAction type dynamicValue action) in *.
  cbn [FhirAction.action a fold_left]. change (ownStep w (a, i)) with
    (taskStep a i (triggerStep a w)).
  generalize (taskStep a i (triggerStep a w)). generalize 0.
  induction IH as [|x l Hx _ IHl]; intros n w'; [reflexivity|].
  cbn [processActionsFrom flattenFrom]. rewrite fold_left_app, <- Hx. apply IHl.
Qed.

Lemma processActionsFrom_fold actions :
  forall i w, processActionsFrom actions i w = fold_left ownStep (flattenFrom actions i) w.
Proof.
  induction actions as [|a l IH]; intros i w; [reflexivity|].
  cbn [processActionsFrom flattenFrom].
  rewrite fold_left_app, <- processAction_fold. apply IH.
Qed.

Lemma flattenFrom_app l1 l2 i :
  flattenFrom (l1 ++ l2) i
  = (flattenFrom l1 i ++ flattenFrom l2 (i + List.length l1))%list.
Proof.
  revert i. induction l1 as [|a l1 IH]; intros i.
  - cbn. rewrite Nat.add_0_r. reflexivity.
  - cbn [app flattenFrom]. rewrite IH, <- app_assoc. cbn [List.length].
    rewrite Nat.add_succ_r. reflexivity.
Qed.

(** X4. Walking a list of actions is a plain left fold of the step of one
    action over the flattened tree: nested actions are walked right after
    the own elements of their parent, with an index that starts again at 0;
    so walking a concatenation is walking its first part and then its second
    part, from the frontier and at the index where the first part ended. *)
Theorem walker_flattens :
  (forall actions i w,
      processActionsFrom actions i w = fold_left ownStep (flattenFrom actions i) w)
  /\ (forall action i w,
         processAction action i w
         = processActionsFrom (listOf (FhirAction.action action)) 0
             (taskStep action i (triggerStep action w)))
  /\ (forall l1 l2 i w,
         processActionsFrom (l1 ++ l2) i w
         = processActionsFrom l2 (i + List.length l1) (processActionsFrom l1 i w)).
Proof.
  split; [exact processActionsFrom_fold|]. split; [exact processAction_list|].
  intros l1 l2 i w.
  rewrite !processActionsFrom_fold, flattenFrom_app, fold_left_app. reflexivity.
Qed.

(** ** The names and the documentation of the elements *)

Lemma grownBy_labels f A f' :
  grownBy f A f' ->
  map labelOf (BpmnFactory.elements f')
  = (map labelOf (BpmnFactory.elements f) ++ map labelOf A)%list.
Proof.
  unfold grownBy. intros H. rewrite <- map_app.
  induction H as [|x y l l' Hxy _ IH]; [reflexivity|].
  cbn [map]. rewrite IH. f_equal. unfold labelOf.
  destruct Hxy as (_ & -> & -> & -> & _). reflexivity.
Qed.

Lemma ownStep_labels f last ai :
  map labelOf (BpmnFactory.elements (fst (ownStep (f, last) ai)))
  = (map labelOf (BpmnFactory.elements f) ++ ownLabels ai)%list.
Proof.
  destruct ai as [a i]. unfold ownStep, ownLabels. cbn [fst snd].
  assert (H1 : map labelOf (BpmnFactory.elements (fst (triggerStep a (f, last))))
               = (map labelOf (BpmnFactory.elements f)
                  ++ match nonEmpty (FhirAction.trigger a) with
                     | Some trigger =>
                         [(intermediateEvent, Some (triggerEventName trigger),
                           Some (buildActionDocumentation a));
                          (sequenceFlow, None, None)]
                     | None => []
                     end)%list).
  { destruct (nonEmpty (FhirAction.trigger a)) as [trigger|] eqn:E.
    - destruct (triggerStep_grows a trigger f last E) as [G _].
      rewrite (grownBy_labels _ _ _ G). reflexivity.
    - rewrite (triggerStep_none _ _ E), app_nil_r. reflexivity. }
  destruct (triggerStep a (f, last)) as [f1 last1]. cbn [fst] in H1.
  rewrite app_assoc, <- H1.
  destruct (nonEmpty_nil_cases (FhirAction.condition a)) as [E|(c & rest & E)]; rewrite E.
  - destruct (taskStep_plain_grows a i f1 last1 E) as [G _].
    rewrite (grownBy_labels _ _ _ G). reflexivity.
  - destruct (taskStep_condition_grows a i c rest f1 last1 E) as [G _].
    rewrite (grownBy_labels _ _ _ G). reflexivity.
Qed.

Lemma fold_ownStep_labels flat :
  forall f last,
    map labelOf (BpmnFactory.elements (fst (fold_left ownStep flat (f, last))))
    = (map labelOf (BpmnFactory.elements f) ++ flat_map ownLabels flat)%list.
Proof.
  induction flat as [|ai flat IH]; intros f last.
  - cbn. rewrite app_nil_r. reflexivity.
  - cbn [fold_left flat_map]. pose proof (ownStep_labels f last ai) as H.
    destruct (ownStep (f, last) ai) as [f1 last1]. cbn [fst] in H.
    rewrite IH, H, app_assoc. reflexivity.
Qed.

Lemma buildGraph_labels pd :
  map labelOf (BpmnFactory.elements (fst (buildGraph pd)))
  = ((startEvent, Some "Start", None)
       :: flat_map ownLabels (flattenFrom (listOf (FhirPlanDefinition.action pd)) 0)
       ++ [(endEvent, Some "End", None); (sequenceFlow, None, None)])%list.
Proof.
  rewrite buildGraph_walk. cbn zeta. rewrite processActionsFrom_fold.
  pose proof (fold_ownStep_labels (flattenFrom (listOf (FhirPlanDefinition.action pd)) 0)
                afterStart "StartEvent_1") as H.
  destruct (fold_left ownStep _ (afterStart, "StartEvent_1")) as [f last].
  cbn [fst snd] in *.
  rewrite (grownBy_labels _ _ _ (grownBy_node_flow f _ _ _ last _ None None)).
  rewrite H. reflexivity.
Qed.

Lemma filter_task_ownLabels ai :
  filter isTaskLabel (ownLabels ai)
  = [(task, Some (actionName (fst ai) (snd ai)),
      Some (buildActionDocumentation (fst ai)))].
Proof.
  unfold ownLabels. rewrite filter_app.
  destruct (nonEmpty (FhirAction.trigger (fst ai))),
    (nonEmpty (FhirAction.condition (fst ai))); reflexivity.
Qed.

Lemma filter_task_flat flat :
  filter isTaskLabel (flat_map ownLabels flat)
  = map (fun ai => (task, Some (actionName (fst ai) (snd ai)),
                    Some (buildActionDocumentation (fst ai)))) flat.
Proof.
  induction flat as [|ai flat IH]; [reflexivity|].
  cbn [flat_map map]. rewrite filter_app, filter_task_ownLabels, IH. reflexivity.
Qed.

Lemma labels_of_type ty l :
  map labelOf (filter (fun e => ElementType_eqb (BpmnElement.type e) ty) l)
  = filter (fun lab => ElementType_eqb (fst (fst lab)) ty) (map labelOf l).
Proof.
  induction l as [|e l IH]; [reflexivity|].
  cbn [map filter labelOf fst]. destruct (ElementType_eqb (BpmnElement.type e) ty);
    cbn [map]; rewrite IH; reflexivity.
Qed.

Lemma buildGraph_task_labels pd :
  map labelOf (BpmnFactory.getElementsByType task (fst (buildGraph pd)))
  = map (fun ai => (task, Some (actionName (fst ai) (snd ai)),
                    Some (buildActionDocumentation (fst ai))))
      (flattenFrom (listOf (FhirPlanDefinition.action pd)) 0).
Proof.
  unfold BpmnFactory.getElementsByType. rewrite labels_of_type, buildGraph_labels.
  fold isTaskLabel.
  change ((startEvent, Some "Start", None) :: ?l ++ ?r)%list
    with ([(startEvent, Some "Start", @None string)] ++ l ++ r)%list.
  rewrite !filter_app, filter_task_flat. cbn [filter isTaskLabel fst ElementType_eqb].
  rewrite app_nil_r. reflexivity.
Qed.

(** X5. The types, names and documentation of the elements of the graph of
    a document, in creation order, are: the start event named [Start]; for each
    action of the flattened tree, its own labels; the end event named [End]
    and a flow. In particular the tasks of the graph, in order, are the
    actions of the flattened tree, each with the name and the composed
    documentation of its action. *)
Theorem graph_labels pd :
  let f := fst (buildGraph pd) in
  let flat := flattenFrom (listOf (FhirPlanDefinition.action pd)) 0 in
  map labelOf (BpmnFactory.elements f)
  = ((startEvent, Some "Start", None) :: flat_map ownLabels flat
       ++ [(endEvent, Some "End", None); (sequenceFlow, None, None)])%list
  /\ map labelOf (BpmnFactory.getElementsByType task f)
     = map (fun ai => (task, Some (actionName (fst ai) (snd ai)),
                       Some (buildActionDocumentation (fst ai)))) flat.
Proof.
  intros f flat. split; [apply buildGraph_labels|apply buildGraph_task_labels].
Qed.

(** X6. Every action of the tree of a document has its task in the graph:
    the task is named by the title of the action; by its description when the
    title is missing or empty; by [Action ] and the rank of the action among
    its siblings, counted from 1, when both are; and its documentation is the
    composed documentation of the action. *)
Theorem task_of_every_action pd action i :
  In (action, i) (flattenFrom (listOf (FhirPlanDefinition.action pd)) 0) ->
  exists e,
    In e (BpmnFactory.elements (fst (buildGraph pd)))
    /\ BpmnElement.type e = task
    /\ BpmnElement.documentation e = Some (buildActionDocumentation action)
    /\ BpmnElement.name e
       = Some match FhirAction.title action with
              | Some (String c s) => String c s
              | _ =>
                  match FhirAction.description action with
                  | Some (String c s) => String c s
                  | _ => ("Action " ++ Js.ofNat (i + 1))%string
                  end
              end.
Proof.
  intros H.
  apply (in_map (fun ai => (task, Some (actionName (fst ai) (snd ai)),
                            Some (buildActionDocumentation (fst ai))))) in H.
  rewrite <- buildGraph_task_labels in H. cbn [fst snd] in H.
  apply in_map_iff in H as (e & He & Hin).
  apply filter_In in Hin as [Hin _].
  unfold labelOf in He. injection He as Hty Hnm Hdoc.
  exists e. repeat (split; [assumption|]). rewrite Hnm. f_equal.
  unfold actionName, Js.or, Js.orStr, Js.truthy.
  destruct (FhirAction.title action) as [[|c s]|];
    destruct (FhirAction.description action) as [[|c' s']|]; reflexivity.
Qed.

Lemma task_of_every_action_witness :
  exists e,
    In e (BpmnFactory.elements (fst (buildGraph samplePlanDefinition)))
    /\ BpmnElement.type e = task
    /\ BpmnElement.name e = Some "Adult Treatment Protocol".
Proof.
  destruct (task_of_every_action samplePlanDefinition
              (FhirAction.mk (Some "action-2-1") (Some "Adult Treatment Protocol") None None
                 None None None None None None None) 0)
    as (e & He & Hty & _ & Hnm).
  - vm_compute. do 2 right. left. reflexivity.
  - exists e. split; [exact He|]. split; [exact Hty|exact Hnm].
Defined.

(** ** Nothing is ever removed *)

Lemma extendsEl_refl e : extendsEl e e.
Proof.
  split; [apply sameCore_refl|]. split; exists []; rewrite app_nil_r; reflexivity.
Qed.

Lemma extendsEl_trans e1 e2 e3 : extendsEl e1 e2 -> extendsEl e2 e3 -> extendsEl e1 e3.
Proof.
  intros (C1 & (i1 & I1) & (o1 & O1)) (C2 & (i2 & I2) & (o2 & O2)).
  split; [eapply sameCore_trans; eauto|].
  split; [exists (i1 ++ i2)%list|exists (o1 ++ o2)%list]; rewrite app_assoc; congruence.
Qed.

Lemma extendsEl_pushOutgoing i e : extendsEl e (BpmnElement.pushOutgoing i e).
Proof.
  split; [apply sameCore_pushOutgoing|]. split.
  - exists []. rewrite app_nil_r. reflexivity.
  - exists [i]. cbn. destruct (BpmnElement.outgoing e); reflexivity.
Qed.

Lemma extendsEl_pushIncoming i e : extendsEl e (BpmnElement.pushIncoming i e).
Proof.
  split; [apply sameCore_pushIncoming|]. split.
  - exists [i]. cbn. destruct (BpmnElement.incoming e); reflexivity.
  - exists []. rewrite app_nil_r. reflexivity.
Qed.

Lemma Forall2_extendsEl_refl l : Forall2 extendsEl l l.
Proof. induction l; constructor; auto using extendsEl_refl. Qed.

Lemma Forall2_extendsEl_trans l1 l2 l3 :
  Forall2 extendsEl l1 l2 -> Forall2 extendsEl l2 l3 -> Forall2 extendsEl l1 l3.
Proof.
  intros H. revert l3. induction H; intros l3 H3; inversion H3; subst; constructor.
  - eapply extendsEl_trans; eauto.
  - auto.
Qed.

Lemma updateFirst_extendsEl p g l :
  (forall e, extendsEl e (g e)) -> Forall2 extendsEl l (Js.updateFirst p g l).
Proof.
  intros Hg. induction l as [|x r IH]; simpl; [constructor|].
  destruct (p x); constructor; auto using extendsEl_refl, Forall2_extendsEl_refl.
Qed.

Lemma Extends_refl f : Extends f f.
Proof.
  split; [exists (BpmnFactory.elements f), []; rewrite app_nil_r;
          auto using Forall2_extendsEl_refl|].
  split; [exists []; rewrite app_nil_r; reflexivity|]. repeat split; lia.
Qed.

Lemma Extends_trans f1 f2 f3 : Extends f1 f2 -> Extends f2 f3 -> Extends f1 f3.
Proof.
  intros ((o1 & c1 & E1 & F1) & (m1 & D1) & A1 & B1 & X1 & Y1)
         ((o2 & c2 & E2 & F2) & (m2 & D2) & A2 & B2 & X2 & Y2).
  split; [|split; [exists (m1 ++ m2)%list; rewrite D2, D1, app_assoc; reflexivity|
                   repeat split; try lia; congruence]].
  rewrite E1 in F2. apply Forall2_app_inv_l in F2 as (o & c1' & Ho & _ & ->).
  exists o, (c1' ++ c2)%list. split; [rewrite E2, app_assoc; reflexivity|].
  eapply Forall2_extendsEl_trans; eauto.
Qed.

Lemma Extends_afterNode e w h f :
  (0 <= w + BpmnFactory.HORIZONTAL_SPACING)%Z -> Extends f (afterNode e w h f).
Proof.
  intros Hw. split; [exists (BpmnFactory.elements f), [e]; auto using Forall2_extendsEl_refl|].
  split; [eexists; reflexivity|]. cbn. repeat split; lia.
Qed.

Lemma Extends_createSequenceFlow s t ce nm f :
  Extends f (snd (BpmnFactory.createSequenceFlow s t ce nm f)).
Proof.
  destruct (createSequenceFlow_spec s t ce nm f) as (_ & Hel & Hdi & Hc & Hf & Hx & Hy).
  cbv zeta in Hel, Hdi, Hc, Hf, Hx, Hy.
  split; [|split; [eexists; exact Hdi|repeat split; lia]].
  assert (H : Forall2 extendsEl
                (BpmnFactory.elements f ++ [flowElement (nextFlowId f) s t ce nm])
                (BpmnFactory.elements (snd (BpmnFactory.createSequenceFlow s t ce nm f)))).
  { rewrite Hel. eapply Forall2_extendsEl_trans; apply updateFirst_extendsEl;
      auto using extendsEl_pushOutgoing, extendsEl_pushIncoming. }
  apply Forall2_app_inv_l in H as (o & c & Ho & _ & ->). eauto.
Qed.

Lemma Extends_node_flow e w h s t ce nm f :
  (0 <= w + BpmnFactory.HORIZONTAL_SPACING)%Z ->
  Extends f (snd (BpmnFactory.createSequenceFlow s t ce nm (afterNode e w h f))).
Proof.
  intros Hw. eapply Extends_trans; [apply Extends_afterNode; exact Hw|].
  apply Extends_createSequenceFlow.
Qed.

Lemma Extends_triggerStep action f last :
  Extends f (fst (triggerStep action (f, last))).
Proof.
  destruct (nonEmpty (FhirAction.trigger action)) as [trigger|] eqn:E.
  - rewrite (triggerStep_some _ _ _ _ E). apply Extends_node_flow. discriminate.
  - rewrite (triggerStep_none _ _ E). apply Extends_refl.
Qed.

Lemma Extends_taskStep action i f last :
  Extends f (fst (taskStep action i (f, last))).
Proof.
  destruct (nonEmpty_nil_cases (FhirAction.condition action)) as [E|(c & rest & E)].
  - rewrite (taskStep_plain _ i f last E). apply Extends_node_flow. discriminate.
  - rewrite (taskStep_condition _ i _ _ f last E). cbn zeta. cbn [fst].
    eapply Extends_trans; apply Extends_node_flow; discriminate.
Qed.

Lemma Extends_fold flat :
  forall f last, Extends f (fst (fold_left ownStep flat (f, last))).
Proof.
  induction flat as [|ai flat IH]; intros f last; [apply Extends_refl|].
  cbn [fold_left]. unfold ownStep at 2.
  pose proof (Extends_triggerStep (fst ai) f last) as H1.
  destruct (triggerStep (fst ai) (f, last)) as [f1 last1].
  pose proof (Extends_taskStep (fst ai) (snd ai) f1 last1) as H2.
  destruct (taskStep (fst ai) (snd ai) (f1, last1)) as [f2 last2].
  cbn [fst] in H1, H2.
  eapply Extends_trans; [exact H1|]. eapply Extends_trans; [exact H2|]. apply IH.
Qed.

(** X7. The factory and the walker only add: [createSequenceFlow], the
    five creators and a walk over any list of actions, from any state, leave
    every element of the state where it was, with the same identifier, type,
    name, documentation and ends, its [incoming] and [outgoing] lists being
    extended at the end only; leave every DI entry as it was; never lower a
    counter or the cursor; and never move the centre line. *)
Theorem only_additions :
  (forall s t ce nm f, Extends f (snd (BpmnFactory.createSequenceFlow s t ce nm f)))
  /\ (forall f, Extends f (snd (BpmnFactory.createStartEvent f)))
  /\ (forall inc f, Extends f (snd (BpmnFactory.createEndEvent inc f)))
  /\ (forall name inc doc f, Extends f (snd (BpmnFactory.createTask name inc doc f)))
  /\ (forall name inc f, Extends f (snd (BpmnFactory.createExclusiveGateway name inc f)))
  /\ (forall name inc doc f,
         Extends f (snd (BpmnFactory.createIntermediateEvent name inc doc f)))
  /\ (forall actions f previousElementId,
         Extends f (fst (processActions f actions previousElementId))).
Proof.
  split; [exact Extends_createSequenceFlow|].
  split; [intros f; rewrite createStartEvent_spec; apply Extends_afterNode; discriminate|].
  split; [intros inc f; rewrite createEndEvent_spec; apply Extends_afterNode; discriminate|].
  split; [intros name inc doc f; rewrite createTask_spec; apply Extends_afterNode;
          discriminate|].
  split; [intros name inc f; rewrite createExclusiveGateway_spec; apply Extends_afterNode;
          discriminate|].
  split; [intros name inc doc f; rewrite createIntermediateEvent_spec;
          apply Extends_afterNode; discriminate|].
  intros actions f previousElementId. unfold processActions.
  rewrite processActionsFrom_fold. apply Extends_fold.
Qed.


(** ** Escaping loses nothing *)

Lemma length_append a b :
  String.length (a ++ b) = String.length a + String.length b.
Proof. induction a as [|c a IH]; simpl; [reflexivity|]. rewrite IH. reflexivity. Qed.

Lemma escapeChars_app a b : escapeChars (a ++ b) = (escapeChars a ++ escapeChars b)%string.
Proof.
  induction a as [|c a IH]; simpl; [reflexivity|]. rewrite IH, append_assoc. reflexivity.
Qed.

Ltac entity_cases c :=
  unfold entity, isReserved, isMarkup;
  destruct (Ascii.eqb_spec c "&"); [subst c|];
  [|destruct (Ascii.eqb_spec c "<"); [subst c|];
    [|destruct (Ascii.eqb_spec c ">"); [subst c|];
      [|destruct (Ascii.eqb_spec c "034"); [subst c|];
        [|destruct (Ascii.eqb_spec c "'"); [subst c|]]]]].

Lemma entity_inj c c' x y :
  (entity c ++ x)%string = (entity c' ++ y)%string -> c = c' /\ x = y.
Proof.
  entity_cases c; entity_cases c'; cbn [append]; intros H;
    try discriminate H;
    try (injection H as H; split; [reflexivity|exact H]);
    try (injection H as H1 H2; congruence).
  injection H as H1 H2. split; assumption.
Qed.

Lemma escapeChars_inj a : forall b, escapeChars a = escapeChars b -> a = b.
Proof.
  induction a as [|c a IH]; intros [|c' b] H; cbn [escapeChars] in H.
  - reflexivity.
  - exfalso. revert H. entity_cases c'; discriminate.
  - exfalso. revert H. entity_cases c; discriminate.
  - apply entity_inj in H as [-> H]. f_equal. apply IH. exact H.
Qed.

Lemma entity_length c :
  1 <= String.length (entity c)
  /\ (String.length (entity c) = 1 -> isReserved c = false)
  /\ (isReserved c = false -> entity c = String c EmptyString).
Proof. entity_cases c; cbn; repeat split; auto; try discriminate; lia. Qed.

Lemma escapeChars_length s : String.length s <= String.length (escapeChars s).
Proof.
  induction s as [|c s IH]; simpl; [lia|]. rewrite length_append.
  pose proof (entity_length c) as [H _]. lia.
Qed.

Lemma escapeChars_same_length s :
  String.length (escapeChars s) = String.length s -> noReserved s = true.
Proof.
  induction s as [|c s IH]; [reflexivity|]. cbn [escapeChars noReserved String.length].
  rewrite length_append. intros H.
  pose proof (entity_length c) as (H1 & H2 & _). pose proof (escapeChars_length s) as H3.
  rewrite H2 by lia. apply IH. lia.
Qed.

Lemma escapeChars_noReserved s : noReserved s = true -> escapeChars s = s.
Proof.
  induction s as [|c s IH]; [reflexivity|]. cbn [escapeChars noReserved].
  intros H. apply andb_true_iff in H as [H1 H2]. apply negb_true_iff in H1.
  pose proof (entity_length c) as (_ & _ & H3). rewrite (H3 H1), (IH H2). reflexivity.
Qed.

(** X8. [escapeXml] loses nothing and touches nothing else: it commutes
    with concatenation; two different texts never have the same escaped form;
    the escaped form is never shorter than the text; it is the text itself
    exactly when the text holds none of the five reserved characters; and so
    escaping twice gives the same as escaping once only for such a text: the
    ampersand of an entity is escaped again. *)
Theorem escapeXml_faithful :
  (forall a b, escapeXml (a ++ b) = (escapeXml a ++ escapeXml b)%string)
  /\ (forall a b, escapeXml a = escapeXml b -> a = b)
  /\ (forall s, String.length s <= String.length (escapeXml s))
  /\ (forall s, escapeXml s = s <-> noReserved s = true)
  /\ (forall s, escapeXml (escapeXml s) = escapeXml s <-> noReserved s = true).
Proof.
  assert (Hinj : forall a b, escapeXml a = escapeXml b -> a = b).
  { intros a b. rewrite !escapeXml_escapeChars. apply escapeChars_inj. }
  assert (Hid : forall s, escapeXml s = s <-> noReserved s = true).
  { intros s. rewrite escapeXml_escapeChars. split.
    - intros H. apply escapeChars_same_length. rewrite H. reflexivity.
    - apply escapeChars_noReserved. }
  split; [intros a b; rewrite !escapeXml_escapeChars; apply escapeChars_app|].
  split; [exact Hinj|].
  split; [intros s; rewrite escapeXml_escapeChars; apply escapeChars_length|].
  split; [exact Hid|].
  intros s. rewrite <- Hid. split; [apply Hinj|]. intros H. rewrite !H. reflexivity.
Qed.

(** ** The lines of the documentation *)

Lemma labelled_nonempty line : labelled line \/ line = "Type: " -> line <> EmptyString.
Proof.
  intros [(label & value & -> & H)| ->]; [|discriminate].
  apply append_nonempty_r, append_nonempty_r, H.
Qed.

Lemma forEachIdx_one_length {A : Type} (g : nat -> A -> string) l :
  forall idx, List.length (forEachIdx (fun i x => [g i x]) idx l) = List.length l.
Proof. induction l as [|x l IH]; intros idx; simpl; [reflexivity|]. rewrite IH. reflexivity. Qed.

Lemma forEachIdx_documentation_length l :
  forall idx,
    List.length (forEachIdx documentationLine idx l)
    = List.length (filter (fun d => Js.truthy (FhirDocumentation.display d)) l).
Proof.
  induction l as [|d l IH]; intros idx; [reflexivity|].
  cbn [forEachIdx filter]. rewrite length_app, IH. unfold documentationLine.
  destruct (FhirDocumentation.display d) as [[|c s]|]; reflexivity.
Qed.

Lemma nonEmpty_length {A : Type} (o : option (list A)) :
  match nonEmpty o with Some l => List.length l | None => 0 end = List.length (listOf o).
Proof. destruct o as [[|x r]|]; reflexivity. Qed.

Lemma docParts_length action : List.length (docParts action) = lineCount action.
Proof.
  unfold docParts, lineCount, hasTrigger. cbn [List.concat].
  rewrite app_nil_r, !length_app, !Nat.add_assoc.
  rewrite <- (nonEmpty_length (FhirAction.condition action)),
          <- (nonEmpty_length (FhirAction.dynamicValue action)).
  repeat match goal with |- _ + _ = _ + _ => f_equal end.
  - destruct (FhirAction.description action) as [[|c s]|]; reflexivity.
  - destruct (FhirAction.textEquivalent action) as [[|c s]|]; reflexivity.
  - destruct (nonEmpty (codingsOf (FhirAction.type action))); reflexivity.
  - destruct (nonEmpty (FhirAction.trigger action)); reflexivity.
  - destruct (nonEmpty (FhirAction.condition action)); [apply forEachIdx_one_length|reflexivity].
  - destruct (nonEmpty (FhirAction.dynamicValue action));
      [apply forEachIdx_one_length|reflexivity].
  - destruct (FhirAction.documentation action) as [[|x r]|]; try reflexivity.
    apply forEachIdx_documentation_length.
Qed.

Lemma filter_nil_iff {A : Type} (p : A -> bool) l :
  List.length (filter p l) = 0 <-> Forall (fun x => p x = false) l.
Proof.
  induction l as [|x l IH]; simpl; [split; auto|].
  destruct (p x) eqn:E; simpl; split; intros H.
  - discriminate.
  - inversion H; congruence.
  - constructor; [exact E|apply IH, H].
  - inversion H; subst. apply IH. assumption.
Qed.

(** X9. The documentation of an action has one line for each of the
    description, the text equivalent, the type and the triggers that is
    there, one for each condition and each dynamic value, and one for each
    documentation entry with a display; no line is empty; and the whole
    documentation is empty exactly when the action has none of these: no
    description, no text equivalent, no coding, no trigger, no condition, no
    dynamic value and no documentation entry with a display. *)
Theorem documentation_lines action :
  List.length (docParts action) = lineCount action
  /\ Forall (fun line => line <> EmptyString) (docParts action)
  /\ (buildActionDocumentation action = EmptyString
      <-> Js.truthy (FhirAction.description action) = false
          /\ Js.truthy (FhirAction.textEquivalent action) = false
          /\ nonEmpty (codingsOf (FhirAction.type action)) = None
          /\ nonEmpty (FhirAction.trigger action) = None
          /\ listOf (FhirAction.condition action) = []
          /\ listOf (FhirAction.dynamicValue action) = []
          /\ Forall (fun d => Js.truthy (FhirDocumentation.display d) = false)
                (listOf (FhirAction.documentation action))).
Proof.
  assert (Hne : Forall (fun line => line <> EmptyString) (docParts action)).
  { eapply Forall_impl; [|apply docParts_labelled]. exact labelled_nonempty. }
  split; [apply docParts_length|]. split; [exact Hne|].
  transitivity (lineCount action = 0).
  - rewrite <- docParts_length. unfold buildActionDocumentation.
    destruct (docParts action) as [|x r]; [split; reflexivity|].
    split; [|discriminate]. intros H. exfalso. revert H. apply join_nonempty.
    inversion Hne; assumption.
  - unfold lineCount, hasTrigger.
    rewrite <- (filter_nil_iff (fun d => Js.truthy (FhirDocumentation.display d))).
    destruct (Js.truthy (FhirAction.description action)),
             (Js.truthy (FhirAction.textEquivalent action)),
             (nonEmpty (codingsOf (FhirAction.type action))),
             (nonEmpty (FhirAction.trigger action)),
             (listOf (FhirAction.condition action)),
             (listOf (FhirAction.dynamicValue action));
      cbn [Nat.b2n List.length Nat.add]; split;
      try (intros H; discriminate H);
      try (intros H; decompose [and] H; discriminate).
    + intros H. repeat split. exact H.
    + intros H. decompose [and] H. assumption.
Qed.

(** ** Looking an element up *)

Lemma buildGraph_mirror pd :
  Forall2 diFor (BpmnFactory.elements (fst (buildGraph pd)))
    (BpmnFactory.diElements (fst (buildGraph pd))).
Proof.
  destruct (buildGraph_chain pd) as (f0 & last0 & e & ce & nm & C & N & Hty & Hf).
  rewrite <- Hty in Hf. rewrite Hf.
  exact (Chain_mirror _ _ (Chain_step f0 last0 e ce nm C N)).
Qed.

Lemma find_none_keys {A : Type} (key : A -> string) i l :
  find (fun x => String.eqb (key x) i) l = None <-> ~ In i (map key l).
Proof.
  induction l as [|x l IH]; simpl; [tauto|].
  destruct (String.eqb_spec (key x) i) as [E|E].
  - split; [discriminate|]. intros H. exfalso. apply H. left. exact E.
  - rewrite IH. tauto.
Qed.

Lemma find_own_key {A : Type} (key : A -> string) l e :
  NoDup (map key l) -> In e l -> find (fun x => String.eqb (key x) (key e)) l = Some e.
Proof.
  induction l as [|x l IH]; intros Hnd Hin; [destruct Hin|].
  inversion Hnd as [|? ? Hx Hl]; subst. simpl.
  destruct Hin as [->|Hin]; [rewrite String.eqb_refl; reflexivity|].
  destruct (String.eqb_spec (key x) (key e)) as [E|_]; [|apply IH; assumption].
  exfalso. apply Hx. rewrite E. apply in_map. exact Hin.
Qed.

Lemma mirror_keys els dis :
  Forall2 diFor els dis -> map BpmnDiElement.bpmnElement dis = map BpmnElement.id els.
Proof.
  induction 1 as [|e d l l' Hed _ IH]; [reflexivity|].
  cbn [map]. rewrite IH. destruct (diFor_id e d Hed) as [-> _]. reflexivity.
Qed.

Lemma mirror_find els dis e :
  Forall2 diFor els dis -> NoDup (map BpmnElement.id els) -> In e els ->
  exists d, find (BpmnDiElement.isFor (BpmnElement.id e)) dis = Some d
            /\ In d dis /\ diFor e d.
Proof.
  induction 1 as [|x d l l' Hxd M IH]; intros Hnd Hin; [destruct Hin|].
  inversion Hnd as [|? ? Hx Hl]; subst.
  destruct (diFor_id x d Hxd) as [Hb _]. cbn [find]. unfold BpmnDiElement.isFor at 1.
  rewrite Hb. destruct Hin as [->|Hin].
  - rewrite String.eqb_refl. exists d. split; [reflexivity|]. split; [left; reflexivity|exact Hxd].
  - destruct (String.eqb_spec (BpmnElement.id x) (BpmnElement.id e)) as [E|_].
    + exfalso. apply Hx. rewrite E. apply in_map. exact Hin.
    + destruct (IH Hl Hin) as (d' & Hf & Hd' & He). exists d'.
      split; [exact Hf|]. split; [right; exact Hd'|exact He].
Qed.

(** X10. In the graph of every document the lookups are exact:
    [getElementById] on the identifier of an element of the graph returns
    that very element, with the flows that were added to it, and
    [getDiElement] returns its own DI entry; [getElementById] returns nothing
    exactly for the identifiers of no element; and [getDiElement] returns
    nothing exactly where [getElementById] does. *)
Theorem lookups_are_exact pd :
  let f := fst (buildGraph pd) in
  (forall e, In e (BpmnFactory.elements f) ->
     BpmnFactory.getElementById (BpmnElement.id e) f = Some e)
  /\ (forall e, In e (BpmnFactory.elements f) ->
        exists d, BpmnFactory.getDiElement (BpmnElement.id e) f = Some d
                  /\ In d (BpmnFactory.diElements f) /\ diFor e d)
  /\ (forall i, BpmnFactory.getElementById i f = None
                <-> ~ In i (map BpmnElement.id (BpmnFactory.elements f)))
  /\ (forall i, BpmnFactory.getDiElement i f = None
                <-> BpmnFactory.getElementById i f = None).
Proof.
  intros f. pose proof (linked_nodup f (buildGraph_linked pd)) as Hnd.
  pose proof (buildGraph_mirror pd) as M. fold f in M.
  assert (Hnone : forall i, BpmnFactory.getElementById i f = None
                            <-> ~ In i (map BpmnElement.id (BpmnFactory.elements f))).
  { intros i. apply (find_none_keys BpmnElement.id). }
  split; [intros e He; apply (find_own_key BpmnElement.id); assumption|].
  split; [intros e He; apply (mirror_find (BpmnFactory.elements f)); assumption|].
  split; [exact Hnone|].
  intros i. rewrite Hnone, <- (mirror_keys _ _ M).
  apply (find_none_keys BpmnDiElement.bpmnElement).
Qed.

Lemma lookups_are_exact_witness :
  BpmnFactory.getElementById "Task_4" (fst (buildGraph samplePlanDefinition))
  = Some (nodeElement "Task_4" task "Check Eligibility"
            (Some "Condition 1: patient.age >= 18") (Some ["temp_incoming"; "Flow_3"])
            (Some ["Flow_4"])).
Proof.
  apply (proj1 (lookups_are_exact samplePlanDefinition)
           (nodeElement "Task_4" task "Check Eligibility"
              (Some "Condition 1: patient.age >= 18") (Some ["temp_incoming"; "Flow_3"])
              (Some ["Flow_4"]))).
  vm_compute. do 5 right. left. reflexivity.
Defined.

(** ** Creation order *)

Lemma numberedFrom_snoc l ty :
  forall k, numberedFrom k (l ++ [ty]) = (numberedFrom k l ++ [idOf ty (k + List.length l)])%list.
Proof.
  induction l as [|a l IH]; intros k; cbn [numberedFrom app List.length].
  - rewrite Nat.add_0_r. reflexivity.
  - rewrite IH. replace (k + S (List.length l)) with (S k + List.length l) by lia.
    reflexivity.
Qed.

Lemma steps_snoc l x :
  l <> [] ->
  steps (l ++ [x]) = (steps l ++ [(Some (List.last l EmptyString), Some x)])%list.
Proof.
  induction l as [|a l IH]; intros H; [contradiction|].
  destruct l as [|b l]; [reflexivity|].
  change (steps ((a :: b :: l) ++ [x])) with ((Some a, Some b) :: steps ((b :: l) ++ [x])).
  rewrite IH by discriminate. reflexivity.
Qed.

Lemma filter_map_same {A : Type} (p : A -> bool) (g : A -> A) l :
  (forall x, p (g x) = p x) -> filter p (map g l) = map g (filter p l).
Proof.
  intros H. induction l as [|x l IH]; [reflexivity|].
  cbn [map filter]. rewrite H, IH. destruct (p x); reflexivity.
Qed.

Lemma map_link_ids fid s t l :
  map BpmnElement.id (map (link fid s t) l) = map BpmnElement.id l.
Proof. rewrite map_map. apply map_ext. intros e. apply link_id. Qed.

Lemma map_link_types fid s t l :
  map BpmnElement.type (map (link fid s t) l) = map BpmnElement.type l.
Proof.
  rewrite map_map. apply map_ext. intros e.
  destruct (link_sameCore fid s t e) as (_ & H & _). exact H.
Qed.

Lemma map_link_ends fid s t l : map endsOf (map (link fid s t) l) = map endsOf l.
Proof.
  rewrite map_map. apply map_ext. intros e. unfold endsOf.
  destruct (link_sameCore fid s t e) as (_ & _ & _ & _ & -> & -> & _). reflexivity.
Qed.

Lemma step_nodes fid s t ce nm els e :
  isFlow e = false ->
  nodesOf (map (link fid s t) (els ++ [e]) ++ [flowElement fid s t ce nm])
  = map (link fid s t) (nodesOf els ++ [e]).
Proof.
  intros He. unfold nodesOf. rewrite filter_app, filter_map_same, filter_app.
  - cbn [filter]. rewrite He. change (isFlow (flowElement fid s t ce nm)) with true.
    cbn [negb]. rewrite app_nil_r. reflexivity.
  - intros x. rewrite link_isFlow. reflexivity.
Qed.

Lemma step_flows fid s t ce nm els e :
  isFlow e = false ->
  flowsOf (map (link fid s t) (els ++ [e]) ++ [flowElement fid s t ce nm])
  = (map (link fid s t) (flowsOf els) ++ [flowElement fid s t ce nm])%list.
Proof.
  intros He. unfold flowsOf. rewrite filter_app, filter_map_same, filter_app.
  - cbn [filter]. rewrite He. change (isFlow (flowElement fid s t ce nm)) with true.
    rewrite app_nil_r. reflexivity.
  - intros x. apply link_isFlow.
Qed.

Lemma Chain_counters f last e ce nm :
  let f' := snd (BpmnFactory.createSequenceFlow last (BpmnElement.id e) ce nm
                   (afterNode e (widthOf (BpmnElement.type e))
                      (heightOf (BpmnElement.type e)) f)) in
  BpmnFactory.elementCounter f' = S (BpmnFactory.elementCounter f)
  /\ BpmnFactory.flowCounter f' = S (BpmnFactory.flowCounter f)
  /\ BpmnFactory.currentX f'
     = (BpmnFactory.currentX f
        + (widthOf (BpmnElement.type e) + BpmnFactory.HORIZONTAL_SPACING))%Z.
Proof.
  destruct (createSequenceFlow_spec last (BpmnElement.id e) ce nm
              (afterNode e (widthOf (BpmnElement.type e))
                 (heightOf (BpmnElement.type e)) f))
    as (_ & _ & _ & Hc & Hf & Hx & _).
  cbv zeta in *. rewrite Hc, Hf, Hx. repeat split.
Qed.

Lemma Chain_ordered f last : Chain f last -> Ordered f last.
Proof.
  induction 1 as [|f last e ce nm C IH N].
  - repeat split.
  - destruct IH as (In & If & Ie & Ic & Ifc & Il & Ilast).
    pose proof (Chain_step_elements f last e ce nm C N) as Hel.
    destruct (Chain_counters f last e ce nm) as (Hc & Hf & _).
    destruct N as (Hfl & _ & Hid & _).
    cbv zeta in Hel, Hc, Hf. unfold Ordered. cbv zeta. rewrite Hel, Hc, Hf.
    rewrite (step_nodes _ _ _ ce nm _ e Hfl), (step_flows _ _ _ ce nm _ e Hfl).
    rewrite !map_app, !map_link_ids, !map_link_types, !map_link_ends.
    rewrite !length_app, !length_map. cbn [map List.length].
    rewrite In, If, Ie. rewrite !numberedFrom_snoc, !length_map.
    rewrite steps_snoc.
    2:{ rewrite <- In. destruct (nodesOf (BpmnFactory.elements f)); [discriminate Il|].
        discriminate. }
    rewrite <- In, Ilast, last_last.
    repeat split; try lia.
    + rewrite Hid, Ic. reflexivity.
    + rewrite <- Ifc. reflexivity.
Qed.

(** X11. In the graph of every document the elements are numbered in
    creation order: the node number [k] has the prefix of its type followed
    by [_k], the flow number [k] is [Flow_k], and this flow goes from the
    node number [k] to the node number [k + 1]; there is one node more than
    there are flows, and the two counters of the factory are these two
    numbers. *)
Theorem creation_order pd :
  let f := fst (buildGraph pd) in
  let nodes := nodesOf (BpmnFactory.elements f) in
  let flows := flowsOf (BpmnFactory.elements f) in
  map BpmnElement.id nodes = numberedFrom 1 (map BpmnElement.type nodes)
  /\ map BpmnElement.id flows
     = map (fun k => ("Flow_" ++ Js.ofNat k)%string) (seq 1 (List.length flows))
  /\ map endsOf flows = steps (map BpmnElement.id nodes)
  /\ List.length nodes = S (List.length flows)
  /\ BpmnFactory.elementCounter f = List.length nodes
  /\ BpmnFactory.flowCounter f = List.length flows.
Proof.
  intros f nodes flows.
  assert (O : Ordered f (List.last (map BpmnElement.id nodes) EmptyString)).
  { destruct (buildGraph_chain pd) as (f0 & last0 & e & ce & nm & C & N & Hty & Hf).
    fold f in Hf. rewrite <- Hty in Hf.
    pose proof (Chain_ordered _ _ (Chain_step f0 last0 e ce nm C N)) as O.
    rewrite <- Hf in O. destruct O as (H1 & H2 & H3 & H4 & H5 & H6 & H7).
    repeat split; assumption. }
  destruct O as (H1 & H2 & H3 & H4 & H5 & H6 & _). fold nodes flows in H1, H2, H3, H4, H5, H6.
  repeat split; try assumption.
  rewrite H2. unfold flows, flowsOf. clear.
  generalize 1. induction (BpmnFactory.elements f) as [|x l IH]; intros k; [reflexivity|].
  cbn [filter]. destruct (isFlow x) eqn:E; [|apply IH].
  cbn [map numberedFrom List.length seq]. rewrite IH. f_equal.
  unfold isFlow in E. destruct (BpmnElement.type x); try discriminate E. reflexivity.
Qed.

(** ** The connectors *)

Lemma Chain_step_edge f last e ce nm ty x :
  Chain f last -> chainNode f e ->
  BpmnFactory.getDiElement last f = Some (shapeOf last ty x) ->
  BpmnFactory.diElements
    (snd (BpmnFactory.createSequenceFlow last (BpmnElement.id e) ce nm
            (afterNode e (widthOf (BpmnElement.type e))
               (heightOf (BpmnElement.type e)) f)))
  = ((BpmnFactory.diElements f
      ++ [shapeOf (BpmnElement.id e) (BpmnElement.type e) (BpmnFactory.currentX f)])
     ++ [edgeElement (nextFlowId f) (shapeOf last ty x)
           (shapeOf (BpmnElement.id e) (BpmnElement.type e) (BpmnFactory.currentX f))])%list.
Proof.
  intros C N Hlast. destruct (Chain_linked f last C) as [L _].
  pose proof (Chain_laidOut f last C) as Y.
  pose proof (chainNode_fresh f e L N) as Hfresh.
  pose proof (getDiElement_fresh f _ (laid_ids f Y) Hfresh) as Hnone.
  set (f1 := afterNode e (widthOf (BpmnElement.type e)) (heightOf (BpmnElement.type e)) f).
  assert (Hdi : BpmnFactory.diElements f1
                = (BpmnFactory.diElements f
                   ++ [shapeOf (BpmnElement.id e) (BpmnElement.type e)
                         (BpmnFactory.currentX f)])%list).
  { unfold f1, shapeOf. cbn [afterNode BpmnFactory.diElements]. rewrite (laid_y f Y).
    reflexivity. }
  destruct (createSequenceFlow_spec last (BpmnElement.id e) ce nm f1) as (_ & _ & H & _).
  cbv zeta in H. rewrite H. unfold BpmnFactory.getDiElement in *. rewrite Hdi.
  rewrite (find_app_some _ _ _ _ Hlast), (find_app_none _ _ _ Hnone).
  cbn [find]. unfold BpmnDiElement.isFor at 1. unfold shapeOf at 1.
  cbn [BpmnDiElement.bpmnElement]. rewrite String.eqb_refl. reflexivity.
Qed.

Lemma edge_level last ty x id ty' fid :
  exists x0,
    BpmnDiElement.waypoints
      (edgeElement fid (shapeOf last ty x)
         (shapeOf id ty' (x + widthOf ty + BpmnFactory.HORIZONTAL_SPACING)))
    = Some [Waypoint.mk x0 150; Waypoint.mk (x0 + BpmnFactory.HORIZONTAL_SPACING) 150].
Proof.
  exists (x + widthOf ty)%Z. unfold edgeElement, BpmnFactory.edgeWaypoints, shapeOf.
  cbn [BpmnDiElement.waypoints BpmnDiElement.x BpmnDiElement.y BpmnDiElement.width
       BpmnDiElement.height Js.orZero].
  do 3 f_equal; f_equal; lia.
Qed.

Lemma Chain_level f last : Chain f last -> Frontier f last /\ Level (BpmnFactory.diElements f).
Proof.
  induction 1 as [|f last e ce nm C [(ty & x & Hlast & Hx) IH] N].
  - split.
    + exists startEvent, 100%Z. split; reflexivity.
    + intros d wps [<-|[]] H. discriminate H.
  - pose proof (Chain_step_edge f last e ce nm ty x C N Hlast) as Hdi.
    destruct (Chain_counters f last e ce nm) as (_ & _ & Hcx). cbv zeta in Hcx.
    split.
    + exists (BpmnElement.type e), (BpmnFactory.currentX f). split; [|rewrite Hcx; lia].
      unfold BpmnFactory.getDiElement. rewrite Hdi.
      destruct (Chain_linked f last C) as [L _].
      pose proof (getDiElement_fresh f _ (laid_ids f (Chain_laidOut f last C))
                    (chainNode_fresh f e L N)) as Hnone.
      apply find_app_some. rewrite (find_app_none _ _ _ Hnone).
      cbn [find]. unfold BpmnDiElement.isFor, shapeOf at 1.
      cbn [BpmnDiElement.bpmnElement]. rewrite String.eqb_refl. reflexivity.
    + rewrite Hdi. intros d wps Hd Hw. apply in_app_or in Hd as [Hd|[<-|[]]].
      * apply in_app_or in Hd as [Hd|[<-|[]]]; [exact (IH d wps Hd Hw)|discriminate Hw].
      * rewrite <- Hx in Hw.
        destruct (edge_level last ty x (BpmnElement.id e) (BpmnElement.type e) (nextFlowId f))
          as (x0 & H0).
        rewrite H0 in Hw. injection Hw as <-. exists x0. reflexivity.
Qed.

(** X12. In the graph of every document every connector is drawn level:
    the edge of every flow is there, and it is a segment of the centre line
    150 that goes from left to right over exactly the spacing 180; no other
    DI entry has waypoints that are not of this form. *)
Theorem connectors_are_level pd :
  let f := fst (buildGraph pd) in
  (forall fl, In fl (BpmnFactory.elements f) -> isFlow fl = true ->
     exists d x,
       BpmnFactory.getDiElement (BpmnElement.id fl) f = Some d
       /\ BpmnDiElement.waypoints d = Some [Waypoint.mk x 150; Waypoint.mk (x + 180) 150])
  /\ (forall d wps, In d (BpmnFactory.diElements f) ->
        BpmnDiElement.waypoints d = Some wps ->
        exists x, wps = [Waypoint.mk x 150; Waypoint.mk (x + 180) 150]).
Proof.
  intros f.
  assert (V : Level (BpmnFactory.diElements f)).
  { destruct (buildGraph_chain pd) as (f0 & last0 & e & ce & nm & C & N & Hty & Hf).
    fold f in Hf. rewrite <- Hty in Hf. rewrite Hf.
    apply (Chain_level _ _ (Chain_step f0 last0 e ce nm C N)). }
  split; [|exact V].
  intros fl Hin Hfl.
  destruct (laid_edge f (buildGraph_laidOut pd) fl Hin Hfl)
    as (s & t & ss & ts & _ & _ & _ & _ & Hd).
  assert (Hd' : In (edgeElement (BpmnElement.id fl) ss ts) (BpmnFactory.diElements f)).
  { apply (find_some _ _ Hd). }
  destruct (V _ _ Hd' eq_refl) as (x & Hx).
  exists (edgeElement (BpmnElement.id fl) ss ts), x. split; [exact Hd|].
  cbn [edgeElement BpmnDiElement.waypoints]. rewrite Hx. reflexivity.
Qed.

Lemma connectors_are_level_witness :
  exists d x,
    BpmnFactory.getDiElement "Flow_3" (fst (buildGraph samplePlanDefinition)) = Some d
    /\ BpmnDiElement.waypoints d = Some [Waypoint.mk x 150; Waypoint.mk (x + 180) 150].
Proof.
  apply (proj1 (connectors_are_level samplePlanDefinition)
           (flowElement "Flow_3" "Gateway_3" "Task_4" (Some "patient.age >= 18")
              (Some "Yes"))).
  - vm_compute. do 6 right. left. reflexivity.
  - reflexivity.
Defined.

(** ** The flows that carry a condition *)

Lemma Conditioned_step f last e ce nm :
  Chain f last -> chainNode f e -> BpmnElement.default e = None ->
  Conditioned f ->
  (gatewayId (Some last) /\ nm = Some "Yes")
  \/ (~ gatewayId (Some last) /\ nm = None /\ ce = None) ->
  Conditioned (snd (BpmnFactory.createSequenceFlow last (BpmnElement.id e) ce nm
                      (afterNode e (widthOf (BpmnElement.type e))
                         (heightOf (BpmnElement.type e)) f))).
Proof.
  intros C N Hdef [Hd Hfl] Hnm. unfold Conditioned.
  rewrite (Chain_step_elements f last e ce nm C N). split.
  - intros x Hx. apply in_app_or in Hx as [Hx|[<-|[]]]; [|reflexivity].
    apply in_map_iff in Hx as (x0 & <- & Hx0).
    destruct (link_sameCore (nextFlowId f) last (BpmnElement.id e) x0)
      as (_ & _ & _ & _ & _ & _ & _ & ->).
    apply in_app_or in Hx0 as [Hx0|[<-|[]]]; [exact (Hd x0 Hx0)|exact Hdef].
  - intros x Hx Fx. apply in_app_or in Hx as [Hx|[<-|[]]].
    + apply in_map_iff in Hx as (x0 & <- & Hx0). rewrite link_isFlow in Fx.
      destruct (link_sameCore (nextFlowId f) last (BpmnElement.id e) x0)
        as (_ & _ & -> & _ & -> & _ & -> & _).
      apply in_app_or in Hx0 as [Hx0|[<-|[]]]; [exact (Hfl x0 Hx0 Fx)|].
      destruct N as (N & _). congruence.
    + unfold flowElement.
      cbn [BpmnElement.conditionExpression BpmnElement.name BpmnElement.sourceRef].
      split; [destruct ce as [[|c s]|]; cbn [Js.truthy]; discriminate|].
      destruct Hnm as [[G ->]|(G & -> & ->)]; [left|right]; auto.
Qed.

Lemma not_gatewayId ty k : ty <> exclusiveGateway -> ~ gatewayId (Some (idOf ty k)).
Proof.
  intros H (k' & E). injection E as E. apply idOf_inj in E as [E _]. contradiction.
Qed.

(** The invariant of the walk: the frontier is never a gateway. *)
Lemma ownStep_conditioned ai f last :
  Chain f last -> Conditioned f -> ~ gatewayId (Some last) ->
  Chain (fst (ownStep (f, last) ai)) (snd (ownStep (f, last) ai))
  /\ Conditioned (fst (ownStep (f, last) ai))
  /\ ~ gatewayId (Some (snd (ownStep (f, last) ai))).
Proof.
  intros C K G. unfold ownStep. destruct ai as [action i]. cbn [fst snd].
  assert (H1 : Chain (fst (triggerStep action (f, last))) (snd (triggerStep action (f, last)))
               /\ Conditioned (fst (triggerStep action (f, last)))
               /\ ~ gatewayId (Some (snd (triggerStep action (f, last))))).
  { split; [apply triggerStep_chain; exact C|].
    destruct (nonEmpty (FhirAction.trigger action)) as [trigger|] eqn:E.
    - rewrite (triggerStep_some _ _ _ _ E). cbn [fst snd]. split.
      + apply (Conditioned_step f last
                 (nodeElement (idOf intermediateEvent (S (BpmnFactory.elementCounter f)))
                    intermediateEvent (triggerEventName trigger)
                    (Some (buildActionDocumentation action)) (Some ["temp_incoming"])
                    (Some []))
                 None None C); auto.
        apply chainNode_node; discriminate.
      + apply (not_gatewayId intermediateEvent). discriminate.
    - rewrite (triggerStep_none _ _ E). auto. }
  destruct (triggerStep action (f, last)) as [f1 last1]. cbn [fst snd] in H1.
  destruct H1 as (C1 & K1 & G1). split; [apply taskStep_chain; exact C1|].
  destruct (nonEmpty_nil_cases (FhirAction.condition action)) as [E|(c & rest & E)].
  - rewrite (taskStep_plain _ i f1 last1 E). cbn zeta. cbn [fst snd]. split.
    + apply (Conditioned_step f1 last1
               (nodeElement (nextId "Task" f1) task (actionName action i)
                  (Some (buildActionDocumentation action)) (Some ["temp_incoming"]) (Some []))
               None None C1); auto.
      apply (chainNode_node f1 task); discriminate.
    + apply (not_gatewayId task). discriminate.
  - rewrite (taskStep_condition _ i _ _ f1 last1 E). cbn zeta. cbn [fst snd].
    set (gw := nodeElement (nextId "Gateway" f1) exclusiveGateway (decisionName c) None
                 (Some ["temp_incoming"]) (Some [])).
    assert (Ngw : chainNode f1 gw) by (apply (chainNode_node f1 exclusiveGateway); discriminate).
    pose proof (Chain_step f1 last1 gw None None C1 Ngw) as C2.
    assert (K2 : Conditioned
                   (snd (BpmnFactory.createSequenceFlow last1 (BpmnElement.id gw) None None
                           (afterNode gw (widthOf exclusiveGateway)
                              (heightOf exclusiveGateway) f1)))).
    { apply (Conditioned_step f1 last1 gw None None C1 Ngw); auto. }
    set (f2 := snd (BpmnFactory.createSequenceFlow last1 _ None None _)) in *.
    split.
    + apply (Conditioned_step f2 (BpmnElement.id gw)
               (nodeElement (nextId "Task" f2) task (actionName action i)
                  (Some (buildActionDocumentation action)) (Some ["temp_incoming"]) (Some []))
               (expressionOf (FhirCondition.expression c)) (Some "Yes") C2); auto.
      * apply (chainNode_node f2 task); discriminate.
      * left. split; [|reflexivity]. exists (S (BpmnFactory.elementCounter f1)). reflexivity.
    + apply (not_gatewayId task). discriminate.
Qed.

Lemma fold_conditioned flat :
  forall f last,
    Chain f last -> Conditioned f -> ~ gatewayId (Some last) ->
    Chain (fst (fold_left ownStep flat (f, last))) (snd (fold_left ownStep flat (f, last)))
    /\ Conditioned (fst (fold_left ownStep flat (f, last)))
    /\ ~ gatewayId (Some (snd (fold_left ownStep flat (f, last)))).
Proof.
  induction flat as [|ai flat IH]; intros f last C K G; [auto|].
  cbn [fold_left]. destruct (ownStep_conditioned ai f last C K G) as (C1 & K1 & G1).
  destruct (ownStep (f, last) ai) as [f1 last1]. apply IH; assumption.
Qed.

Lemma buildGraph_conditioned pd : Conditioned (fst (buildGraph pd)).
Proof.
  rewrite buildGraph_walk. cbv zeta. rewrite processActionsFrom_fold.
  assert (K0 : Conditioned afterStart).
  { split.
    - intros e [<-|[]]. reflexivity.
    - intros fl [<-|[]] H. discriminate H. }
  assert (G0 : ~ gatewayId (Some "StartEvent_1")).
  { apply (not_gatewayId startEvent 1). discriminate. }
  destruct (fold_conditioned (flattenFrom (listOf (FhirPlanDefinition.action pd)) 0)
              afterStart "StartEvent_1" Chain_start K0 G0) as (C & K & G).
  destruct (fold_left ownStep _ _) as [f last]. cbn [fst snd] in *.
  apply (Conditioned_step f last
           (BpmnElement.mk (nextId "EndEvent" f) endEvent (Some "End") None
              (Some ["temp_incoming"]) None None None None None)
           None None C); auto.
  unfold chainNode, isFlow. cbn. repeat split; auto. discriminate.
Qed.

(** X13. In the graph of every document a flow is named [Yes] exactly when
    it leaves an exclusive gateway of the graph; every other flow has no name
    and no condition expression; a condition expression that is stored is
    never the empty text; and no element has a default flow. *)
Theorem conditions_on_flows pd :
  let f := fst (buildGraph pd) in
  (forall fl, In fl (BpmnFactory.elements f) -> isFlow fl = true ->
     (fromGateway (BpmnFactory.elements f) fl <-> BpmnElement.name fl = Some "Yes")
     /\ (BpmnElement.name fl = Some "Yes"
         \/ (BpmnElement.name fl = None /\ BpmnElement.conditionExpression fl = None))
     /\ BpmnElement.conditionExpression fl <> Some EmptyString)
  /\ (forall e, In e (BpmnFactory.elements f) -> BpmnElement.default e = None).
Proof.
  intros f. destruct (buildGraph_conditioned pd) as [Hd Hfl]. fold f in Hd, Hfl.
  pose proof (buildGraph_linked pd) as L. fold f in L.
  split; [|exact Hd]. intros fl Hin Ffl.
  destruct (Hfl fl Hin Ffl) as [Hce Hcase].
  assert (Hiff : fromGateway (BpmnFactory.elements f) fl
                 <-> gatewayId (BpmnElement.sourceRef fl)).
  { pose proof (linked_named f L) as Hn. rewrite Forall_forall in Hn. split.
    - intros (g & Hg & Tg & ->). destruct (Hn g Hg) as (k & Hk & _).
      exists k. rewrite Hk, Tg. reflexivity.
    - intros (k & Hk).
      destruct (linked_refs f L fl Hin Ffl) as (s & t & Hs & _ & (n & Hn' & Hid & _) & _).
      rewrite Hs in Hk. injection Hk as Hk. subst s.
      destruct (Hn n Hn') as (k' & Hk' & _). rewrite Hid in Hk'.
      apply idOf_inj in Hk' as [Hty _].
      exists n. split; [exact Hn'|]. split; [symmetry; exact Hty|]. rewrite Hs, Hid.
      reflexivity. }
  split; [|split; [|exact Hce]].
  - rewrite Hiff. destruct Hcase as [[G Hy]|(G & Hnone & _)]; split; intros H; auto.
    + contradiction.
    + rewrite Hnone in H. discriminate H.
  - destruct Hcase as [[_ Hy]|(_ & Hnone & Hc)]; auto.
Qed.

Lemma conditions_on_flows_witness :
  let f := fst (buildGraph samplePlanDefinition) in
  exists fl,
    In fl (BpmnFactory.elements f) /\ BpmnElement.id fl = "Flow_3"
    /\ fromGateway (BpmnFactory.elements f) fl.
Proof.
  intros f.
  assert (Hin : In (flowElement "Flow_3" "Gateway_3" "Task_4" (Some "patient.age >= 18")
                      (Some "Yes"))
                  (BpmnFactory.elements f)).
  { vm_compute. do 6 right. left. reflexivity. }
  eexists. split; [exact Hin|]. split; [reflexivity|].
  apply (proj1 (proj1 (conditions_on_flows samplePlanDefinition) _ Hin eq_refl)).
  reflexivity.
Defined.

(** ** The diagram depends on the skeleton only *)

Lemma updateFirst_Forall2 {A : Type} (R : A -> A -> Prop) p g l l' :
  (forall x y, R x y -> p x = p y) ->
  (forall x y, R x y -> R (g x) (g y)) ->
  Forall2 R l l' -> Forall2 R (Js.updateFirst p g l) (Js.updateFirst p g l').
Proof.
  intros Hp Hg H. induction H as [|x y l l' Hxy Hl IH]; [constructor|].
  cbn [Js.updateFirst]. rewrite (Hp x y Hxy). destruct (p y); constructor; auto.
Qed.

Lemma sameSkeleton_hasId s e e' :
  sameSkeleton e e' -> BpmnElement.hasId s e = BpmnElement.hasId s e'.
Proof. intros (H & _). unfold BpmnElement.hasId. rewrite H. reflexivity. Qed.

Lemma sameSkeleton_pushOutgoing i e e' :
  sameSkeleton e e' ->
  sameSkeleton (BpmnElement.pushOutgoing i e) (BpmnElement.pushOutgoing i e').
Proof.
  intros (H1 & H2 & H3 & H4 & H5 & H6). unfold sameSkeleton, BpmnElement.pushOutgoing.
  cbn. rewrite H4. auto 7.
Qed.

Lemma sameSkeleton_pushIncoming i e e' :
  sameSkeleton e e' ->
  sameSkeleton (BpmnElement.pushIncoming i e) (BpmnElement.pushIncoming i e').
Proof.
  intros (H1 & H2 & H3 & H4 & H5 & H6). unfold sameSkeleton, BpmnElement.pushIncoming.
  cbn. rewrite H3. auto 7.
Qed.

Lemma Alike_nextId prefix f f' : Alike f f' -> nextId prefix f = nextId prefix f'.
Proof. intros (_ & _ & H & _). unfold nextId. rewrite H. reflexivity. Qed.

Lemma Alike_afterNode e e' w h f f' :
  Alike f f' -> sameSkeleton e e' -> Alike (afterNode e w h f) (afterNode e' w h f').
Proof.
  intros (E & D & C1 & C2 & X & Y) S. pose proof S as (Sid & _).
  unfold Alike, afterNode. cbn. rewrite D, C1, C2, X, Y, Sid.
  repeat split. apply Forall2_app; [exact E|]. constructor; [exact S|constructor].
Qed.

Lemma Alike_flow s t ce ce' nm nm' f f' :
  Alike f f' ->
  Alike (snd (BpmnFactory.createSequenceFlow s t ce nm f))
        (snd (BpmnFactory.createSequenceFlow s t ce' nm' f')).
Proof.
  intros (E & D & C1 & C2 & X & Y).
  destruct (createSequenceFlow_spec s t ce nm f) as (_ & Hel & Hdi & Hc & Hf & Hx & Hy).
  destruct (createSequenceFlow_spec s t ce' nm' f')
    as (_ & Hel' & Hdi' & Hc' & Hf' & Hx' & Hy').
  cbv zeta in *.
  assert (Hfid : nextFlowId f = nextFlowId f') by (unfold nextFlowId; rewrite C2; reflexivity).
  unfold Alike. rewrite Hel, Hel', Hdi, Hdi', Hc, Hc', Hf, Hf', Hx, Hx', Hy, Hy'.
  unfold BpmnFactory.getDiElement. rewrite D, Hfid, C2.
  repeat split; try assumption.
  apply updateFirst_Forall2;
    [intros x y; apply sameSkeleton_hasId|intros x y; apply sameSkeleton_pushIncoming|].
  apply updateFirst_Forall2;
    [intros x y; apply sameSkeleton_hasId|intros x y; apply sameSkeleton_pushOutgoing|].
  apply Forall2_app; [exact E|]. constructor; [|constructor].
  repeat split.
Qed.

Lemma Alike_node_flow id ty name name' doc doc' last ce ce' nm nm' w h f f' :
  Alike f f' ->
  Alike
    (snd (BpmnFactory.createSequenceFlow last id ce nm
            (afterNode (nodeElement id ty name doc (Some ["temp_incoming"]) (Some [])) w h f)))
    (snd (BpmnFactory.createSequenceFlow last id ce' nm'
            (afterNode (nodeElement id ty name' doc' (Some ["temp_incoming"]) (Some []))
               w h f'))).
Proof. intros H. apply Alike_flow, Alike_afterNode; [exact H|]. repeat split. Qed.

Lemma ownStep_alike ai ai' f f' last :
  skeletonOf ai = skeletonOf ai' -> Alike f f' ->
  Alike (fst (ownStep (f, last) ai)) (fst (ownStep (f', last) ai'))
  /\ snd (ownStep (f, last) ai) = snd (ownStep (f', last) ai').
Proof.
  destruct ai as [a i], ai' as [a' i']. unfold skeletonOf, ownStep. cbn [fst snd].
  intros Hsk A. injection Hsk as Ht Hc.
  assert (H1 : Alike (fst (triggerStep a (f, last))) (fst (triggerStep a' (f', last)))
               /\ snd (triggerStep a (f, last)) = snd (triggerStep a' (f', last))).
  { unfold hasTrigger in Ht.
    destruct (nonEmpty (FhirAction.trigger a)) as [tr|] eqn:E,
             (nonEmpty (FhirAction.trigger a')) as [tr'|] eqn:E'; try discriminate Ht.
    - rewrite (triggerStep_some _ _ _ _ E), (triggerStep_some _ _ _ _ E'). cbn [fst snd].
      rewrite <- (Alike_nextId "IntermediateEvent" f f' A).
      split; [apply Alike_node_flow; exact A|reflexivity].
    - rewrite (triggerStep_none _ _ E), (triggerStep_none _ _ E'). auto. }
  destruct (triggerStep a (f, last)) as [f1 last1].
  destruct (triggerStep a' (f', last)) as [f1' last1']. cbn [fst snd] in H1.
  destruct H1 as [A1 <-]. unfold hasCondition in Hc.
  destruct (nonEmpty_nil_cases (FhirAction.condition a)) as [E|(c & rest & E)],
           (nonEmpty_nil_cases (FhirAction.condition a')) as [E'|(c' & rest' & E')];
    rewrite E, E' in Hc; try discriminate Hc.
  - rewrite (taskStep_plain _ i f1 last1 E), (taskStep_plain _ i' f1' last1 E').
    cbn zeta. cbn [fst snd]. rewrite <- (Alike_nextId "Task" f1 f1' A1).
    split; [apply Alike_node_flow; exact A1|reflexivity].
  - rewrite (taskStep_condition _ i _ _ f1 last1 E),
            (taskStep_condition _ i' _ _ f1' last1 E').
    cbn zeta. cbn [fst snd]. rewrite <- (Alike_nextId "Gateway" f1 f1' A1).
    pose proof (Alike_node_flow (nextId "Gateway" f1) exclusiveGateway (decisionName c)
                  (decisionName c') None None last1 None None None None
                  BpmnFactory.GATEWAY_SIZE BpmnFactory.GATEWAY_SIZE f1 f1' A1) as A2.
    set (f2 := snd (BpmnFactory.createSequenceFlow last1 _ None None
                      (afterNode _ _ _ f1))) in *.
    set (f2' := snd (BpmnFactory.createSequenceFlow last1 _ None None
                       (afterNode _ _ _ f1'))) in *.
    rewrite <- (Alike_nextId "Task" f2 f2' A2).
    split; [apply Alike_node_flow; exact A2|reflexivity].
Qed.

Lemma fold_alike flat :
  forall flat' f f' last,
    map skeletonOf flat = map skeletonOf flat' -> Alike f f' ->
    Alike (fst (fold_left ownStep flat (f, last))) (fst (fold_left ownStep flat' (f', last)))
    /\ snd (fold_left ownStep flat (f, last)) = snd (fold_left ownStep flat' (f', last)).
Proof.
  induction flat as [|ai flat IH]; intros [|ai' flat'] f f' last Hm A;
    try discriminate Hm; [auto|].
  cbn [map] in Hm. assert (Hsk : skeletonOf ai = skeletonOf ai') by congruence.
  assert (Hm' : map skeletonOf flat = map skeletonOf flat') by congruence.
  cbn [fold_left].
  destruct (ownStep_alike ai ai' f f' last Hsk A) as [A1 Hl].
  destruct (ownStep (f, last) ai) as [f1 last1].
  destruct (ownStep (f', last) ai') as [f1' last1']. cbn [fst snd] in A1, Hl. subst last1'.
  apply IH; assumption.
Qed.

(** X14. The diagram depends on the skeleton of the document only: when
    the walker meets as many actions in two documents and, at each place, both
    actions have triggers or neither has, and both have conditions or neither
    has, then the two graphs have the same elements up to their texts (the
    same identifiers, types, ends and lists of flows, in the same order) and
    the very same DI section; the titles, the descriptions, the expressions
    and all the other texts move nothing. *)
Theorem diagram_depends_on_skeleton pd pd' :
  map skeletonOf (flattenFrom (listOf (FhirPlanDefinition.action pd)) 0)
  = map skeletonOf (flattenFrom (listOf (FhirPlanDefinition.action pd')) 0) ->
  Forall2 sameSkeleton (BpmnFactory.elements (fst (buildGraph pd)))
    (BpmnFactory.elements (fst (buildGraph pd')))
  /\ BpmnFactory.diElements (fst (buildGraph pd))
     = BpmnFactory.diElements (fst (buildGraph pd')).
Proof.
  intros H. rewrite !buildGraph_walk. cbv zeta. rewrite !processActionsFrom_fold.
  assert (A0 : Alike afterStart afterStart).
  { repeat split. constructor; [|constructor]. repeat split. }
  destruct (fold_alike _ _ afterStart afterStart "StartEvent_1" H A0) as [A Hl].
  destruct (fold_left ownStep (flattenFrom (listOf (FhirPlanDefinition.action pd)) 0) _)
    as [f last].
  destruct (fold_left ownStep (flattenFrom (listOf (FhirPlanDefinition.action pd')) 0) _)
    as [f' last'].
  cbn [fst snd] in *. subst last'. rewrite <- (Alike_nextId "EndEvent" f f' A).
  assert (A' : Alike
                 (snd (BpmnFactory.createSequenceFlow last (nextId "EndEvent" f) None None
                         (afterNode
                            (BpmnElement.mk (nextId "EndEvent" f) endEvent (Some "End") None
                               (Some ["temp_incoming"]) None None None None None)
                            BpmnFactory.EVENT_SIZE BpmnFactory.EVENT_SIZE f)))
                 (snd (BpmnFactory.createSequenceFlow last (nextId "EndEvent" f) None None
                         (afterNode
                            (BpmnElement.mk (nextId "EndEvent" f) endEvent (Some "End") None
                               (Some ["temp_incoming"]) None None None None None)
                            BpmnFactory.EVENT_SIZE BpmnFactory.EVENT_SIZE f')))).
  { apply Alike_flow, Alike_afterNode; [exact A|]. repeat split. }
  destruct A' as (E & D & _). split; assumption.
Qed.

Lemma diagram_depends_on_skeleton_witness :
  map skeletonOf (flattenFrom (listOf (FhirPlanDefinition.action ampersandPlan)) 0)
  = map skeletonOf
      (flattenFrom
         (listOf (FhirPlanDefinition.action
                    (FhirPlanDefinition.mk (Some "PlanDefinition") None None None
                       (Some [systemOnlyAction])))) 0)
  /\ BpmnFactory.diElements (fst (buildGraph ampersandPlan))
     = BpmnFactory.diElements
         (fst (buildGraph (FhirPlanDefinition.mk (Some "PlanDefinition") None None None
                             (Some [systemOnlyAction])))).
Proof.
  split; [reflexivity|].
  apply (diagram_depends_on_skeleton ampersandPlan
           (FhirPlanDefinition.mk (Some "PlanDefinition") None None None
              (Some [systemOnlyAction]))).
  reflexivity.
Defined.

(** ** What the walker returns *)

Lemma taskStep_result action i f last :
  snd (taskStep action i (f, last))
  = idOf task (BpmnFactory.elementCounter (fst (taskStep action i (f, last)))).
Proof.
  destruct (nonEmpty_nil_cases (FhirAction.condition action)) as [E|(c & rest & E)].
  - rewrite (taskStep_plain _ i f last E). cbn zeta. cbn [fst snd].
    destruct (createSequenceFlow_spec last (nextId "Task" f) None None
                (afterNode (nodeElement (nextId "Task" f) task (actionName action i)
                              (Some (buildActionDocumentation action))
                              (Some ["temp_incoming"]) (Some []))
                   BpmnFactory.TASK_WIDTH BpmnFactory.TASK_HEIGHT f))
      as (_ & _ & _ & Hc & _).
    cbv zeta in Hc. rewrite Hc. reflexivity.
  - rewrite (taskStep_condition _ i _ _ f last E). cbn zeta. cbn [fst snd].
    set (f2 := snd (BpmnFactory.createSequenceFlow last _ None None _)).
    destruct (createSequenceFlow_spec (nextId "Gateway" f) (nextId "Task" f2)
                (expressionOf (FhirCondition.expression c)) (Some "Yes")
                (afterNode (nodeElement (nextId "Task" f2) task (actionName action i)
                              (Some (buildActionDocumentation action))
                              (Some ["temp_incoming"]) (Some []))
                   BpmnFactory.TASK_WIDTH BpmnFactory.TASK_HEIGHT f2))
      as (_ & _ & _ & Hc & _).
    cbv zeta in Hc. rewrite Hc. reflexivity.
Qed.

Lemma flattenFrom_nonempty actions i : actions <> [] -> flattenFrom actions i <> [].
Proof.
  destruct actions as [|a r]; [contradiction|]. intros _.
  cbn [flattenFrom]. rewrite flattenAction_eq. discriminate.
Qed.

(** X15. What [processActions] returns: on an empty list, the identifier
    it was given, the factory being left as it was; on any other list, from any
    state of the factory, the identifier of a task, the last node it created:
    its number is the value of the element counter at the end. *)
Theorem walker_returns_last_task actions f previousElementId :
  let w := processActions f actions previousElementId in
  (actions = [] -> w = (f, previousElementId))
  /\ (actions <> [] ->
      snd w = ("Task_" ++ Js.ofNat (BpmnFactory.elementCounter (fst w)))%string).
Proof.
  intros w. split; [intros ->; reflexivity|].
  intros H. unfold w, processActions. rewrite processActionsFrom_fold.
  destruct (exists_last (flattenFrom_nonempty actions 0 H)) as (flat & [action i] & ->).
  rewrite fold_left_app. cbn [fold_left].
  generalize (fold_left ownStep flat (f, previousElementId)). intros w0.
  unfold ownStep. cbn [fst snd].
  destruct (triggerStep action w0) as [f1 last1].
  apply taskStep_result.
Qed.

Lemma walker_returns_last_task_witness :
  [systemOnlyAction] <> []
  /\ snd (processActions afterStart [systemOnlyAction] "StartEvent_1") = "Task_2".
Proof.
  split; [discriminate|].
  apply (walker_returns_last_task [systemOnlyAction] afterStart "StartEvent_1").
  discriminate.
Defined.

(** ** The identifiers of the document *)

Lemma underscores_app a b : underscores (a ++ b) = underscores a + underscores b.
Proof. induction a as [|c a IH]; simpl; [reflexivity|]. rewrite IH. lia. Qed.

Lemma underscores_uint d : underscores (NilEmpty.string_of_uint d) = 0.
Proof. induction d; simpl; auto. Qed.

Lemma underscores_idOf ty k : underscores (idOf ty k) = 1.
Proof.
  unfold idOf, Js.ofNat. rewrite !underscores_app, underscores_uint.
  destruct ty; reflexivity.
Qed.

Lemma mirror_ids els dis :
  Forall2 diFor els dis ->
  map BpmnDiElement.id dis = map (fun e => (BpmnElement.id e ++ "_di")%string) els.
Proof.
  induction 1 as [|e d l l' Hed _ IH]; [reflexivity|].
  cbn [map]. rewrite IH. destruct (diFor_id e d Hed) as [_ ->]. reflexivity.
Qed.

Lemma NoDup_suffixed els :
  NoDup (map BpmnElement.id els) ->
  NoDup (map (fun e => (BpmnElement.id e ++ "_di")%string) els).
Proof.
  induction els as [|e l IH]; intros H; [constructor|].
  inversion H as [|? ? Hx Hl]; subst. cbn [map]. constructor; [|apply IH; exact Hl].
  intros Hin. apply Hx. apply in_map_iff in Hin as (e' & He' & Hin).
  apply append_same_suffix in He'. rewrite <- He'. apply in_map. exact Hin.
Qed.

(** X16. The identifiers the converter generates never clash in the
    document: in the graph of every document the identifiers of the elements
    and those of the DI entries are pairwise distinct, all together, and none
    of them is one of the identifiers the serializer writes by itself, those of
    the definitions, of the diagram and of the plane, or the default
    identifier of the process. *)
Theorem xml_ids_distinct pd :
  let f := fst (buildGraph pd) in
  let ids := (map BpmnElement.id (BpmnFactory.elements f)
              ++ map BpmnDiElement.id (BpmnFactory.diElements f))%list in
  NoDup ids
  /\ ~ In "Definitions_1" ids /\ ~ In "Process_1" ids
  /\ ~ In "BPMNDiagram_1" ids /\ ~ In "BPMNPlane_1" ids.
Proof.
  intros f ids. pose proof (buildGraph_linked pd) as L. fold f in L.
  pose proof (buildGraph_mirror pd) as M. fold f in M.
  assert (H1 : forall x, In x (map BpmnElement.id (BpmnFactory.elements f)) ->
                         exists ty k, x = idOf ty k).
  { intros x Hx. apply in_map_iff in Hx as (e & <- & He).
    pose proof (linked_named f L) as Hn. rewrite Forall_forall in Hn.
    destruct (Hn e He) as (k & Hk & _). eauto. }
  assert (H2 : forall x, In x (map BpmnDiElement.id (BpmnFactory.diElements f)) ->
                         underscores x = 2).
  { intros x Hx. rewrite (mirror_ids _ _ M) in Hx.
    apply in_map_iff in Hx as (e & <- & He).
    destruct (H1 (BpmnElement.id e) (in_map _ _ _ He)) as (ty & k & ->).
    rewrite underscores_app, underscores_idOf. reflexivity. }
  assert (Hfixed : forall x, underscores x = 1 ->
                             (forall ty k, x <> idOf ty k) -> ~ In x ids).
  { intros x Hu Hx Hin. apply in_app_or in Hin as [Hin|Hin].
    - destruct (H1 x Hin) as (ty & k & E). exact (Hx ty k E).
    - rewrite (H2 x Hin) in Hu. discriminate Hu. }
  split.
  - apply NoDup_app.
    + apply (linked_nodup f L).
    + rewrite (mirror_ids _ _ M). apply NoDup_suffixed, (linked_nodup f L).
    + intros x Hx Hx'. destruct (H1 x Hx) as (ty & k & ->).
      pose proof (H2 _ Hx') as Hu. rewrite underscores_idOf in Hu. discriminate Hu.
  - repeat split; apply Hfixed; try reflexivity;
      intros ty k; unfold idOf; destruct ty; cbn [prefixOf append]; discriminate.
Qed.

(** ** The actions in the document *)

Lemma join_cons sep x y r :
  Js.join sep (x :: y :: r) = (x ++ sep ++ Js.join sep (y :: r))%string.
Proof. reflexivity. Qed.

Lemma join_In sep x l :
  In x l -> exists before after, Js.join sep l = (before ++ x ++ after)%string.
Proof.
  induction l as [|y r IH]; intros H; [destruct H|].
  destruct H as [->|H].
  - exists EmptyString. destruct r as [|z r].
    + exists EmptyString. cbn [Js.join append]. rewrite append_empty_r. reflexivity.
    + exists (sep ++ Js.join sep (z :: r))%string. rewrite join_cons. reflexivity.
  - destruct r as [|z r]; [destruct H|].
    destruct (IH H) as (before & after & E).
    exists (y ++ sep ++ before)%string, after.
    rewrite join_cons, E, !append_assoc. reflexivity.
Qed.

Lemma noReserved_uint d : noReserved (NilEmpty.string_of_uint d) = true.
Proof. induction d; simpl; auto. Qed.

Lemma escapeXml_taskId k : escapeXml (idOf task k) = ("Task_" ++ Js.ofNat k)%string.
Proof.
  rewrite escapeXml_escapeChars. apply escapeChars_noReserved.
  unfold idOf, Js.ofNat. cbn [prefixOf append noReserved]. apply noReserved_uint.
Qed.

Lemma orStr_empty s : Js.orStr (Some s) EmptyString = s.
Proof. destruct s; reflexivity. Qed.

Lemma task_xml e k name documentation :
  BpmnElement.type e = task ->
  BpmnElement.id e = idOf task k ->
  BpmnElement.name e = Some name ->
  BpmnElement.documentation e = Some documentation ->
  exists rest,
    generateElementXml e "    "
    = (taskOpenLine k name ++ Js.nl ++ taskDocumentationPart documentation ++ rest)%string.
Proof.
  intros Hty Hid Hnm Hdoc. unfold generateElementXml, elementLines. rewrite Hty.
  assert (Hopen : openLine "    " "task" e = taskOpenLine k name).
  { unfold openLine, taskOpenLine. rewrite Hid, Hnm, escapeXml_taskId, orStr_empty.
    reflexivity. }
  rewrite Hopen. unfold documentationLines. rewrite Hdoc.
  set (refs := (incomingLines "    " e ++ outgoingLines "    " e
                ++ [closeLine "    " "task"])%list).
  assert (Hrefs : exists y r, refs = y :: r).
  { unfold refs. destruct (incomingLines "    " e) as [|y r]; [|cbn [app]; eauto].
    destruct (outgoingLines "    " e) as [|y r]; cbn [app]; eauto. }
  destruct Hrefs as (y & r & ->).
  destruct documentation as [|c d]; cbn [app taskDocumentationPart].
  - exists (Js.join Js.nl (y :: r)). rewrite join_cons. reflexivity.
  - exists (Js.join Js.nl (y :: r)). rewrite !join_cons, !append_assoc. reflexivity.
Qed.

(** X17. Every action is in the document the converter returns: on a
    document whose [resourceType] is [PlanDefinition], for every action of the
    tree, nested or not, the XML holds the opening line of a task numbered from
    the element counter, whose name attribute is the escaped name of the
    action (its title, else its description, else [Action ] and its rank),
    followed, when the composed documentation of the action is not empty, by
    the line of this documentation, escaped. *)
Theorem every_action_in_the_xml pd console0 action i :
  FhirPlanDefinition.resourceType pd = Some "PlanDefinition" ->
  In (action, i) (flattenFrom (listOf (FhirPlanDefinition.action pd)) 0) ->
  exists k before after,
    completion (convertPlanDefinitionToBpmn (Some pd) console0)
    = Return (before ++ taskOpenLine k (actionName action i) ++ Js.nl
                ++ taskDocumentationPart (buildActionDocumentation action) ++ after).
Proof.
  intros Hroot H.
  apply (in_map (fun ai => (task, Some (actionName (fst ai) (snd ai)),
                            Some (buildActionDocumentation (fst ai))))) in H.
  rewrite <- buildGraph_task_labels in H. cbn [fst snd] in H.
  apply in_map_iff in H as (e & He & Hin).
  apply filter_In in Hin as [Hin _].
  unfold labelOf in He. injection He as Hty Hnm Hdoc.
  pose proof (linked_named _ (buildGraph_linked pd)) as Hn. rewrite Forall_forall in Hn.
  destruct (Hn e Hin) as (k & Hid & _). rewrite Hty in Hid. clear Hn.
  destruct (task_xml e k _ _ Hty Hid Hnm Hdoc) as (rest & Hxml).
  unfold convertPlanDefinitionToBpmn. rewrite (validRoot_valid _ Hroot).
  destruct (buildGraph pd) as [f log]. cbn [fst] in Hin. cbn [completion].
  unfold generateBpmnXml.
  assert (Hline : In (generateElementXml e "    ")
                    (xmlLines (Js.orStr (FhirPlanDefinition.id pd) "Process_1")
                       (Js.orStr (FhirPlanDefinition.title pd) "PlanDefinition Process")
                       (FhirPlanDefinition.description pd)
                       (BpmnFactory.elements f) (BpmnFactory.diElements f))).
  { unfold xmlLines. apply in_or_app. right. apply in_or_app. right.
    apply in_or_app. left.
    apply (in_map (fun element => generateElementXml element "    ")). exact Hin. }
  destruct (join_In Js.nl _ _ Hline) as (before & after & ->).
  exists k, before, (rest ++ after)%string. rewrite Hxml, !append_assoc. reflexivity.
Qed.

Lemma every_action_in_the_xml_witness :
  exists k before after,
    completion (convertPlanDefinitionToBpmn (Some ampersandPlan) [])
    = Return (before ++ taskOpenLine k "A & B <test>" ++ Js.nl ++ after).
Proof.
  destruct (every_action_in_the_xml ampersandPlan []
              (FhirAction.mk None (Some "A & B <test>") None None None None None None None
                 None None) 0)
    as (k & before & after & H).
  - reflexivity.
  - left. reflexivity.
  - exists k, before, after. exact H.
Defined.

(** * The call stack *)

Lemma activations_eq action :
  activations action = activationsOf (listOf (FhirAction.action action)).
Proof.
  destruct action as [? ? ? ? ? ? ? ? ? ? [l|]]; [|reflexivity].
  cbn [FhirAction.action listOf].
  induction l as [|a r IH]; [reflexivity|].
  cbn [activationsOf fold_right]. fold (activationsOf r). rewrite <- IH. reflexivity.
Qed.

Lemma activationsOf_cons a r :
  activationsOf (a :: r) = Nat.max (S (activations a)) (activationsOf r).
Proof. reflexivity. Qed.

Lemma activationsOf_pos actions : actions <> [] -> 1 <= activationsOf actions.
Proof.
  destruct actions as [|a r]; [contradiction|]. intros _. rewrite activationsOf_cons. lia.
Qed.

(** The loop returns what the walker computes when every nested call fits,
    and throws as soon as one does not. *)
Lemma forActions_spec call stack :
  (forall f nested previousElementId,
      nested <> [] ->
      (activationsOf nested <= stack ->
       call f nested previousElementId = Returned (processActions f nested previousElementId))
      /\ (stack < activationsOf nested ->
          call f nested previousElementId = Thrown stackOverflow)) ->
  forall actions i w,
    (activationsOf actions <= S stack ->
     forActions call actions i w = Returned (processActionsFrom actions i w))
    /\ (S stack < activationsOf actions ->
        forActions call actions i w = Thrown stackOverflow).
Proof.
  intros Hcall. induction actions as [|a rest IH]; intros i w.
  - split; [reflexivity|]. cbn. lia.
  - rewrite activationsOf_cons, (activations_eq a).
    cbn [forActions processActionsFrom]. rewrite processAction_eq.
    destruct (taskStep a i (triggerStep a w)) as [f1 last1].
    destruct (FhirAction.action a) as [[|x r]|]; cbn [nonEmpty listOf].
    + change (activationsOf []) with 0.
      destruct (IH (S i) (f1, last1)) as [I1 I2]. split; intros H; [apply I1|apply I2]; lia.
    + assert (Hne : x :: r <> []) by discriminate.
      destruct (Hcall f1 (x :: r) last1 Hne) as [H1 H2].
      pose proof (activationsOf_pos (x :: r) Hne) as Hpos.
      split; intros H.
      * rewrite H1 by lia. unfold processActions.
        apply (proj1 (IH (S i) _)). lia.
      * destruct (le_lt_dec (activationsOf (x :: r)) stack) as [Hle|Hlt].
        -- rewrite (H1 Hle). unfold processActions. apply (proj2 (IH (S i) _)). lia.
        -- rewrite (H2 Hlt). reflexivity.
    + change (activationsOf []) with 0.
      destruct (IH (S i) (f1, last1)) as [I1 I2]. split; intros H; [apply I1|apply I2]; lia.
Qed.

(** With room for the activations the list takes, [processActions] returns
    what the walker computes; with less, it throws the [RangeError]. *)
Lemma processActionsWithin_spec stack :
  forall f actions previousElementId,
    actions <> [] ->
    (activationsOf actions <= stack ->
     processActionsWithin stack f actions previousElementId
     = Returned (processActions f actions previousElementId))
    /\ (stack < activationsOf actions ->
        processActionsWithin stack f actions previousElementId = Thrown stackOverflow).
Proof.
  induction stack as [|stack IH]; intros f actions previousElementId Hne.
  - pose proof (activationsOf_pos actions Hne). split; [lia|reflexivity].
  - cbn [processActionsWithin]. unfold processActions.
    apply (forActions_spec (processActionsWithin stack) stack IH).
Qed.

Lemma convertWithin_spec stack pd console0 :
  FhirPlanDefinition.resourceType pd = Some "PlanDefinition" ->
  let run := convertPlanDefinitionToBpmn (Some pd) console0 in
  let observed := convertPlanDefinitionToBpmnWithin stack (Some pd) console0 in
  (activationsOf (listOf (FhirPlanDefinition.action pd)) <= stack ->
     observed = (completion run, console run)
     /\ completion run
        = Return (generateBpmnXml (Js.orStr (FhirPlanDefinition.id pd) "Process_1")
                    (Js.orStr (FhirPlanDefinition.title pd) "PlanDefinition Process")
                    (FhirPlanDefinition.description pd)
                    (BpmnFactory.elements (fst (buildGraph pd)))
                    (BpmnFactory.diElements (fst (buildGraph pd))))
     /\ (console run = console0
         \/ console run = (console0 ++ [console_warn "PlanDefinition has no actions"])%list))
  /\ (stack < activationsOf (listOf (FhirPlanDefinition.action pd)) ->
        observed
        = (Throw stackOverflow,
           (console0
              ++ [console_error "Error converting PlanDefinition to BPMN:" stackOverflow])%list)).
Proof.
  intros Hroot run observed.
  unfold run, observed, convertPlanDefinitionToBpmn, convertPlanDefinitionToBpmnWithin.
  rewrite (validRoot_valid _ Hroot). unfold buildGraph.
  destruct (BpmnFactory.createStartEvent BpmnFactory.new) as [startEventId f0].
  destruct (FhirPlanDefinition.action pd) as [[|a l]|]; cbn [nonEmpty listOf].
  - change (activationsOf []) with 0. split; [intros _|lia].
    destruct (BpmnFactory.createEndEvent "temp_incoming" f0) as [endEventId f2].
    destruct (BpmnFactory.createSequenceFlow startEventId endEventId None None f2)
      as [fid f3].
    cbn [completion console fst]. auto.
  - assert (Hne : a :: l <> []) by discriminate.
    destruct (processActionsWithin_spec stack f0 (a :: l) startEventId Hne) as [H1 H2].
    split; intros H.
    + rewrite (H1 H).
      destruct (processActions f0 (a :: l) startEventId) as [f1 last1].
      destruct (BpmnFactory.createEndEvent "temp_incoming" f1) as [endEventId f2].
      destruct (BpmnFactory.createSequenceFlow last1 endEventId None None f2) as [fid f3].
      cbn [completion console fst]. split; [reflexivity|]. split; [reflexivity|].
      left. apply app_nil_r.
    + rewrite (H2 H). reflexivity.
  - change (activationsOf []) with 0. split; [intros _|lia].
    destruct (BpmnFactory.createEndEvent "temp_incoming" f0) as [endEventId f2].
    destruct (BpmnFactory.createSequenceFlow startEventId endEventId None None f2)
      as [fid f3].
    cbn [completion console fst]. auto.
Qed.

Lemma activations_nestedAction n : activations (nestedAction n) = n.
Proof.
  induction n as [|n IH]; [reflexivity|].
  rewrite activations_eq. cbn [nestedAction FhirAction.action listOf].
  rewrite activationsOf_cons, IH. change (activationsOf []) with 0. lia.
Qed.

(** Whatever room the stack has, a document with one level of nesting more
    makes the call throw. *)
Lemma deep_document_overflows stack console0 :
  convertPlanDefinitionToBpmnWithin stack (Some (nestedDocument stack)) console0
  = (Throw stackOverflow,
     (console0
        ++ [console_error "Error converting PlanDefinition to BPMN:" stackOverflow])%list).
Proof.
  apply (proj2 (convertWithin_spec stack (nestedDocument stack) console0 eq_refl)).
  cbn [nestedDocument FhirPlanDefinition.action listOf].
  rewrite activationsOf_cons, activations_nestedAction. change (activationsOf []) with 0. lia.
Qed.




(** * The walker, action by action *)

(** The names the code joins are the names of the triggers as the
    specification words them. *)
Lemma filterBoolean_triggerName trigger :
  Js.filterBoolean (map triggerName trigger) = triggerLabels trigger.
Proof.
  induction trigger as [|t rest IH]; [reflexivity|].
  cbn [map Js.filterBoolean triggerLabels]. unfold triggerName at 1, Js.or, Js.truthy.
  destruct (FhirTrigger.name t) as [[|c s]|];
    destruct (FhirTrigger.type t) as [[|c' s']|]; rewrite IH; reflexivity.
Qed.

(** Where the walker is when it comes to an action of the tree, and how it
    goes on from there. *)
Lemma walker_meets actions f previousElementId before action i after :
  flattenFrom actions 0 = (before ++ (action, i) :: after)%list ->
  processActions f actions previousElementId
  = fold_left ownStep after
      (taskStep action i
         (triggerStep action (fold_left ownStep before (f, previousElementId)))).
Proof.
  intros H. unfold processActions. rewrite processActionsFrom_fold, H, fold_left_app.
  reflexivity.
Qed.

Lemma Extends_rest after w : Extends (fst w) (fst (fold_left ownStep after w)).
Proof. destruct w as [f last]. apply Extends_fold. Qed.

(** What the walk of the actions of a document leaves is in its graph. *)
Lemma Extends_graph pd f1 :
  Extends f1
    (fst (processActions afterStart (listOf (FhirPlanDefinition.action pd)) "StartEvent_1")) ->
  Extends f1 (fst (buildGraph pd)).
Proof.
  intros H. rewrite buildGraph_walk. cbv zeta. unfold processActions in H.
  eapply Extends_trans; [exact H|]. apply Extends_node_flow. discriminate.
Qed.

(** The elements of a graph that is given, computed once. *)
Ltac elements_of f H :=
  let l := eval vm_compute in (BpmnFactory.elements f) in
  assert (H : BpmnFactory.elements f = l) by (vm_compute; reflexivity).

(** C2, as the code has it. For every action of the tree that the walker
    goes through, nested or not, whose trigger list is not empty: in the state
    where the walker comes to the action, it appends exactly one intermediate
    event and one flow; the name of the event is [Trigger: ] followed by the
    names of the triggers, the type standing for a name that is missing or
    empty and a trigger with neither being left out, joined with a comma and
    a space; its documentation is the composed documentation of the action;
    the flow goes from the frontier to the event; the walker goes on from the
    event, which is the new frontier, and creates no other intermediate event
    for this action; and the event and the flow are still there at the end of
    the walk, and in the graph of the document when the walk is the one of a
    conversion. *)
Theorem trigger_event_created actions f previousElementId before action i after t ts :
  flattenFrom actions 0 = (before ++ (action, i) :: after)%list ->
  FhirAction.trigger action = Some (t :: ts) ->
  let w0 := fold_left ownStep before (f, previousElementId) in
  exists f1 old' ev fl,
    BpmnFactory.elements f1 = (old' ++ [ev; fl])%list
    /\ Forall2 sameCore (BpmnFactory.elements (fst w0)) old'
    /\ BpmnElement.type ev = intermediateEvent
    /\ BpmnElement.name ev
       = Some ("Trigger: " ++ Js.join ", " (triggerLabels (t :: ts)))
    /\ BpmnElement.documentation ev = Some (buildActionDocumentation action)
    /\ BpmnElement.type fl = sequenceFlow
    /\ BpmnElement.sourceRef fl = Some (snd w0)
    /\ BpmnElement.targetRef fl = Some (BpmnElement.id ev)
    /\ countType intermediateEvent f1 = S (countType intermediateEvent (fst w0))
    /\ countType intermediateEvent (fst (taskStep action i (f1, BpmnElement.id ev)))
       = countType intermediateEvent f1
    /\ processActions f actions previousElementId
       = fold_left ownStep after (taskStep action i (f1, BpmnElement.id ev))
    /\ Extends f1 (fst (processActions f actions previousElementId))
    /\ (forall pd,
          listOf (FhirPlanDefinition.action pd) = actions ->
          f = afterStart -> previousElementId = "StartEvent_1" ->
          Extends f1 (fst (buildGraph pd))).
Proof.
  intros Hflat Htr w0.
  assert (E : nonEmpty (FhirAction.trigger action) = Some (t :: ts))
    by (rewrite Htr; reflexivity).
  pose proof (walker_meets actions f previousElementId before action i after Hflat) as Hw.
  fold w0 in Hw. destruct w0 as [f0 last0]. cbn [fst snd].
  destruct (triggerStep_grows action (t :: ts) f0 last0 E) as [G L].
  destruct (triggerStep action (f0, last0)) as [f1 last1] eqn:E1. cbn [fst snd] in G, L.
  destruct (grownBy_split _ _ _ G) as (old' & A' & Hel & Hold & HA).
  apply Forall2_sameCore_two in HA as (ev & fl & -> & Hev & Hfl).
  destruct Hev as (Hid & Hty & Hnm & Hdoc & _).
  destruct Hfl as (_ & Hfty & _ & _ & Hsrc & Htgt & _).
  cbn [nodeElement flowElement BpmnElement.id BpmnElement.type BpmnElement.name
       BpmnElement.documentation BpmnElement.sourceRef BpmnElement.targetRef]
    in Hid, Hty, Hnm, Hdoc, Hfty, Hsrc, Htgt.
  subst last1. rewrite <- Hid in Hw.
  exists f1, old', ev, fl.
  split; [exact Hel|]. split; [exact Hold|]. split; [exact Hty|].
  split; [rewrite Hnm; unfold triggerEventName; rewrite filterBoolean_triggerName;
          reflexivity|].
  split; [exact Hdoc|]. split; [exact Hfty|]. split; [exact Hsrc|].
  split; [rewrite Htgt, Hid; reflexivity|].
  split; [rewrite (grownBy_count _ _ _ _ G); simpl; lia|].
  split; [apply taskStep_no_event|].
  split; [exact Hw|].
  assert (Hext : Extends f1 (fst (processActions f actions previousElementId))).
  { rewrite Hw. eapply Extends_trans; [apply Extends_taskStep|apply Extends_rest]. }
  split; [exact Hext|].
  intros pd Hpd Hf Hprev. apply Extends_graph. rewrite Hpd, <- Hf, <- Hprev. exact Hext.
Qed.

Lemma trigger_event_created_witness :
  exists f1 ev,
    BpmnElement.name ev = Some "Trigger: lab-result, periodic, data-changed"
    /\ processActions afterStart [severalTriggersAction] "StartEvent_1"
       = taskStep severalTriggersAction 0 (f1, BpmnElement.id ev).
Proof.
  destruct (trigger_event_created [severalTriggersAction] afterStart "StartEvent_1" []
              severalTriggersAction 0 []
              (FhirTrigger.mk (Some "named-event") (Some "lab-result"))
              [FhirTrigger.mk (Some "periodic") None;
               FhirTrigger.mk None None;
               FhirTrigger.mk (Some "data-changed") (Some EmptyString)]
              eq_refl eq_refl)
    as (f1 & old' & ev & fl & _ & _ & _ & Hnm & _ & _ & _ & _ & _ & _ & Hw & _ & _).
  exists f1, ev. split; [exact Hnm|exact Hw].
Defined.

(** C2, as the spec states it, fails: in the graph of the document whose
    action has the four triggers above, the intermediate event is named
    [Trigger: lab-result, periodic, data-changed], and no intermediate event
    is named by the joined names alone. *)
Lemma trigger_event_name_counterexample :
  let f := fst (buildGraph severalTriggersPlan) in
  Js.join ", " (triggerLabels severalTriggers) = "lab-result, periodic, data-changed"
  /\ map BpmnElement.name (BpmnFactory.getElementsByType intermediateEvent f)
     = [Some "Trigger: lab-result, periodic, data-changed"]
  /\ ~ exists ev,
         In ev (BpmnFactory.elements f)
         /\ BpmnElement.type ev = intermediateEvent
         /\ BpmnElement.name ev = Some (Js.join ", " (triggerLabels severalTriggers)).
Proof.
  assert (Hj : Js.join ", " (triggerLabels severalTriggers)
               = "lab-result, periodic, data-changed") by reflexivity.
  split; [exact Hj|]. split; [vm_compute; reflexivity|].
  elements_of (fst (buildGraph severalTriggersPlan)) Hels.
  intros (ev & Hin & Hty & Hnm). rewrite Hj in Hnm. rewrite Hels in Hin.
  destruct Hin as [<-|[<-|[<-|[<-|[<-|[<-|[<-|[]]]]]]]];
    first [discriminate Hty|discriminate Hnm].
Qed.

(** C3, as the code has it. For every action of the tree that the walker
    goes through, nested or not, whose condition list is not empty, only the
    first condition [c] is used: where the walker stands once the triggers of
    the action are dealt with, it appends exactly one exclusive gateway, a flow
    from the frontier to the gateway, the task of the action, with its name
    and its documentation, and a flow named [Yes] from the gateway to the task.
    The gateway is named [Decision: ] followed by the expression text of [c],
    or by [Check Condition] when the text is missing or empty; the condition
    expression of the second flow is the expression text, and there is none
    when the text is missing or empty. The walker goes on from the task, which
    is the new frontier, and the four elements are still there at the end of
    the walk, and in the graph of the document when the walk is the one of a
    conversion. *)
Theorem condition_gateway_created actions f previousElementId before action i after c rest :
  flattenFrom actions 0 = (before ++ (action, i) :: after)%list ->
  FhirAction.condition action = Some (c :: rest) ->
  let w0 := fold_left ownStep before (f, previousElementId) in
  let w1 := triggerStep action w0 in
  let text := expressionOf (FhirCondition.expression c) in
  exists f' old' gw fl1 tk fl2,
    BpmnFactory.elements f' = (old' ++ [gw; fl1; tk; fl2])%list
    /\ Forall2 sameCore (BpmnFactory.elements (fst w1)) old'
    /\ BpmnElement.type gw = exclusiveGateway
    /\ BpmnElement.name gw
       = Some ("Decision: "
               ++ match text with
                  | Some (String a s) => String a s
                  | _ => "Check Condition"
                  end)
    /\ BpmnElement.type fl1 = sequenceFlow
    /\ BpmnElement.sourceRef fl1 = Some (snd w1)
    /\ BpmnElement.targetRef fl1 = Some (BpmnElement.id gw)
    /\ BpmnElement.type tk = task
    /\ BpmnElement.name tk = Some (actionName action i)
    /\ BpmnElement.documentation tk = Some (buildActionDocumentation action)
    /\ BpmnElement.type fl2 = sequenceFlow
    /\ BpmnElement.sourceRef fl2 = Some (BpmnElement.id gw)
    /\ BpmnElement.targetRef fl2 = Some (BpmnElement.id tk)
    /\ BpmnElement.name fl2 = Some "Yes"
    /\ BpmnElement.conditionExpression fl2
       = match text with
         | Some (String a s) => Some (String a s)
         | _ => None
         end
    /\ countType exclusiveGateway (fst w1) = countType exclusiveGateway (fst w0)
    /\ countType exclusiveGateway f' = S (countType exclusiveGateway (fst w1))
    /\ countType task f' = S (countType task (fst w1))
    /\ processActions f actions previousElementId
       = fold_left ownStep after (f', BpmnElement.id tk)
    /\ Extends f' (fst (processActions f actions previousElementId))
    /\ (forall pd,
          listOf (FhirPlanDefinition.action pd) = actions ->
          f = afterStart -> previousElementId = "StartEvent_1" ->
          Extends f' (fst (buildGraph pd))).
Proof.
  intros Hflat Hc w0 w1 text.
  assert (E : nonEmpty (FhirAction.condition action) = Some (c :: rest))
    by (rewrite Hc; reflexivity).
  pose proof (walker_meets actions f previousElementId before action i after Hflat) as Hw.
  fold w0 in Hw. fold w1 in Hw.
  assert (Hng : countType exclusiveGateway (fst w1) = countType exclusiveGateway (fst w0)).
  { unfold w1. destruct w0 as [f0 last0]. apply triggerStep_no_gateway. }
  clearbody w1.
  destruct w1 as [f1 last1]. cbn [fst snd] in *.
  destruct (taskStep_condition_grows action i c rest f1 last1 E) as [G L].
  destruct (taskStep action i (f1, last1)) as [f' last'] eqn:E'. cbn [fst snd] in G, L.
  destruct (grownBy_split _ _ _ G) as (old' & A' & Hel & Hold & HA).
  apply Forall2_sameCore_four in HA as (gw & fl1 & tk & fl2 & -> & Hgw & Hfl1 & Htk & Hfl2).
  destruct Hgw as (Hgid & Hgty & Hgnm & _).
  destruct Hfl1 as (_ & H1ty & _ & _ & H1src & H1tgt & _).
  destruct Htk as (Htid & Htty & Htnm & Htdoc & _).
  destruct Hfl2 as (_ & H2ty & H2nm & _ & H2src & H2tgt & H2ce & _).
  cbn [nodeElement flowElement BpmnElement.id BpmnElement.type BpmnElement.name
       BpmnElement.documentation BpmnElement.sourceRef BpmnElement.targetRef
       BpmnElement.conditionExpression Js.truthy]
    in Hgid, Hgty, Hgnm, H1ty, H1src, H1tgt, Htid, Htty, Htnm, Htdoc, H2ty, H2nm, H2src,
       H2tgt, H2ce.
  subst last'. rewrite <- Htid in Hw.
  exists f', old', gw, fl1, tk, fl2.
  split; [exact Hel|]. split; [exact Hold|]. split; [exact Hgty|].
  split; [rewrite Hgnm; reflexivity|].
  split; [exact H1ty|]. split; [exact H1src|].
  split; [rewrite H1tgt, Hgid; reflexivity|].
  split; [exact Htty|]. split; [exact Htnm|]. split; [exact Htdoc|].
  split; [exact H2ty|].
  split; [rewrite H2src, Hgid; reflexivity|].
  split; [rewrite H2tgt, Htid; reflexivity|].
  split; [exact H2nm|].
  split; [rewrite H2ce; unfold text;
          destruct (expressionOf (FhirCondition.expression c)) as [[|a s]|]; reflexivity|].
  split; [exact Hng|].
  split; [rewrite (grownBy_count _ _ _ _ G); simpl; lia|].
  split; [rewrite (grownBy_count _ _ _ _ G); simpl; lia|].
  split; [exact Hw|].
  assert (Hext : Extends f' (fst (processActions f actions previousElementId))).
  { rewrite Hw. apply (Extends_rest after (f', BpmnElement.id tk)). }
  split; [exact Hext|].
  intros pd Hpd Hf Hprev. apply Extends_graph. rewrite Hpd, <- Hf, <- Hprev. exact Hext.
Qed.

Lemma condition_gateway_created_witness :
  exists f' gw fl2,
    BpmnElement.name gw = Some "Decision: patient.age >= 18"
    /\ BpmnElement.name fl2 = Some "Yes"
    /\ BpmnElement.conditionExpression fl2 = Some "patient.age >= 18"
    /\ processActions afterStart [eligibilityAction] "StartEvent_1" = (f', "Task_3").
Proof.
  destruct (condition_gateway_created [eligibilityAction] afterStart "StartEvent_1" []
              eligibilityAction 0 [] adultCondition [] eq_refl eq_refl)
    as (f' & old' & gw & fl1 & tk & fl2 & _ & _ & _ & Hgnm & _ & _ & _ & _ & _ & _ & _ & _
        & _ & Hnm & Hce & _ & _ & _ & Hw & _ & _).
  exists f', gw, fl2. split; [exact Hgnm|]. split; [exact Hnm|]. split; [exact Hce|].
  rewrite Hw. cbn [fold_left]. f_equal.
  apply (f_equal snd) in Hw. cbn [fold_left snd] in Hw. symmetry. exact Hw.
Defined.

(** C3, as the spec states it, fails: in the graph of the document whose
    action has a condition with the empty expression text, the gateway is
    named [Decision: Check Condition], not [Decision: ] followed by the text,
    and the flow named [Yes] has no condition expression, not the text. *)
Lemma empty_expression_counterexample :
  let f := fst (buildGraph emptyExpressionPlan) in
  expressionOf (FhirCondition.expression emptyExpressionCondition) = Some EmptyString
  /\ map BpmnElement.name (BpmnFactory.getElementsByType exclusiveGateway f)
     = [Some "Decision: Check Condition"]
  /\ (~ exists gw,
          In gw (BpmnFactory.elements f)
          /\ BpmnElement.type gw = exclusiveGateway
          /\ BpmnElement.name gw = Some ("Decision: " ++ EmptyString))
  /\ (exists fl,
         In fl (BpmnFactory.elements f)
         /\ BpmnElement.name fl = Some "Yes"
         /\ BpmnElement.conditionExpression fl = None)
  /\ ~ exists fl,
         In fl (BpmnFactory.elements f)
         /\ BpmnElement.conditionExpression fl = Some EmptyString.
Proof.
  elements_of (fst (buildGraph emptyExpressionPlan)) Hels.
  split; [reflexivity|]. split; [vm_compute; reflexivity|]. split; [|split].
  - intros (gw & Hin & Hty & Hnm). cbn [append] in Hnm. rewrite Hels in Hin.
    destruct Hin as [<-|[<-|[<-|[<-|[<-|[<-|[<-|[]]]]]]]];
      first [discriminate Hty|discriminate Hnm].
  - eexists. split; [rewrite Hels; do 4 right; left; reflexivity|]. split; reflexivity.
  - intros (fl & Hin & Hce). rewrite Hels in Hin.
    destruct Hin as [<-|[<-|[<-|[<-|[<-|[<-|[<-|[]]]]]]]]; discriminate Hce.
Qed.

(** * The serializer is an escaping writer *)

Lemma noReserved_ofZ z : noReserved (Js.ofZ z) = true.
Proof. unfold Js.ofZ. destruct (Z.to_int z); simpl; apply noReserved_uint. Qed.

Lemma noReserved_ofNumber o : noReserved (Js.ofNumber o) = true.
Proof. destruct o; [apply noReserved_ofZ|reflexivity]. Qed.

(** An attribute of the source, with the space before it, is an attribute
    of the writer. *)
Lemma attr_escaped key value :
  (" " ++ attr key (escapeXml value))%string = XmlWriter.attribute (key, value).
Proof.
  unfold attr, XmlWriter.attribute. rewrite escapeXml_escapeChars. reflexivity.
Qed.

Lemma attr_plain key value :
  noReserved value = true ->
  (" " ++ attr key value)%string = XmlWriter.attribute (key, value).
Proof.
  intros H. unfold attr, XmlWriter.attribute. cbn [fst snd].
  rewrite (escapeChars_noReserved value H). reflexivity.
Qed.

Lemma attributes_cons kv l :
  XmlWriter.attributes (kv :: l) = (XmlWriter.attribute kv ++ XmlWriter.attributes l)%string.
Proof. reflexivity. Qed.

Lemma attributes_nil : XmlWriter.attributes [] = EmptyString.
Proof. reflexivity. Qed.

Ltac writer_norm :=
  rewrite ?attributes_cons, ?attributes_nil, <- ?attr_escaped;
  repeat rewrite append_assoc; rewrite ?append_empty_r; cbn [append].

Lemma openLine_escaped indent tag e :
  openLine indent tag e
  = XmlWriter.startTag indent ("bpmn:" ++ tag)
      [("id", BpmnElement.id e); ("name", Js.orStr (BpmnElement.name e) EmptyString)].
Proof. unfold openLine, XmlWriter.startTag. writer_norm. reflexivity. Qed.

Lemma closeLine_escaped indent tag :
  closeLine indent tag = XmlWriter.endTag indent ("bpmn:" ++ tag).
Proof. unfold closeLine, XmlWriter.endTag. writer_norm. reflexivity. Qed.

Lemma child_escaped indent tag text :
  (indent ++ "  <" ++ tag ++ ">" ++ escapeXml text ++ "</" ++ tag ++ ">")%string
  = XmlWriter.textElement (indent ++ "  ") tag [] text.
Proof.
  unfold XmlWriter.textElement. rewrite escapeXml_escapeChars. writer_norm. reflexivity.
Qed.

Lemma documentationLines_escaped indent e :
  documentationLines indent e
  = match BpmnElement.documentation e with
    | Some (String c s) =>
        [XmlWriter.textElement (indent ++ "  ") "bpmn:documentation" [] (String c s)]
    | _ => []
    end.
Proof.
  unfold documentationLines. destruct (BpmnElement.documentation e) as [[|c s]|];
    try reflexivity.
  rewrite <- child_escaped. reflexivity.
Qed.

Lemma incomingLines_escaped indent e :
  incomingLines indent e
  = map (XmlWriter.textElement (indent ++ "  ") "bpmn:incoming" [])
      (listOf (BpmnElement.incoming e)).
Proof.
  unfold incomingLines. destruct (BpmnElement.incoming e) as [l|]; [|reflexivity].
  apply map_ext. intros inc. rewrite <- child_escaped. reflexivity.
Qed.

Lemma outgoingLines_escaped indent e :
  outgoingLines indent e
  = map (XmlWriter.textElement (indent ++ "  ") "bpmn:outgoing" [])
      (listOf (BpmnElement.outgoing e)).
Proof.
  unfold outgoingLines. destruct (BpmnElement.outgoing e) as [l|]; [|reflexivity].
  apply map_ext. intros out. rewrite <- child_escaped. reflexivity.
Qed.

Lemma flowAttrs_escaped e :
  (" " ++ flowAttrs e)%string
  = XmlWriter.attributes
      ([("id", BpmnElement.id e);
        ("sourceRef", Js.orStr (BpmnElement.sourceRef e) EmptyString);
        ("targetRef", Js.orStr (BpmnElement.targetRef e) EmptyString)]
       ++ match BpmnElement.name e with
          | Some (String c s) => [("name", String c s)]
          | _ => []
          end)%list.
Proof.
  unfold flowAttrs.
  destruct (BpmnElement.name e) as [[|c s]|]; cbn [app Js.join]; writer_norm; reflexivity.
Qed.

Lemma conditionLine_escaped indent text :
  (indent ++ "  " ++ conditionExpressionOpen ++ escapeXml text
     ++ "</bpmn:conditionExpression>")%string
  = XmlWriter.textElement (indent ++ "  ") "bpmn:conditionExpression"
      [("xsi:type", "bpmn:tFormalExpression");
       ("xmlns:xsi", "http://www.w3.org/2001/XMLSchema-instance")]
      text.
Proof.
  unfold XmlWriter.textElement, conditionExpressionOpen.
  rewrite !attributes_cons, attributes_nil,
    <- (attr_plain "xsi:type" "bpmn:tFormalExpression" eq_refl),
    <- (attr_plain "xmlns:xsi" "http://www.w3.org/2001/XMLSchema-instance" eq_refl),
    escapeXml_escapeChars.
  repeat rewrite append_assoc. rewrite ?append_empty_r. cbn [append]. reflexivity.
Qed.

(** The lines the source pushes for an element are those of the escaping
    writer. *)
Lemma elementLines_escaped e indent :
  elementLines e indent = escapedElementLines e indent.
Proof.
  unfold elementLines, escapedElementLines.
  rewrite documentationLines_escaped, incomingLines_escaped, outgoingLines_escaped.
  destruct (BpmnElement.type e); rewrite ?openLine_escaped, ?closeLine_escaped;
    try reflexivity.
  cbv zeta. unfold XmlWriter.emptyTag, XmlWriter.startTag, XmlWriter.endTag.
  rewrite <- flowAttrs_escaped.
  destruct (BpmnElement.conditionExpression e) as [[|c s]|].
  - writer_norm. reflexivity.
  - rewrite conditionLine_escaped. writer_norm. reflexivity.
  - writer_norm. reflexivity.
Qed.

Lemma waypointLine_escaped indent wp :
  waypointLine indent wp
  = XmlWriter.emptyTag (indent ++ "  ") "di:waypoint"
      [("x", Js.ofZ (Waypoint.x wp)); ("y", Js.ofZ (Waypoint.y wp))].
Proof.
  unfold waypointLine, XmlWriter.emptyTag.
  rewrite !attributes_cons, attributes_nil,
    <- (attr_plain "x" _ (noReserved_ofZ (Waypoint.x wp))),
    <- (attr_plain "y" _ (noReserved_ofZ (Waypoint.y wp))).
  repeat rewrite append_assoc. rewrite ?append_empty_r. cbn [append]. reflexivity.
Qed.

Lemma diLines_escaped d indent : diLines d indent = escapedDiLines d indent.
Proof.
  unfold diLines, escapedDiLines.
  assert (Hopen : forall tag,
             (indent ++ "<" ++ tag ++ " " ++ attr "id" (escapeXml (BpmnDiElement.id d)) ++ " "
                ++ attr "bpmnElement" (escapeXml (BpmnDiElement.bpmnElement d)) ++ ">")%string
             = XmlWriter.startTag indent tag
                 [("id", BpmnDiElement.id d);
                  ("bpmnElement", BpmnDiElement.bpmnElement d)]).
  { intros tag. unfold XmlWriter.startTag. writer_norm. reflexivity. }
  destruct (BpmnDiElement.waypoints d) as [waypoints|].
  - apply (f_equal2 (@app string)); [|apply (f_equal2 (@app string))].
    + apply (f_equal (fun x => [x])). exact (Hopen "bpmndi:BPMNEdge").
    + apply map_ext. intros wp. apply waypointLine_escaped.
    + reflexivity.
  - apply (f_equal2 cons); [|apply (f_equal2 cons); [|reflexivity]].
    + exact (Hopen "bpmndi:BPMNShape").
    + unfold XmlWriter.emptyTag.
      rewrite !attributes_cons, attributes_nil,
        <- (attr_plain "x" _ (noReserved_ofNumber (BpmnDiElement.x d))),
        <- (attr_plain "y" _ (noReserved_ofNumber (BpmnDiElement.y d))),
        <- (attr_plain "width" _ (noReserved_ofNumber (BpmnDiElement.width d))),
        <- (attr_plain "height" _ (noReserved_ofNumber (BpmnDiElement.height d))).
      repeat rewrite append_assoc. rewrite ?append_empty_r. cbn [append]. reflexivity.
Qed.

Lemma xmlLines_escaped pid pname pdesc els dis :
  xmlLines pid pname pdesc els dis = escapedDocument pid pname pdesc els dis.
Proof.
  unfold xmlLines, escapedDocument.
  apply (f_equal2 (@app string));
    [|apply (f_equal2 (@app string));
      [|apply (f_equal2 (@app string));
        [|apply (f_equal2 (@app string)); [|apply (f_equal2 (@app string))]]]].
  - apply (f_equal2 cons); [reflexivity|].
    apply (f_equal2 cons); [reflexivity|]. apply (f_equal (fun x => [x])).
    unfold XmlWriter.startTag.
    rewrite !attributes_cons, attributes_nil,
      <- (attr_plain "isExecutable" "true" eq_refl), <- !attr_escaped.
    repeat rewrite append_assoc. rewrite ?append_empty_r. cbn [append]. reflexivity.
  - destruct pdesc as [[|c s]|]; try reflexivity.
    apply (f_equal (fun x => [x])). apply (child_escaped "  " "bpmn:documentation").
  - apply map_ext. intros e. unfold generateElementXml.
    rewrite elementLines_escaped. reflexivity.
  - apply (f_equal2 cons); [reflexivity|].
    apply (f_equal2 cons); [reflexivity|]. apply (f_equal (fun x => [x])).
    unfold XmlWriter.startTag.
    rewrite !attributes_cons, attributes_nil,
      <- (attr_plain "id" "BPMNPlane_1" eq_refl), <- attr_escaped.
    repeat rewrite append_assoc. rewrite ?append_empty_r. cbn [append]. reflexivity.
  - apply map_ext. intros d. unfold generateDiXml. rewrite diLines_escaped. reflexivity.
  - reflexivity.
Qed.

(** An element of the graph has its text in the document. *)
Lemma element_in_document pid pname pdesc els dis e :
  In e els ->
  holds (generateBpmnXml pid pname pdesc els dis) (generateElementXml e "    ").
Proof.
  intros Hin. unfold generateBpmnXml. apply join_In. unfold xmlLines.
  apply in_or_app. right. apply in_or_app. right. apply in_or_app. left.
  apply (in_map (fun element => generateElementXml element "    ")). exact Hin.
Qed.

Lemma holds_trans s part piece : holds s part -> holds part piece -> holds s piece.
Proof.
  intros (b1 & a1 & ->) (b2 & a2 & ->). exists (b1 ++ b2)%string, (a2 ++ a1)%string.
  rewrite !append_assoc. reflexivity.
Qed.

Lemma line_in_element e indent line :
  In line (elementLines e indent) -> holds (generateElementXml e indent) line.
Proof. intros H. apply join_In. exact H. Qed.

(** C5. The serializer is an escaping writer: the document it returns,
    for any process and any graph, is the one the writer produces from the
    raw strings, so that every attribute value and every text of the document
    is the value the graph holds with each of the five reserved characters
    replaced by its entity, which is what [escapeXml] does: the identifier, the
    name and the description of the process; the identifier, the name, the
    documentation and the listed flows of every node; the identifier, the ends,
    the name and the condition expression of every flow; the two identifiers of
    every DI entry. A call on a valid document returns this document for the
    graph of the call. Every ampersand of the document starts one of the five
    entities, and the other markup characters are the same for two graphs of
    the same shape, whatever their strings are. The action titled
    [A & B <test>] gives, in the document the call returns, the name
    attribute [A &amp; B &lt;test&gt;]. *)
Theorem xml_escaping :
  (forall s, escapeXml s = escapeChars s)
  /\ (forall pid pname pdesc els dis,
         generateBpmnXml pid pname pdesc els dis
         = Js.join Js.nl (escapedDocument pid pname pdesc els dis))
  /\ (forall e indent,
         generateElementXml e indent = Js.join Js.nl (escapedElementLines e indent))
  /\ (forall d indent, generateDiXml d indent = Js.join Js.nl (escapedDiLines d indent))
  /\ (forall pd console0,
         FhirPlanDefinition.resourceType pd = Some "PlanDefinition" ->
         completion (convertPlanDefinitionToBpmn (Some pd) console0)
         = Return (Js.join Js.nl
                     (escapedDocument (Js.orStr (FhirPlanDefinition.id pd) "Process_1")
                        (Js.orStr (FhirPlanDefinition.title pd) "PlanDefinition Process")
                        (FhirPlanDefinition.description pd)
                        (BpmnFactory.elements (fst (buildGraph pd)))
                        (BpmnFactory.diElements (fst (buildGraph pd))))))
  /\ (forall pid pname pdesc els dis,
         ampersandsEscaped (generateBpmnXml pid pname pdesc els dis) = true)
  /\ (forall pid pid' pname pname' pdesc pdesc' els els' dis dis',
         Js.truthy pdesc = Js.truthy pdesc' ->
         Forall2 sameShape els els' ->
         Forall2 sameDiShape dis dis' ->
         markupOf (generateBpmnXml pid pname pdesc els dis)
         = markupOf (generateBpmnXml pid' pname' pdesc' els' dis'))
  /\ (exists xml,
         completion (convertPlanDefinitionToBpmn (Some ampersandPlan) []) = Return xml
         /\ holds xml
              ("    <bpmn:task " ++ attr "id" "Task_2" ++ " "
                 ++ attr "name" "A &amp; B &lt;test&gt;" ++ ">")).
Proof.
  assert (Hdoc : forall pid pname pdesc els dis,
             generateBpmnXml pid pname pdesc els dis
             = Js.join Js.nl (escapedDocument pid pname pdesc els dis)).
  { intros. unfold generateBpmnXml. rewrite xmlLines_escaped. reflexivity. }
  split; [exact escapeXml_escapeChars|].
  split; [exact Hdoc|].
  split; [intros e indent; unfold generateElementXml; rewrite elementLines_escaped;
          reflexivity|].
  split; [intros d indent; unfold generateDiXml; rewrite diLines_escaped; reflexivity|].
  split.
  { intros pd console0 Hroot. rewrite <- Hdoc.
    unfold convertPlanDefinitionToBpmn. rewrite (validRoot_valid _ Hroot).
    destruct (buildGraph pd) as [f log]. reflexivity. }
  split; [exact ampersandsEscaped_generateBpmnXml|].
  split; [exact markupOf_generateBpmnXml|].
  elements_of (fst (buildGraph ampersandPlan)) Hels.
  unfold convertPlanDefinitionToBpmn. rewrite (validRoot_valid ampersandPlan eq_refl).
  destruct (buildGraph ampersandPlan) as [f log]. cbn [fst] in Hels. cbn [completion].
  eexists. split; [reflexivity|].
  eapply holds_trans.
  - apply (element_in_document _ _ _ _ _
             (nodeElement "Task_2" task "A & B <test>" (Some EmptyString)
                (Some ["temp_incoming"; "Flow_1"]) (Some ["Flow_2"]))).
    rewrite Hels. right. left. reflexivity.
  - apply line_in_element. left. reflexivity.
Qed.

Lemma xml_escaping_witness :
  generateElementXml
    (BpmnElement.mk "F<1>" sequenceFlow (Some "a'b") None None None (Some "s&t") (Some "u")
       (Some "x < 1 && y > 2") None)
    EmptyString
  = Js.join Js.nl
      [("<bpmn:sequenceFlow " ++ attr "id" "F&lt;1&gt;" ++ " "
          ++ attr "sourceRef" "s&amp;t" ++ " " ++ attr "targetRef" "u" ++ " "
          ++ attr "name" "a&apos;b" ++ ">")%string;
       ("  <bpmn:conditionExpression " ++ attr "xsi:type" "bpmn:tFormalExpression" ++ " "
          ++ attr "xmlns:xsi" "http://www.w3.org/2001/XMLSchema-instance" ++ ">"
          ++ "x &lt; 1 &amp;&amp; y &gt; 2" ++ "</bpmn:conditionExpression>")%string;
       "</bpmn:sequenceFlow>"].
Proof.
  rewrite (proj1 (proj2 (proj2 xml_escaping))). reflexivity.
Defined.

(** * The placeholder *)

(** C1, on the code. The placeholder that every creator but
    [createStartEvent] is given as [incomingFlowId] is never taken out: in the
    graph of every document it is in the [incoming] list of every node but the
    start event, and it is the identifier of no element of the graph; in the
    graph of the empty document the [incoming] list of the end event is the
    placeholder followed by the flow that reaches it; and the document that a
    call returns has the line of this reference. *)
Theorem placeholder_never_removed :
  (forall pd,
     let f := fst (buildGraph pd) in
     (forall n, In n (BpmnFactory.elements f) -> isFlow n = false ->
        BpmnElement.type n <> startEvent ->
        In "temp_incoming" (listOf (BpmnElement.incoming n)))
     /\ (forall e, In e (BpmnFactory.elements f) -> BpmnElement.id e <> "temp_incoming"))
  /\ (exists e,
         In e (BpmnFactory.elements (fst (buildGraph emptyPlanDefinition)))
         /\ BpmnElement.type e = endEvent
         /\ BpmnElement.incoming e = Some ["temp_incoming"; "Flow_1"])
  /\ (forall pd console0,
         FhirPlanDefinition.resourceType pd = Some "PlanDefinition" ->
         exists xml,
           completion (convertPlanDefinitionToBpmn (Some pd) console0) = Return xml
           /\ holds xml "      <bpmn:incoming>temp_incoming</bpmn:incoming>").
Proof.
  assert (Hseed : forall pd n,
             In n (BpmnFactory.elements (fst (buildGraph pd))) -> isFlow n = false ->
             BpmnElement.type n <> startEvent ->
             In "temp_incoming" (listOf (BpmnElement.incoming n))).
  { intros pd n Hn Fn Hty.
    rewrite (linked_in _ (buildGraph_linked pd) n Hn Fn). apply in_or_app. left.
    destruct (BpmnElement.type n); try (left; reflexivity). contradiction. }
  split; [|split].
  - intros pd f. split; [exact (Hseed pd)|].
    intros e He. apply (Linked_flow_id f e (buildGraph_linked pd) He).
  - elements_of (fst (buildGraph emptyPlanDefinition)) Hels.
    eexists. split; [rewrite Hels; right; left; reflexivity|]. split; reflexivity.
  - intros pd console0 Hroot.
    assert (Hend : exists n, In n (BpmnFactory.elements (fst (buildGraph pd)))
                             /\ BpmnElement.type n = endEvent).
    { pose proof (buildGraph_one_end pd) as H1. unfold countType in H1.
      destruct (BpmnFactory.getElementsByType endEvent (fst (buildGraph pd)))
        as [|n r] eqn:E; [discriminate H1|].
      assert (Hn : In n (BpmnFactory.getElementsByType endEvent (fst (buildGraph pd))))
        by (rewrite E; left; reflexivity).
      apply filter_In in Hn as [Hn Hty]. exists n. split; [exact Hn|].
      destruct (BpmnElement.type n); try discriminate Hty. reflexivity. }
    destruct Hend as (n & Hn & Hty).
    assert (Fn : isFlow n = false) by (unfold isFlow; rewrite Hty; reflexivity).
    assert (Hns : BpmnElement.type n <> startEvent) by (rewrite Hty; discriminate).
    pose proof (Hseed pd n Hn Fn Hns) as Hin.
    unfold convertPlanDefinitionToBpmn. rewrite (validRoot_valid _ Hroot).
    destruct (buildGraph pd) as [f log]. cbn [fst] in Hn. cbn [completion].
    eexists. split; [reflexivity|].
    eapply holds_trans; [apply (element_in_document _ _ _ _ _ n Hn)|].
    apply line_in_element. unfold elementLines. rewrite Hty.
    apply in_or_app. right. apply in_or_app. right. apply in_or_app. left.
    unfold incomingLines. destruct (BpmnElement.incoming n) as [l|]; [|destruct Hin].
    cbn [listOf] in Hin.
    apply (in_map (fun inc => ("    " ++ "  <bpmn:incoming>" ++ escapeXml inc
                                 ++ "</bpmn:incoming>")%string)) in Hin.
    exact Hin.
Qed.
